(** * RandLA-Net with auxiliary supervision: forward graph and losses

    A shallow embedding of [src/model/model.py].  Tensors are a shape and a
    row-major buffer, as in the framework; every framework primitive the
    model calls ([P.Tile], [P.GatherD], [P.ReduceMax], [nn.Dense], ...) is
    written out as a function on such tensors.  A primitive that raises on
    an ill-shaped argument or an out-of-range index returns [None].

    [float32] values are modelled by the real numbers [R] (rounding, NaN and
    infinities are not represented); [int32] values by [Z].  What is proved
    of the classes is what does not depend on rounding: which arguments are
    accepted, the shapes, and which operations are applied to which entries.
    [class AttentivePooling] is written a second time over [binary32]
    ([Rounded], below), to show what rounding does to its sums. *)

From Stdlib Require Import List Arith ZArith Lia Bool Permutation.
From Stdlib Require String Ascii.
From Stdlib Require Import Reals Lra.
From Stdlib Require Import Floats.SpecFloat.
Import ListNotations.

Import String.StringSyntax.
Delimit Scope string_scope with string.

Set Implicit Arguments.

(** ** Error monad *)

Definition bind {A B : Type} (m : option A) (f : A -> option B) : option B :=
  match m with
  | Some a => f a
  | None => None
  end.

Notation "x <- m ;; k" := (bind m (fun x => k))
  (at level 61, m at next level, right associativity).
Notation "' p <- m ;; k" := (bind m (fun x => match x with p => k end))
  (at level 61, p pattern, m at next level, right associativity).

Definition guard (b : bool) : option unit := if b then Some tt else None.

(** ** Tensors *)

Class Dflt (A : Type) := dflt : A.
#[export] Instance Dflt_R : Dflt R := 0%R.
#[export] Instance Dflt_Z : Dflt Z := 0%Z.

Record tensor (A : Type) : Type := mkTensor {
  shape : list nat;
  data : list A
}.

Fixpoint prod (sh : list nat) : nat :=
  match sh with
  | [] => 1
  | n :: sh' => n * prod sh'
  end.

(** Row-major offset of a multi-index. *)
Fixpoint ravel (sh idx : list nat) : nat :=
  match sh, idx with
  | _ :: sh', i :: idx' => i * prod sh' + ravel sh' idx'
  | _, _ => 0
  end.

(** All multi-indices of a shape, in row-major order. *)
Fixpoint indices (sh : list nat) : list (list nat) :=
  match sh with
  | [] => [[]]
  | n :: sh' => flat_map (fun i => map (cons i) (indices sh')) (seq 0 n)
  end.

Fixpoint in_bounds (sh idx : list nat) : Prop :=
  match sh, idx with
  | [], [] => True
  | n :: sh', i :: idx' => i < n /\ in_bounds sh' idx'
  | _, _ => False
  end.

Definition rank {A} (t : tensor A) : nat := length (shape t).

Definition wf {A} (t : tensor A) : Prop := length (data t) = prod (shape t).

Definition has_shape {A} (t : tensor A) (sh : list nat) : Prop :=
  wf t /\ shape t = sh.

Definition tget {A} `{Dflt A} (t : tensor A) (idx : list nat) : A :=
  nth (ravel (shape t) idx) (data t) dflt.

Definition build {A} (sh : list nat) (f : list nat -> A) : tensor A :=
  mkTensor sh (map f (indices sh)).

Definition tmap {A B} (f : A -> B) (t : tensor A) : tensor B :=
  mkTensor (shape t) (map f (data t)).

(** ** Index bookkeeping *)

(** A Python axis (negative counts from the end) resolved against a rank. *)
Definition norm_axis (r : nat) (a : Z) : option nat :=
  let a' := if (a <? 0)%Z then (a + Z.of_nat r)%Z else a in
  if ((0 <=? a') && (a' <? Z.of_nat r))%Z then Some (Z.to_nat a') else None.

Definition insert_at {X} (a : nat) (x : X) (l : list X) : list X :=
  firstn a l ++ x :: skipn a l.

Definition remove_at {X} (a : nat) (l : list X) : list X :=
  firstn a l ++ skipn (S a) l.

Definition replace_at {X} (a : nat) (x : X) (l : list X) : list X :=
  firstn a l ++ x :: skipn (S a) l.

Fixpoint zipWith {X Y W} (f : X -> Y -> W) (l1 : list X) (l2 : list Y) : list W :=
  match l1, l2 with
  | x :: l1', y :: l2' => f x y :: zipWith f l1' l2'
  | _, _ => []
  end.

Fixpoint shape_eqb (s1 s2 : list nat) : bool :=
  match s1, s2 with
  | [], [] => true
  | n1 :: s1', n2 :: s2' => (n1 =? n2) && shape_eqb s1' s2'
  | _, _ => false
  end.

(** Two shapes of one rank, the first no larger than the second on any axis. *)
Fixpoint shape_leb (s1 s2 : list nat) : bool :=
  match s1, s2 with
  | [], [] => true
  | n1 :: s1', n2 :: s2' => (n1 <=? n2) && shape_leb s1' s2'
  | _, _ => false
  end.

Fixpoint index_of (j : nat) (perm : list nat) : nat :=
  match perm with
  | [] => 0
  | p :: perm' => if p =? j then 0 else S (index_of j perm')
  end.

(** Python list indexing, negative indices counting from the end. *)
Definition py_nth {X} (l : list X) (i : Z) : option X :=
  let i' := if (i <? 0)%Z then (i + Z.of_nat (length l))%Z else i in
  if (i' <? 0)%Z then None else nth_error l (Z.to_nat i').

Definition Rsum (l : list R) : R := fold_right Rplus 0%R l.

(** Maximum of a non-empty list, folded from the left. *)
Definition Rmaximum (l : list R) : R :=
  match l with
  | [] => 0%R
  | x :: l' => fold_left Rmax l' x
  end.

(** Mean of all the elements of a buffer. *)
Definition Rmean (l : list R) : R := (Rsum l / INR (length l))%R.

(** ** Tensor methods ([ms.Tensor]) *)

(** [x.expand_dims(axis)]: a unit axis is inserted, the buffer is kept. *)
Definition expand_dims {A} (axis : Z) (t : tensor A) : option (tensor A) :=
  a <- norm_axis (S (rank t)) axis ;;
  Some (mkTensor (insert_at a 1 (shape t)) (data t)).

(** [x.squeeze(axis)]: the axis must have size 1. *)
Definition squeeze {A} (axis : Z) (t : tensor A) : option (tensor A) :=
  a <- norm_axis (rank t) axis ;;
  _ <- guard (nth a (shape t) 0 =? 1) ;;
  Some (mkTensor (remove_at a (shape t)) (data t)).

Definition known_dims (spec : list (option nat)) : nat :=
  prod (map (fun o => match o with Some n => n | None => 1 end) spec).

Definition wildcards (spec : list (option nat)) : nat :=
  length (filter (fun o => match o with Some _ => false | None => true end) spec).

(** [x.reshape(spec)]; [None] in [spec] is Python's [-1].  The buffer is
    reinterpreted under the new shape; the sizes must agree, and a [-1] is
    inferred only when the known dimensions are non-zero and divide the size. *)
Definition reshape {A} (spec : list (option nat)) (t : tensor A) : option (tensor A) :=
  let total := prod (shape t) in
  let known := known_dims spec in
  match wildcards spec with
  | 0 =>
      _ <- guard (known =? total) ;;
      Some (mkTensor (map (fun o => match o with Some n => n | None => 1 end) spec) (data t))
  | 1 =>
      _ <- guard (negb (known =? 0) && (total mod known =? 0)) ;;
      Some (mkTensor
              (map (fun o => match o with Some n => n | None => total / known end) spec)
              (data t))
  | _ => None
  end.

(** [x.transpose(perm)]: [out[i_0..i_r] = x[j_0..j_r]] with [j_(perm k) = i_k]. *)
Definition transpose {A} `{Dflt A} (perm : list nat) (t : tensor A) : option (tensor A) :=
  _ <- guard ((length perm =? rank t)
              && forallb (fun j => existsb (Nat.eqb j) perm) (seq 0 (rank t))) ;;
  Some (build (map (fun p => nth p (shape t) 0) perm)
              (fun idx => tget t (map (fun j => nth (index_of j perm) idx 0)
                                      (seq 0 (rank t))))).

Definition swap_perm (r a b : nat) : list nat :=
  map (fun j => if j =? a then b else if j =? b then a else j) (seq 0 r).

(** [x.swapaxes(a, b)]. *)
Definition swapaxes {A} `{Dflt A} (a b : Z) (t : tensor A) : option (tensor A) :=
  a' <- norm_axis (rank t) a ;;
  b' <- norm_axis (rank t) b ;;
  transpose (swap_perm (rank t) a' b') t.

(** Broadcasting of two shapes, aligned on the last axis. *)
Fixpoint bshape_rev (s1 s2 : list nat) : option (list nat) :=
  match s1, s2 with
  | [], s => Some s
  | s, [] => Some s
  | n1 :: r1, n2 :: r2 =>
      rest <- bshape_rev r1 r2 ;;
      if n1 =? n2 then Some (n1 :: rest)
      else if n1 =? 1 then Some (n2 :: rest)
      else if n2 =? 1 then Some (n1 :: rest)
      else None
  end.

Definition bshape (s1 s2 : list nat) : option (list nat) :=
  option_map (@rev nat) (bshape_rev (rev s1) (rev s2)).

(** The index of an operand of shape [sh] that feeds output index [idx]. *)
Definition bidx (sh idx : list nat) : list nat :=
  zipWith (fun n i => if n =? 1 then 0 else i) sh
          (skipn (length idx - length sh) idx).

(** Elementwise binary operators ([a * b], [a + b], [a - b]) with broadcasting. *)
Definition tmap2 {A B C} `{Dflt A} `{Dflt B} (f : A -> B -> C)
    (a : tensor A) (b : tensor B) : option (tensor C) :=
  sh <- bshape (shape a) (shape b) ;;
  Some (build sh (fun idx => f (tget a (bidx (shape a) idx)) (tget b (bidx (shape b) idx)))).

(** [x.mean()] over all axes: a scalar.  A tensor without elements has no
    mean (the framework refuses a shape that contains 0). *)
Definition mean (x : tensor R) : option R :=
  _ <- guard (negb (prod (shape x) =? 0)) ;;
  Some (Rmean (data x)).

(** Truncation toward zero: the value of a [float32] cast to [int32]. *)
Definition Rtrunc (x : R) : Z :=
  if Rle_dec 0 x then Int_part x else (- Int_part (- x))%Z.

(** A tensor of either element type the model uses. *)
Inductive dtensor : Type :=
| TInt32 (t : tensor Z)
| TFloat32 (t : tensor R).

(** [x.astype(ms.float32)].  The cast of an [int32] is taken to be exact, as
    it is for the labels 0 and 1 the model casts (the framework rounds an
    integer of more than 24 bits). *)
Definition astype_float32 (x : dtensor) : tensor R :=
  match x with
  | TInt32 t => tmap IZR t
  | TFloat32 t => t
  end.

(** ** Framework operators ([mindspore.ops], imported as [P]) *)

Module P.

(** [P.Tile()(x, multiples)], one multiple per axis.  The framework refuses
    a multiple 0 and an operand with an axis of size 0. *)
Definition Tile {A} `{Dflt A} (t : tensor A) (multiples : list nat) : option (tensor A) :=
  _ <- guard ((length multiples =? rank t)
              && forallb (Nat.ltb 0) multiples && forallb (Nat.ltb 0) (shape t)) ;;
  Some (build (zipWith Nat.mul (shape t) multiples)
              (fun idx => tget t (zipWith (fun i n => i mod n) idx (shape t)))).

(** An index into an axis of size [n], a negative one counting from the end. *)
Definition wrap_index (n : nat) (i : Z) : nat :=
  Z.to_nat (if (i <? 0)%Z then (i + Z.of_nat n)%Z else i).

(** [P.GatherD()(x, dim, index)]:
    [out[i][j][k] = x[i][j][index[i][j][k]]] for the last axis, and likewise for
    the others.  [index] has the rank of [x] and, except along [dim], no axis
    larger than that of [x]; every index must lie in
    [[-x.shape[dim], x.shape[dim])], a negative one counting from the end. *)
Definition GatherD {A} `{Dflt A} (x : tensor A) (dim : Z) (index : tensor Z)
    : option (tensor A) :=
  a <- norm_axis (rank x) dim ;;
  _ <- guard ((rank index =? rank x)
              && shape_leb (remove_at a (shape index)) (remove_at a (shape x))) ;;
  let n := nth a (shape x) 0 in
  _ <- guard (forallb (fun i => (- Z.of_nat n <=? i)%Z && (i <? Z.of_nat n)%Z)
                      (data index)) ;;
  Some (build (shape index)
              (fun idx => tget x (replace_at a (wrap_index n (tget index idx)) idx))).

(** The reduced axis of output index [idx] set to [k]. *)
Definition lane (keep_dims : bool) (a k : nat) (idx : list nat) : list nat :=
  if keep_dims then replace_at a k idx else insert_at a k idx.

Definition reduced_shape (keep_dims : bool) (a : nat) (sh : list nat) : list nat :=
  if keep_dims then replace_at a 1 sh else remove_at a sh.

(** [P.ReduceMax(keep_dims)(x, axis)]; an empty axis has no maximum. *)
Definition ReduceMax (keep_dims : bool) (x : tensor R) (axis : Z) : option (tensor R) :=
  a <- norm_axis (rank x) axis ;;
  _ <- guard (negb (nth a (shape x) 0 =? 0)) ;;
  Some (build (reduced_shape keep_dims a (shape x))
              (fun idx => Rmaximum (map (fun k => tget x (lane keep_dims a k idx))
                                        (seq 0 (nth a (shape x) 0))))).

(** [P.ReduceSum(keep_dims)(x, axis)]: the sum of the entries along the axis,
    here an exact sum ([Rounded.ReduceSum] is the rounded one). *)
Definition ReduceSum (keep_dims : bool) (x : tensor R) (axis : Z) : option (tensor R) :=
  a <- norm_axis (rank x) axis ;;
  Some (build (reduced_shape keep_dims a (shape x))
              (fun idx => Rsum (map (fun k => tget x (lane keep_dims a k idx))
                                    (seq 0 (nth a (shape x) 0))))).

(** [P.ReduceMean()(x)] over all axes: a scalar. *)
Definition ReduceMean (x : tensor R) : R := Rmean (data x).

(** [P.Concat(axis)((a, b))]. *)
Definition Concat2 {A} `{Dflt A} (axis : Z) (t1 t2 : tensor A) : option (tensor A) :=
  a <- norm_axis (rank t1) axis ;;
  _ <- guard ((rank t1 =? rank t2)
              && shape_eqb (remove_at a (shape t1)) (remove_at a (shape t2))) ;;
  let n1 := nth a (shape t1) 0 in
  let n2 := nth a (shape t2) 0 in
  Some (build (replace_at a (n1 + n2) (shape t1))
              (fun idx => let i := nth a idx 0 in
                          if i <? n1 then tget t1 idx
                          else tget t2 (replace_at a (i - n1) idx))).

Fixpoint Concat_from {A} `{Dflt A} (axis : Z) (acc : tensor A) (ts : list (tensor A))
    : option (tensor A) :=
  match ts with
  | [] => Some acc
  | t :: ts' => acc' <- Concat2 axis acc t ;; Concat_from axis acc' ts'
  end.

(** [P.Concat(axis)(ts)] for a tuple or list of tensors. *)
Definition Concat {A} `{Dflt A} (axis : Z) (ts : list (tensor A)) : option (tensor A) :=
  match ts with
  | [] => None
  | t :: ts' => Concat_from axis t ts'
  end.

Definition Sqrt (x : tensor R) : tensor R := tmap sqrt x.

Definition Square (x : tensor R) : tensor R := tmap (fun v => (v * v)%R) x.

(** [P.Squeeze(axis)(x)]. *)
Definition Squeeze {A} (axis : Z) (x : tensor A) : option (tensor A) := squeeze axis x.

(** [P.cast(x, ms.int32)] of a [float32] tensor. *)
Definition cast_int32 (x : tensor R) : tensor Z := tmap Rtrunc x.

(** [P.GreaterEqual()(x, c)]. *)
Definition GreaterEqual (x : tensor R) (c : R) : tensor bool :=
  tmap (fun v => if Rle_dec c v then true else false) x.

(** [P.cast(x, ms.int32)] of a boolean tensor. *)
Definition cast_bool_int32 (x : tensor bool) : tensor Z :=
  tmap (fun b : bool => if b then 1%Z else 0%Z) x.

Definition sigmoid (x : R) : R := (1 / (1 + exp (- x)))%R.

(** Sigmoid cross-entropy of one logit [x] against one label [z]. *)
Definition sigmoid_ce (x z : R) : R :=
  (- (z * ln (sigmoid x) + (1 - z) * ln (1 - sigmoid x)))%R.

(** [P.SigmoidCrossEntropyWithLogits()(logits, label)]: elementwise, the two
    tensors have one shape. *)
Definition SigmoidCrossEntropyWithLogits (logits label : tensor R) : option (tensor R) :=
  _ <- guard (shape_eqb (shape logits) (shape label)) ;;
  Some (mkTensor (shape logits) (zipWith sigmoid_ce (data logits) (data label))).

End P.

(** ** Framework layers ([mindspore.nn]) *)

Module nn.

(** [nn.OneHot(depth)]: a last axis of size [depth] is appended, holding 1.0
    at the position of the label and 0.0 elsewhere. *)
Definition OneHot (depth : nat) (labels : tensor Z) : tensor R :=
  build (shape labels ++ [depth])
        (fun idx => if (tget labels (removelast idx) =? Z.of_nat (last idx 0%nat))%Z
                    then 1%R else 0%R).

(** [nn.Dense(in_channels, out_channels, has_bias)], applied to the last axis. *)
Record Dense : Type := mkDense {
  dense_in : nat;
  dense_out : nat;
  dense_weight : nat -> nat -> R;
  dense_bias : option (nat -> R)
}.

Definition bias_at (b : option (nat -> R)) (o : nat) : R :=
  match b with
  | Some f => f o
  | None => 0%R
  end.

(** A linear map over axis [a]: [out[.., o, ..] = sum_i w o i * x[.., i, ..] + b o]. *)
Definition linear_on (a cin cout : nat) (w : nat -> nat -> R) (b : option (nat -> R))
    (x : tensor R) : tensor R :=
  build (replace_at a cout (shape x))
        (fun idx => (Rsum (map (fun i => w (nth a idx 0%nat) i * tget x (replace_at a i idx))
                               (seq 0 cin))
                     + bias_at b (nth a idx 0%nat))%R).

Definition Dense_construct (self : Dense) (x : tensor R) : option (tensor R) :=
  _ <- guard (negb (rank x =? 0) && (last (shape x) 0 =? dense_in self)) ;;
  Some (linear_on (rank x - 1) (dense_in self) (dense_out self)
                  (dense_weight self) (dense_bias self) x).

(** [nn.Softmax(axis)]: the exponential of an entry divided by the sum of
    the exponentials along the axis, here in exact arithmetic
    ([Rounded.Softmax] is the rounded one). *)
Definition Softmax (axis : Z) (x : tensor R) : option (tensor R) :=
  a <- norm_axis (rank x) axis ;;
  Some (build (shape x)
              (fun idx => (exp (tget x idx)
                           / Rsum (map (fun k => exp (tget x (replace_at a k idx)))
                                       (seq 0 (nth a (shape x) 0%nat))))%R)).

(** [nn.Conv2d] and [nn.Conv2dTranspose] as the model builds them: kernel
    size 1, stride 1, pad mode 'valid'.  Both are then a linear map over the
    channel axis (axis 1) of a [(B, C, H, W)] tensor that keeps [H] and [W];
    [conv_transpose] records which of the two the layer is.  The input must
    cover the kernel: the framework refuses [H = 0] and [W = 0]. *)
Record Conv2d : Type := mkConv2d {
  conv_transpose : bool;
  conv_in : nat;
  conv_out : nat;
  conv_weight : nat -> nat -> R;
  conv_bias : option (nat -> R)
}.

Definition Conv2d_construct (self : Conv2d) (x : tensor R) : option (tensor R) :=
  _ <- guard ((rank x =? 4) && (nth 1 (shape x) 0 =? conv_in self)
              && (0 <? nth 2 (shape x) 0) && (0 <? nth 3 (shape x) 0)) ;;
  Some (linear_on 1 (conv_in self) (conv_out self) (conv_weight self) (conv_bias self) x).

(** [nn.BatchNorm2d(num_features, eps, momentum)].  [bn_stats x c] is the mean
    and variance the layer normalises channel [c] of [x] with: those of the
    batch when training, the moving ones otherwise. *)
Record BatchNorm2d : Type := mkBatchNorm2d {
  bn_features : nat;
  bn_eps : R;
  bn_gamma : nat -> R;
  bn_beta : nat -> R;
  bn_stats : tensor R -> nat -> R * R
}.

Definition BatchNorm2d_construct (self : BatchNorm2d) (x : tensor R) : option (tensor R) :=
  _ <- guard ((rank x =? 4) && (nth 1 (shape x) 0 =? bn_features self)) ;;
  Some (build (shape x)
              (fun idx => let c := nth 1 idx 0%nat in
                          let '(mean, var) := bn_stats self x c in
                          (bn_gamma self c * ((tget x idx - mean) / sqrt (var + bn_eps self))
                           + bn_beta self c)%R)).

(** [nn.LeakyReLU(alpha)]. *)
Definition LeakyReLU (alpha : R) (x : tensor R) : tensor R :=
  tmap (fun v => if Rle_dec 0 v then v else (alpha * v)%R) x.

(** [nn.Dropout()]: every element is multiplied by the factor the mask gives
    its position (1 outside training; 0 or 1/keep_prob in training). *)
Definition Dropout (mask : list nat -> R) (x : tensor R) : tensor R :=
  build (shape x) (fun idx => (tget x idx * mask idx)%R).

Definition softmax_row (l : list R) : list R :=
  map (fun v => (exp v / Rsum (map exp l))%R) l.

(** Softmax cross-entropy of one row of logits against one row of labels. *)
Definition softmax_ce_row (logit label : list R) : R :=
  (- Rsum (zipWith (fun p y => y * ln p) (softmax_row logit) label))%R.

Definition row (x : tensor R) (i : nat) : list R :=
  map (fun c => tget x [i; c]) (seq 0 (nth 1 (shape x) 0%nat)).

(** [nn.SoftmaxCrossEntropyWithLogits(sparse=False)]: one loss per row of
    [(M, C)] logits and labels. *)
Definition SoftmaxCrossEntropyWithLogits (logits labels : tensor R) : option (tensor R) :=
  _ <- guard ((rank logits =? 2) && shape_eqb (shape logits) (shape labels)) ;;
  Some (build [nth 0 (shape logits) 0%nat]
              (fun idx => softmax_ce_row (row logits (nth 0 idx 0%nat))
                                         (row labels (nth 0 idx 0%nat)))).

End nn.

(** ** Learned parameters *)

(** The weights of one [SharedMLP]: convolution kernel and bias, and the
    scale, shift and statistics of its batch normalisation. *)
Record mlp_params : Type := mkMlpParams {
  p_weight : nat -> nat -> R;
  p_bias : nat -> R;
  p_gamma : nat -> R;
  p_beta : nat -> R;
  p_stats : tensor R -> nat -> R * R
}.

(** ** [class SharedMLP] *)

Module SharedMLP.

Record t : Type := mk {
  conv : nn.Conv2d;
  has_bn : bool;
  batch_norm : nn.BatchNorm2d;
  activation_fn : option R  (* the slope of [nn.LeakyReLU], when there is one *)
}.

(** [__init__], with [kernel_size=1], [stride=1], [pad_mode='valid']. *)
Definition init (in_channels out_channels : nat) (transpose bn : bool)
    (activation_fn : option R) (bias : bool) (p : mlp_params) : t :=
  mk (nn.mkConv2d transpose in_channels out_channels (p_weight p)
                  (if bias then Some (p_bias p) else None))
     bn
     (nn.mkBatchNorm2d out_channels 1e-6 (p_gamma p) (p_beta p) (p_stats p))
     activation_fn.

Definition construct (self : t) (x : tensor R) : option (tensor R) :=
  x <- nn.Conv2d_construct (conv self) x ;;
  x <- (if has_bn self then nn.BatchNorm2d_construct (batch_norm self) x else Some x) ;;
  Some (match activation_fn self with
        | Some alpha => nn.LeakyReLU alpha x
        | None => x
        end).

End SharedMLP.

(** ** [class LocalSpatialEncoding] *)

Module LocalSpatialEncoding.

Record t : Type := mk {
  mlp : SharedMLP.t;
  d : nat;
  use_pos_encoding : bool
}.

Definition init (in_channel out_channel : nat) (use_pos_encoding bias : bool)
    (p : mlp_params) : t :=
  mk (SharedMLP.init in_channel out_channel false true (Some 0.2%R) bias p)
     out_channel
     use_pos_encoding.

(** What [construct] returns: the pair [f_xyz, f_concat] with positional
    encoding, [f_concat] alone without. *)
Inductive result : Type :=
| Pair (f_xyz f_concat : tensor R)
| Single (f_concat : tensor R).

Definition construct (self : t) (coords features : tensor R) (neighbor_idx : tensor Z)
    : option result :=
  let idx := neighbor_idx in
  let cat := P.Concat (-3) in
  k <- py_nth (shape idx) (-1) ;;
  f_xyz <-
    (if use_pos_encoding self then
       idx1 <- expand_dims 1 idx ;;
       extended_idx <- P.Tile idx1 [1; 3; 1; 1] ;;
       c1 <- transpose [0; 2; 1] coords ;;
       c2 <- expand_dims (-1) c1 ;;
       xyz_tile <- P.Tile c2 [1; 1; 1; k] ;;
       neighbor_xyz <- P.GatherD xyz_tile 2 extended_idx ;;
       relative_xyz <- tmap2 Rminus xyz_tile neighbor_xyz ;;
       sq <- P.ReduceSum true (P.Square relative_xyz) (-3) ;;
       let relative_dist := P.Sqrt sq in
       cat [relative_dist; relative_xyz; xyz_tile; neighbor_xyz]
     else Some coords) ;;
  f_xyz <- SharedMLP.construct (mlp self) f_xyz ;;
  f_tile <- P.Tile features [1; 1; 1; k] ;;
  idx1 <- expand_dims 1 idx ;;
  c <- nth_error (shape f_xyz) 1 ;;
  extended_idx_for_feat <- P.Tile idx1 [1; c; 1; 1] ;;
  f_neighbours <- P.GatherD f_tile 2 extended_idx_for_feat ;;
  f_concat <- cat [f_xyz; f_neighbours] ;;
  Some (if use_pos_encoding self then Pair f_xyz f_concat else Single f_concat).

End LocalSpatialEncoding.

(** ** [class AttentivePooling] *)

Record pool_params : Type := mkPoolParams {
  score_weight : nat -> nat -> R;
  pool_mlp : mlp_params
}.

Module AttentivePooling.

Record t : Type := mk {
  score_dense : nn.Dense;   (* [score_fn] is this layer followed by [nn.Softmax(-2)] *)
  mlp : SharedMLP.t
}.

Definition init (in_channels out_channels : nat) (bias : bool) (p : pool_params) : t :=
  mk (nn.mkDense in_channels in_channels (score_weight p) None)
     (SharedMLP.init in_channels out_channels false true (Some 0.2%R) bias (pool_mlp p)).

Definition score_fn (self : t) (x : tensor R) : option (tensor R) :=
  y <- nn.Dense_construct (score_dense self) x ;;
  nn.Softmax (-2) y.

(** The attention scores, in the layout of [x]. *)
Definition scores (self : t) (x : tensor R) : option (tensor R) :=
  xt <- transpose [0; 2; 3; 1] x ;;
  s <- score_fn self xt ;;
  transpose [0; 3; 1; 2] s.

Definition construct (self : t) (x : tensor R) : option (tensor R) :=
  scores <- scores self x ;;
  features <- tmap2 Rmult scores x ;;
  features <- P.ReduceSum true features (-1) ;;
  SharedMLP.construct (mlp self) features.

End AttentivePooling.

(** ** [class LocalFeatureAggregation] *)

Record lfa_params : Type := mkLfaParams {
  mlp1_p : mlp_params;
  mlp2_p : mlp_params;
  shortcut_p : mlp_params;
  lse1_p : mlp_params;
  lse2_p : mlp_params;
  pool1_p : pool_params;
  pool2_p : pool_params
}.

Module LocalFeatureAggregation.

Record t : Type := mk {
  mlp1 : SharedMLP.t;
  mlp2 : SharedMLP.t;
  shortcut : SharedMLP.t;
  lse1 : LocalSpatialEncoding.t;
  lse2 : LocalSpatialEncoding.t;
  pool1 : AttentivePooling.t;
  pool2 : AttentivePooling.t;
  lrelu : R
}.

Definition init (d_in d_out : nat) (bias : bool) (p : lfa_params) : t :=
  mk (SharedMLP.init d_in (d_out / 2) false true (Some 0.2%R) bias (mlp1_p p))
     (SharedMLP.init d_out (2 * d_out) false true None bias (mlp2_p p))
     (SharedMLP.init d_in (2 * d_out) false true None bias (shortcut_p p))
     (LocalSpatialEncoding.init 10 (d_out / 2) true bias (lse1_p p))
     (LocalSpatialEncoding.init (d_out / 2) (d_out / 2) false bias (lse2_p p))
     (AttentivePooling.init d_out (d_out / 2) bias (pool1_p p))
     (AttentivePooling.init d_out d_out bias (pool2_p p))
     0.2%R.

Definition construct (self : t) (coords features : tensor R) (neighbor_idx : tensor Z)
    : option (tensor R) :=
  f_pc <- SharedMLP.construct (mlp1 self) features ;;
  r1 <- LocalSpatialEncoding.construct (lse1 self) coords f_pc neighbor_idx ;;
  match r1 with
  | LocalSpatialEncoding.Single _ => None
  | LocalSpatialEncoding.Pair f_xyz f_concat =>
      f_pc_agg <- AttentivePooling.construct (pool1 self) f_concat ;;
      r2 <- LocalSpatialEncoding.construct (lse2 self) f_xyz f_pc_agg neighbor_idx ;;
      match r2 with
      | LocalSpatialEncoding.Pair _ _ => None
      | LocalSpatialEncoding.Single f_concat =>
          f_pc_agg <- AttentivePooling.construct (pool2 self) f_concat ;;
          a <- SharedMLP.construct (mlp2 self) f_pc_agg ;;
          b <- SharedMLP.construct (shortcut self) features ;;
          s <- tmap2 Rplus a b ;;
          Some (nn.LeakyReLU (lrelu self) s)
      end
  end.

End LocalFeatureAggregation.

(** ** [class RandLANet] *)

Record net_params : Type := mkNetParams {
  fc_start_w : nat -> nat -> R;
  fc_start_b : nat -> R;
  bn_start_gamma : nat -> R;
  bn_start_beta : nat -> R;
  bn_start_stats : tensor R -> nat -> R * R;
  encoder_p : nat -> lfa_params;
  mlp_p : mlp_params;
  supervise_p : nat -> mlp_params;
  Se_p : nat -> mlp_params;
  decoder_p : nat -> mlp_params;
  fc_end_p : nat -> mlp_params;
  dropout_mask : list nat -> R
}.

(** A [for] loop over a list of indices whose body may raise. *)
Fixpoint for_each {S} (body : nat -> S -> option S) (range : list nat) (s : S) : option S :=
  match range with
  | [] => Some s
  | i :: range' => s' <- body i s ;; for_each body range' s'
  end.

Module RandLANet.

Record t : Type := mk {
  fc_start : nn.Dense;
  bn_start : nn.BatchNorm2d;    (* followed by [nn.LeakyReLU(0.2)] *)
  encoder : list LocalFeatureAggregation.t;
  mlp : SharedMLP.t;
  supervise : list SharedMLP.t;
  Se : list SharedMLP.t;
  decoder : list SharedMLP.t;
  fc_end_0 : SharedMLP.t;
  fc_end_1 : SharedMLP.t;
  fc_end_dropout : list nat -> R;
  fc_end_3 : SharedMLP.t
}.

Definition init (d_in num_classes : nat) (bias : bool) (p : net_params) : t :=
  let supervise_kwargs c k := SharedMLP.init c 13 false true None bias (supervise_p p k) in
  let Se_kwargs c k := SharedMLP.init c 10 false true None bias (Se_p p k) in
  let decoder_kwargs c_in c_out k :=
    SharedMLP.init c_in c_out true true (Some 0.2%R) bias (decoder_p p k) in
  mk (nn.mkDense d_in 8 (fc_start_w p) (Some (fc_start_b p)))
     (nn.mkBatchNorm2d 8 1e-6 (bn_start_gamma p) (bn_start_beta p) (bn_start_stats p))
     [ LocalFeatureAggregation.init 8 16 bias (encoder_p p 0);
       LocalFeatureAggregation.init 32 64 bias (encoder_p p 1);
       LocalFeatureAggregation.init 128 128 bias (encoder_p p 2);
       LocalFeatureAggregation.init 256 256 bias (encoder_p p 3);
       LocalFeatureAggregation.init 512 512 bias (encoder_p p 4) ]
     (SharedMLP.init 1024 1024 false true (Some 0.2%R) true (mlp_p p))
     [ supervise_kwargs 1024 0; supervise_kwargs 512 1; supervise_kwargs 256 2;
       supervise_kwargs 128 3; supervise_kwargs 32 4; supervise_kwargs 32 5 ]
     [ Se_kwargs 512 0; Se_kwargs 256 1; Se_kwargs 128 2; Se_kwargs 32 3 ]
     [ decoder_kwargs 1536 512 0; decoder_kwargs 768 256 1; decoder_kwargs 384 128 2;
       decoder_kwargs 160 32 3; decoder_kwargs 64 32 4 ]
     (SharedMLP.init 32 64 false true (Some 0.2%R) bias (fc_end_p p 0))
     (SharedMLP.init 64 32 false true (Some 0.2%R) bias (fc_end_p p 1))
     (dropout_mask p)
     (SharedMLP.init 32 num_classes false false None bias (fc_end_p p 3)).

(** [random_sample(feature, pool_idx)], a static method. *)
Definition random_sample (feature : tensor R) (pool_idx : tensor Z) : option (tensor R) :=
  b <- nth_error (shape feature) 0 ;;
  d <- nth_error (shape feature) 1 ;;
  n_ <- nth_error (shape pool_idx) 1 ;;
  pool_idx <- expand_dims 1 pool_idx ;;
  pool_idx <- P.Tile pool_idx [1; d; 1; 1] ;;
  pool_idx <- reshape [Some b; Some d; None] pool_idx ;;
  squeezed <- squeeze (-1) feature ;;
  pool_features <- P.GatherD squeezed (-1) pool_idx ;;
  pool_features <- reshape [Some b; Some d; Some n_; None] pool_features ;;
  P.ReduceMax true pool_features (-1).

(** The part of [gather_neighbour] that does not depend on the element type. *)
Definition gather_neighbour_raw {A} `{Dflt A} (pc : tensor A) (neighbor_idx : tensor Z)
    : option (tensor A) :=
  let idx := neighbor_idx in
  idx1 <- expand_dims 1 idx ;;
  extended_idx <- P.Tile idx1 [1; 13; 1; 1] ;;
  k <- py_nth (shape idx) (-1) ;;
  pc1 <- transpose [0; 2; 1] pc ;;
  pc2 <- expand_dims (-1) pc1 ;;
  xyz_tile <- P.Tile pc2 [1; 1; 1; k] ;;
  features <- P.GatherD xyz_tile 2 extended_idx ;;
  transpose [0; 2; 3; 1] features.

(** [gather_neighbour(pc, neighbor_idx)], a static method; the result is
    [float32] whatever the element type of [pc]. *)
Definition gather_neighbour (pc : dtensor) (neighbor_idx : tensor Z) : option (tensor R) :=
  match pc with
  | TInt32 t =>
      features <- gather_neighbour_raw t neighbor_idx ;;
      Some (astype_float32 (TInt32 features))
  | TFloat32 t =>
      features <- gather_neighbour_raw t neighbor_idx ;;
      Some (astype_float32 (TFloat32 features))
  end.

(** One pooling of the labels, as in the encoder loop: two rounds of
    neighbour gathering and maximum, then [random_sample]. *)
Definition pool_labels (label : dtensor) (neighbor_idx sub_idx : tensor Z)
    : option (tensor R) :=
  g <- gather_neighbour label neighbor_idx ;;
  tmp_multihot_label <- P.ReduceMax false g 2 ;;
  g <- gather_neighbour (TFloat32 tmp_multihot_label) neighbor_idx ;;
  tmp_multihot_label <- P.ReduceMax false g 2 ;;
  tmp_multihot_label <- expand_dims 2 tmp_multihot_label ;;
  tmp_multihot_label <- transpose [0; 3; 1; 2] tmp_multihot_label ;;
  sampled <- random_sample tmp_multihot_label sub_idx ;;
  sampled <- transpose [0; 2; 3; 1] sampled ;;
  P.Squeeze 2 sampled.

Record encoder_state : Type := mkEnc {
  enc_feature : tensor R;
  f_stack : list (tensor R);
  multihot_labels : list dtensor
}.

(** The body of [for i in range(5)] in the encoder. *)
Definition encoder_body (self : t) (xyz : list (tensor R))
    (neighbor_idx sub_idx : list (tensor Z)) (i : nat) (s : encoder_state)
    : option encoder_state :=
  encoder_i <- nth_error (encoder self) i ;;
  xyz_i <- nth_error xyz i ;;
  neighbor_idx_i <- nth_error neighbor_idx i ;;
  sub_idx_i <- nth_error sub_idx i ;;
  f_encoder_i <- LocalFeatureAggregation.construct encoder_i xyz_i (enc_feature s)
                                                   neighbor_idx_i ;;
  f_sampled_i <- random_sample f_encoder_i sub_idx_i ;;
  label_i <- nth_error (multihot_labels s) i ;;
  tmp_multihot_label <- pool_labels label_i neighbor_idx_i sub_idx_i ;;
  let f_stack1 := if i =? 0 then f_stack s ++ [f_encoder_i] else f_stack s in
  Some (mkEnc f_sampled_i
              (f_stack1 ++ [f_sampled_i])
              (multihot_labels s ++ [TFloat32 tmp_multihot_label])).

(** [P.Squeeze(2)(tmp_features.transpose(0, 2, 3, 1))]. *)
Definition to_supervised (tmp_features : tensor R) : option (tensor R) :=
  x <- transpose [0; 2; 3; 1] tmp_features ;;
  P.Squeeze 2 x.

Record decoder_state : Type := mkDec {
  dec_feature : tensor R;
  f_decoder_list : list (tensor R);
  se_features_list : list (tensor R);
  supervised_features : list (tensor R)
}.

(** The body of [for j in range(5)] in the decoder. *)
Definition decoder_body (self : t) (f_stack : list (tensor R))
    (interp_idx : list (tensor Z)) (j : nat) (s : decoder_state)
    : option decoder_state :=
  interp_idx_j <- py_nth interp_idx (- Z.of_nat j - 1) ;;
  f_interp_i <- random_sample (dec_feature s) interp_idx_j ;;
  skip <- py_nth f_stack (- Z.of_nat j - 2) ;;
  decoder_j <- nth_error (decoder self) j ;;
  c <- P.Concat 1 [skip; f_interp_i] ;;
  f_decoder_i <- SharedMLP.construct decoder_j c ;;
  se_list <-
    (if j <? 4 then
       Se_j <- nth_error (Se self) j ;;
       se_features <- SharedMLP.construct Se_j f_decoder_i ;;
       Some (se_features_list s ++ [se_features])
     else Some (se_features_list s)) ;;
  supervise_j <- nth_error (supervise self) (j + 1) ;;
  tmp_features <- SharedMLP.construct supervise_j f_decoder_i ;;
  sup <- to_supervised tmp_features ;;
  Some (mkDec f_decoder_i
              (f_decoder_list s ++ [f_decoder_i])
              se_list
              (supervised_features s ++ [sup])).

(** [self.fc_end], a sequential cell. *)
Definition fc_end (self : t) (x : tensor R) : option (tensor R) :=
  x <- SharedMLP.construct (fc_end_0 self) x ;;
  x <- SharedMLP.construct (fc_end_1 self) x ;;
  SharedMLP.construct (fc_end_3 self) (nn.Dropout (fc_end_dropout self) x).

(** The input features brought to [(B, 8, N, 1)]. *)
Definition stem (self : t) (feature : tensor R) : option (tensor R) :=
  x <- nn.Dense_construct (fc_start self) feature ;;
  x <- swapaxes (-2) (-1) x ;;
  feature <- expand_dims (-1) x ;;
  x <- nn.BatchNorm2d_construct (bn_start self) feature ;;
  Some (nn.LeakyReLU 0.2 x).

Definition construct (self : t) (xyz : list (tensor R)) (feature : tensor R)
    (neighbor_idx sub_idx interp_idx : list (tensor Z)) (labels : tensor Z)
    : option (tensor R * list dtensor * list (tensor R) * list (tensor R)) :=
  feature <- stem self feature ;;
  let onehot := nn.OneHot 13 in
  let multihot_labels0 := [TInt32 (P.cast_int32 (onehot labels))] in
  (* ENCODER *)
  enc <- for_each (encoder_body self xyz neighbor_idx sub_idx) (seq 0 5)
                  (mkEnc feature [] multihot_labels0) ;;
  last_f <- py_nth (f_stack enc) (-1) ;;
  feature <- SharedMLP.construct (mlp self) last_f ;;
  (* DECODER *)
  supervise_0 <- nth_error (supervise self) 0 ;;
  tmp_features <- SharedMLP.construct supervise_0 feature ;;
  sup <- to_supervised tmp_features ;;
  dec <- for_each (decoder_body self (f_stack enc) interp_idx) (seq 0 5)
                  (mkDec feature [] [] [sup]) ;;
  last_d <- py_nth (f_decoder_list dec) (-1) ;;
  scores <- fc_end self last_d ;;
  scores <- squeeze (-1) scores ;;
  Some (scores, multihot_labels enc, supervised_features dec, se_features_list dec).

End RandLANet.

(** ** Losses *)

Module WeightCEloss.

Record t : Type := mk {
  weights : tensor R;
  num_classes : nat
}.

Definition construct (self : t) (logits : tensor R) (labels : tensor Z) : option R :=
  swapped <- swapaxes (-2) (-1) logits ;;
  logit <- reshape [None; Some (num_classes self)] swapped ;;
  labels <- reshape [None] labels ;;
  let one_hot_labels := nn.OneHot (num_classes self) labels in
  weights <- tmap2 Rmult (weights self) one_hot_labels ;;
  weights <- P.ReduceSum false weights 1 ;;
  unweighted_loss <- nn.SoftmaxCrossEntropyWithLogits logit one_hot_labels ;;
  weighted_loss <- tmap2 Rmult unweighted_loss weights ;;
  CE_loss <- mean weighted_loss ;;
  Some CE_loss.

End WeightCEloss.

(** The operand of a [float32] operator: an [int32] tensor is refused. *)
Definition as_float32 (x : dtensor) : option (tensor R) :=
  match x with
  | TFloat32 t => Some t
  | TInt32 _ => None
  end.

Module Hloss.

(** [P.ReduceMean()(self.loss_fn(logits, label))]. *)
Definition term (logits : tensor R) (label : dtensor) : option R :=
  label <- as_float32 label ;;
  l <- P.SigmoidCrossEntropyWithLogits logits label ;;
  Some (P.ReduceMean l).

Definition construct (multihot_labels : list dtensor) (supervised_features : list (tensor R))
    : option R :=
  s0 <- nth_error supervised_features 0 ;;
  m5 <- nth_error multihot_labels 5 ;;
  h_loss <- term s0 m5 ;;
  s1 <- nth_error supervised_features 1 ;;
  m4 <- nth_error multihot_labels 4 ;;
  t1 <- term s1 m4 ;;
  let h_loss := (h_loss + t1)%R in
  s2 <- nth_error supervised_features 2 ;;
  m3 <- nth_error multihot_labels 3 ;;
  t2 <- term s2 m3 ;;
  let h_loss := (h_loss + t2)%R in
  s3 <- nth_error supervised_features 3 ;;
  m2 <- nth_error multihot_labels 2 ;;
  t3 <- term s3 m2 ;;
  let h_loss := (h_loss + t3)%R in
  let h_loss := (h_loss / 4)%R in
  Some h_loss.

End Hloss.

Module SEloss.

(** The target of a tensor of self-enhancement features:
    [P.cast(P.GreaterEqual()(se_features, 0.), ms.int32)]. *)
Definition target (se_features : tensor R) : tensor Z :=
  P.cast_bool_int32 (P.GreaterEqual se_features 0%R).

(** One pass of [for i in range(4)]. *)
Definition body (se_features_list : list (tensor R)) (i : nat)
    (self_enhance_loss : option R) : option (option R) :=
  se_features <- nth_error se_features_list i ;;
  let target_se_features := target se_features in
  l <- P.SigmoidCrossEntropyWithLogits
         (astype_float32 (TFloat32 se_features))
         (astype_float32 (TInt32 target_se_features)) ;;
  match self_enhance_loss with
  | None => Some (Some (P.ReduceMean l))
  | Some acc => Some (Some (acc + P.ReduceMean l)%R)
  end.

Definition construct (se_features_list : list (tensor R)) : option R :=
  self_enhance_loss <- for_each (body se_features_list) (seq 0 4) None ;;
  self_enhance_loss <- self_enhance_loss ;;
  Some (self_enhance_loss / 4)%R.

End SEloss.

(** ** [class RandLAWithLoss] *)

Module RandLAWithLoss.

(** The wrapped network: any cell called as
    [network(xyz, feature, neighbor_idx, sub_idx, interp_idx, labels)]. *)
Definition network_fn : Type :=
  list (tensor R) -> tensor R -> list (tensor Z) -> list (tensor Z) -> list (tensor Z)
  -> tensor Z -> option (tensor R * list dtensor * list (tensor R) * list (tensor R)).

Record t : Type := mk {
  ce_loss : WeightCEloss.t;
  network : network_fn;
  weights : tensor R;
  num_classes : nat
}.

Definition init (network : network_fn) (weights : tensor R) (num_classes : nat) : t :=
  mk (WeightCEloss.mk weights num_classes) network weights num_classes.

(** [print(CE_loss, h_loss, se_loss)] writes to the console and is left out. *)
Definition construct (self : t) (feature : tensor R) (labels input_inds cloud_inds : tensor Z)
    (p0 p1 p2 p3 p4 : tensor R)
    (n0 n1 n2 n3 n4 pl0 pl1 pl2 pl3 pl4 u0 u1 u2 u3 u4 : tensor Z) : option R :=
  let xyz := [p0; p1; p2; p3; p4] in
  let neighbor_idx := [n0; n1; n2; n3; n4] in
  let sub_idx := [pl0; pl1; pl2; pl3; pl4] in
  let interp_idx := [u0; u1; u2; u3; u4] in
  '(logits, multihot_labels, supervised_features, se_features_list) <-
     network self xyz feature neighbor_idx sub_idx interp_idx labels ;;
  CE_loss <- WeightCEloss.construct (ce_loss self) logits labels ;;
  h_loss <- Hloss.construct multihot_labels supervised_features ;;
  se_loss <- SEloss.construct se_features_list ;;
  let loss := (CE_loss + h_loss + se_loss)%R in
  Some loss.

End RandLAWithLoss.

(** ** [get_param_groups] *)

(** A framework [Parameter]: a named tensor. *)
Record param : Type := mkParam {
  name : String.string;
  value : tensor R
}.

(** One entry of the list handed to the optimizer: the dictionary
    [{'params': ..., 'weight_decay': ...}], whose second key may be absent. *)
Record param_group : Type := mkGroup {
  params : list param;
  weight_decay : option R
}.

(** [s.endswith(suffix)]. *)
Definition endswith (s suffix : String.string) : bool :=
  let n := String.length s in
  let m := String.length suffix in
  (m <=? n) && String.eqb (String.substring (n - m) m s) suffix.

(** One pass of [for x in network.trainable_params()]; the state is
    [(decay_params, no_decay_params)]. *)
Definition classify (st : list param * list param) (x : param)
    : list param * list param :=
  let '(decay_params, no_decay_params) := st in
  let parameter_name := name x in
  if endswith parameter_name ".bias"%string then (decay_params, no_decay_params ++ [x])
  else if endswith parameter_name ".gamma"%string then (decay_params, no_decay_params ++ [x])
  else if endswith parameter_name ".beta"%string then (decay_params, no_decay_params ++ [x])
  else (decay_params ++ [x], no_decay_params).

Definition get_param_groups (trainable_params : list param) : list param_group :=
  let '(decay_params, no_decay_params) := fold_left classify trainable_params ([], []) in
  [mkGroup no_decay_params (Some 0%R); mkGroup decay_params None].

(** ** Attentive pooling in [float32] arithmetic

    The classes above compute with real numbers.  [class AttentivePooling]
    and the layers it calls are written here once more over an element type
    with its arithmetic, so that they can be run in [binary32], the
    arithmetic of the program's [float32] tensors, where a sum is rounded
    after every addition. *)

(** The operations of an element type.  [a_sum] is the reduction of a kernel:
    the terms of a sum, accumulated in the order of the kernel. *)
Record arith (F : Type) : Type := mkArith {
  a_zero : F;
  a_add : F -> F -> F;
  a_sub : F -> F -> F;
  a_mul : F -> F -> F;
  a_div : F -> F -> F;
  a_sqrt : F -> F;
  a_exp : F -> F;
  a_leb : F -> F -> bool;
  a_sum : list F -> F;
  a_1e_6 : F;   (* the literal [1e-6] *)
  a_0_2 : F     (* the literal [0.2] *)
}.

Module Rounded.

Section Layers.

Context {F : Type} {dF : Dflt F} (ar : arith F).

Record mlp_params : Type := mkMlpParams {
  p_weight : nat -> nat -> F;
  p_bias : nat -> F;
  p_gamma : nat -> F;
  p_beta : nat -> F;
  p_stats : tensor F -> nat -> F * F
}.

Record pool_params : Type := mkPoolParams {
  score_weight : nat -> nat -> F;
  pool_mlp : mlp_params
}.

Definition bias_at (b : option (nat -> F)) (o : nat) : F :=
  match b with
  | Some f => f o
  | None => a_zero ar
  end.

Definition linear_on (a cin cout : nat) (w : nat -> nat -> F) (b : option (nat -> F))
    (x : tensor F) : tensor F :=
  build (replace_at a cout (shape x))
        (fun idx => a_add ar
                      (a_sum ar (map (fun i => a_mul ar (w (nth a idx 0) i)
                                                        (tget x (replace_at a i idx)))
                                     (seq 0 cin)))
                      (bias_at b (nth a idx 0))).

(** [nn.Dense(in_channels, out_channels, has_bias)]. *)
Definition Dense_construct (dense_in dense_out : nat) (w : nat -> nat -> F)
    (b : option (nat -> F)) (x : tensor F) : option (tensor F) :=
  _ <- guard (negb (rank x =? 0) && (last (shape x) 0 =? dense_in)) ;;
  Some (linear_on (rank x - 1) dense_in dense_out w b x).

(** [nn.Softmax(axis)]. *)
Definition Softmax (axis : Z) (x : tensor F) : option (tensor F) :=
  a <- norm_axis (rank x) axis ;;
  Some (build (shape x)
              (fun idx => a_div ar (a_exp ar (tget x idx))
                            (a_sum ar (map (fun k => a_exp ar (tget x (replace_at a k idx)))
                                           (seq 0 (nth a (shape x) 0)))))).

(** [P.ReduceSum(keep_dims)(x, axis)]. *)
Definition ReduceSum (keep_dims : bool) (x : tensor F) (axis : Z) : option (tensor F) :=
  a <- norm_axis (rank x) axis ;;
  Some (build (P.reduced_shape keep_dims a (shape x))
              (fun idx => a_sum ar (map (fun k => tget x (P.lane keep_dims a k idx))
                                        (seq 0 (nth a (shape x) 0))))).

(** [nn.Conv2d] with kernel size 1, stride 1 and pad mode 'valid'. *)
Definition Conv2d_construct (conv_in conv_out : nat) (w : nat -> nat -> F)
    (b : option (nat -> F)) (x : tensor F) : option (tensor F) :=
  _ <- guard ((rank x =? 4) && (nth 1 (shape x) 0 =? conv_in)
              && (0 <? nth 2 (shape x) 0) && (0 <? nth 3 (shape x) 0)) ;;
  Some (linear_on 1 conv_in conv_out w b x).

(** [nn.BatchNorm2d(num_features, eps, momentum)]. *)
Definition BatchNorm2d_construct (bn_features : nat) (bn_eps : F) (gamma beta : nat -> F)
    (stats : tensor F -> nat -> F * F) (x : tensor F) : option (tensor F) :=
  _ <- guard ((rank x =? 4) && (nth 1 (shape x) 0 =? bn_features)) ;;
  Some (build (shape x)
              (fun idx => let c := nth 1 idx 0 in
                          let '(mean, var) := stats x c in
                          a_add ar
                            (a_mul ar (gamma c)
                                   (a_div ar (a_sub ar (tget x idx) mean)
                                          (a_sqrt ar (a_add ar var bn_eps))))
                            (beta c))).

(** [nn.LeakyReLU(alpha)]. *)
Definition LeakyReLU (alpha : F) (x : tensor F) : tensor F :=
  tmap (fun v => if a_leb ar (a_zero ar) v then v else a_mul ar alpha v) x.

(** [SharedMLP(in_channels, out_channels, transpose, bn, activation_fn, bias)],
    the constructor and [construct] in one. *)
Definition SharedMLP_construct (in_channels out_channels : nat) (bn : bool)
    (activation_fn : option F) (bias : bool) (p : mlp_params) (x : tensor F)
    : option (tensor F) :=
  x <- Conv2d_construct in_channels out_channels (p_weight p)
                        (if bias then Some (p_bias p) else None) x ;;
  x <- (if bn then BatchNorm2d_construct out_channels (a_1e_6 ar) (p_gamma p) (p_beta p)
                                         (p_stats p) x
        else Some x) ;;
  Some (match activation_fn with
        | Some alpha => LeakyReLU alpha x
        | None => x
        end).

(** [AttentivePooling.score_fn]: a dense layer without bias, then
    [nn.Softmax(-2)]. *)
Definition score_fn (in_channels : nat) (p : pool_params) (x : tensor F)
    : option (tensor F) :=
  y <- Dense_construct in_channels in_channels (score_weight p) None x ;;
  Softmax (-2) y.

(** The attention scores, in the layout of [x]. *)
Definition scores (in_channels : nat) (p : pool_params) (x : tensor F)
    : option (tensor F) :=
  xt <- transpose [0; 2; 3; 1] x ;;
  s <- score_fn in_channels p xt ;;
  transpose [0; 3; 1; 2] s.

(** [AttentivePooling(in_channels, out_channels, bias).construct(x)]. *)
Definition construct (in_channels out_channels : nat) (bias : bool) (p : pool_params)
    (x : tensor F) : option (tensor F) :=
  scores <- scores in_channels p x ;;
  features <- tmap2 (a_mul ar) scores x ;;
  features <- ReduceSum true features (-1) ;;
  SharedMLP_construct in_channels out_channels true (Some (a_0_2 ar)) bias (pool_mlp p)
                      features.

End Layers.

End Rounded.

(** The order in which a sum of several terms is accumulated: from the first
    term on, from the last term on, or in adjacent pairs. *)
Definition sum_left {F} (add : F -> F -> F) (zero : F) (l : list F) : F :=
  fold_left add l zero.

Definition sum_right {F} (add : F -> F -> F) (zero : F) (l : list F) : F :=
  fold_right add zero l.

Fixpoint add_pairs {F} (add : F -> F -> F) (l : list F) : list F :=
  match l with
  | x :: y :: l' => add x y :: add_pairs add l'
  | _ => l
  end.

Fixpoint sum_pairs_from {F} (add : F -> F -> F) (zero : F) (rounds : nat) (l : list F) : F :=
  match l, rounds with
  | [], _ => zero
  | [x], _ => x
  | _, S rounds' => sum_pairs_from add zero rounds' (add_pairs add l)
  | x :: _, 0 => x
  end.

Definition sum_pairs {F} (add : F -> F -> F) (zero : F) (l : list F) : F :=
  sum_pairs_from add zero (length l) l.

(** Exact arithmetic: the element type of the classes above. *)
Definition exact : arith R :=
  mkArith 0%R Rplus Rminus Rmult Rdiv sqrt exp
          (fun x y => if Rle_dec x y then true else false)
          Rsum 1e-6%R 0.2%R.

Definition exact_mlp_params (p : mlp_params) : Rounded.mlp_params (F := R) :=
  Rounded.mkMlpParams (p_weight p) (p_bias p) (p_gamma p) (p_beta p) (p_stats p).

Definition exact_pool_params (p : pool_params) : Rounded.pool_params (F := R) :=
  Rounded.mkPoolParams (score_weight p) (exact_mlp_params (pool_mlp p)).

(** [binary32]: precision 24, exponents below 128; every operation is
    rounded to nearest, ties to even. *)
Definition float32 : Type := spec_float.

#[export] Instance Dflt_float32 : Dflt float32 := S754_zero false.

Definition f32_of_Z (z : Z) : float32 := binary_normalize 24 128 z 0 false.

(** The real number a finite [binary32] value stands for. *)
Definition f32_to_R (x : float32) : R :=
  match x with
  | S754_finite s m e => (IZR (if s then Z.neg m else Z.pos m) * powerRZ 2 e)%R
  | _ => 0%R
  end.

(** The framework's exponential and the accumulation order of its kernels
    are left open. *)
Definition binary32 (exp : float32 -> float32)
    (sum : (float32 -> float32 -> float32) -> float32 -> list float32 -> float32)
    : arith float32 :=
  mkArith (f32_of_Z 0) (SFadd 24 128) (SFsub 24 128) (SFmul 24 128) (SFdiv 24 128)
          (SFsqrt 24 128) exp SFleb
          (sum (SFadd 24 128) (f32_of_Z 0))
          (SFdiv 24 128 (f32_of_Z 1) (f32_of_Z 1000000))
          (SFdiv 24 128 (f32_of_Z 1) (f32_of_Z 5)).

(** * Definitions used to state the properties *)

(** ** Well-shaped arguments *)

(** An index into an axis of size [n]. *)
Definition in_range (n : nat) (i : Z) : Prop := (0 <= i < Z.of_nat n)%Z.

(** The shape of a tensor of either element type. *)
Definition dshape (x : dtensor) : list nat :=
  match x with
  | TInt32 t => shape t
  | TFloat32 t => shape t
  end.

(** Its buffer has the size of its shape. *)
Definition dwf (x : dtensor) : Prop :=
  match x with
  | TInt32 t => wf t
  | TFloat32 t => wf t
  end.

(** What the inputs of one level must satisfy: the shapes of the
    coordinates, neighbour, pooling and interpolation indices of a level with
    [N] points that is pooled to [N'] points, and indices in range. *)
Definition level_ok (B N N' K Ks Ku : nat) (xyz_i : tensor R)
    (neighbor_idx_i sub_idx_i interp_idx_i : tensor Z) : Prop :=
  has_shape xyz_i [B; N; 3]
  /\ has_shape neighbor_idx_i [B; N; K] /\ Forall (in_range N) (data neighbor_idx_i)
  /\ has_shape sub_idx_i [B; N'; Ks] /\ Forall (in_range N) (data sub_idx_i)
  /\ has_shape interp_idx_i [B; N; Ku] /\ Forall (in_range N') (data interp_idx_i)
  /\ 0 < N /\ 0 < N' /\ 0 < K /\ 0 < Ks /\ 0 < Ku.

(** ** Parameter groups *)

(** The names that take no weight decay. *)
Definition no_decay_name (x : param) : bool :=
  endswith (name x) ".bias"%string
  || endswith (name x) ".gamma"%string
  || endswith (name x) ".beta"%string.

(** The three suffixes that exempt a parameter from weight decay. *)
Definition no_decay_suffixes : list String.string :=
  [".bias"%string; ".gamma"%string; ".beta"%string].

(** ** Losses *)

(** The mean over all elements of the sigmoid cross-entropy with logits. *)
Definition mean_sigmoid_ce (logits label : tensor R) : R :=
  Rmean (zipWith P.sigmoid_ce (data logits) (data label)).

(** The elementwise indicator of [x >= 0], as a [float32] tensor. *)
Definition indicator_ge0 (x : tensor R) : tensor R :=
  tmap (fun v => if Rle_dec 0 v then 1%R else 0%R) x.

(** The [C] logits of point [n] of batch element [b], from logits of shape
    [(B, C, N)]. *)
Definition logit_row (logits : tensor R) (C b n : nat) : list R :=
  map (fun c => tget logits [b; c; n]) (seq 0 C).

(** The one-hot encoding of a label over [C] classes. *)
Definition one_hot_row (C : nat) (label : Z) : list R :=
  map (fun c => if (label =? Z.of_nat c)%Z then 1%R else 0%R) (seq 0 C).

(** The weight the loss selects for a label: the sum over the classes of
    the class weight times the one-hot encoding of the label. *)
Definition selected_weight (weights : tensor R) (C : nat) (label : Z) : R :=
  Rsum (map (fun c => (tget weights [c] * (if (label =? Z.of_nat c)%Z then 1 else 0))%R)
            (seq 0 C)).

(** The loss of one point: the softmax cross-entropy of its logits against
    the one-hot encoding of its label, times the weight selected for that
    label. *)
Definition point_loss (weights logits : tensor R) (labels : tensor Z) (C b n : nat) : R :=
  (nn.softmax_ce_row (logit_row logits C b n) (one_hot_row C (tget labels [b; n]))
   * selected_weight weights C (tget labels [b; n]))%R.

(** The mean of the point losses over the [B * N] points. *)
Definition weighted_ce_mean (weights logits : tensor R) (labels : tensor Z) (B C N : nat) : R :=
  Rmean (flat_map (fun b => map (fun n => point_loss weights logits labels C b n) (seq 0 N))
                  (seq 0 B)).

(** ** Attentive pooling *)

(** The output of the bias-free dense layer of the score function at batch
    element [b], point [n], neighbour [k] and channel [c]. *)
Definition attention_logit (w : nat -> nat -> R) (x : tensor R) (d_in b n k c : nat) : R :=
  Rsum (map (fun i => (w c i * tget x [b; i; n; k])%R) (seq 0 d_in)).

(** The softmax of the logits over the [K] neighbours. *)
Definition attention_score (w : nat -> nat -> R) (x : tensor R) (d_in K b c n k : nat) : R :=
  (exp (attention_logit w x d_in b n k c)
   / Rsum (map (fun j => exp (attention_logit w x d_in b n j c)) (seq 0 K)))%R.

(** The last axis of [t] rearranged: position [k] of the result holds
    position [sigma[k]] of [t]. *)
Definition permute_last {A} `{Dflt A} (sigma : list nat) (t : tensor A) : tensor A :=
  build (shape t) (fun idx => tget t (removelast idx ++ [nth (last idx 0) sigma 0])).

(** ** Multi-hot labels *)

(** A value that is 0 or 1. *)
Definition binary (r : R) : Prop := r = 0%R \/ r = 1%R.

(** A tensor of either element type all of whose entries are 0 or 1. *)
Definition binary_dtensor (x : dtensor) : Prop :=
  match x with
  | TInt32 t => Forall (fun z => z = 0%Z \/ z = 1%Z) (data t)
  | TFloat32 t => Forall binary (data t)
  end.

(** ** The encoder-decoder, stage by stage *)

(** One encoder stage: a [LocalFeatureAggregation] followed by the
    downsampling of its output with the pooling indices of the stage. *)
Definition encoder_stage (cell : LocalFeatureAggregation.t) (xyz_i : tensor R)
    (neighbor_idx_i sub_idx_i : tensor Z) (feature : tensor R)
    : option (tensor R * tensor R) :=
  f_encoder <- LocalFeatureAggregation.construct cell xyz_i feature neighbor_idx_i ;;
  f_sampled <- RandLANet.random_sample f_encoder sub_idx_i ;;
  Some (f_encoder, f_sampled).

(** One decoder stage: the upsampling of the feature with the interpolation
    indices, the concatenation of the skip feature before it along the
    channel axis, and the decoder MLP. *)
Definition decoder_stage (cell : SharedMLP.t) (interp_idx_i : tensor Z)
    (skip feature : tensor R) : option (tensor R) :=
  f_interp <- RandLANet.random_sample feature interp_idx_i ;;
  c <- P.Concat 1 [skip; f_interp] ;;
  SharedMLP.construct cell c.

(** The scores of a hierarchical encoder-decoder with five stages each way:
    the stem, five encoder stages, the bottleneck MLP, five decoder stages
    that take the interpolation indices from the coarsest level up and the
    skip features [s3, s2, s1, s0, e0] (that is [f_stack[-j-2]] of
    [f_stack = [e0, s0, s1, s2, s3, s4]]), and the head. *)
Definition encoder_decoder (self : RandLANet.t) (feature : tensor R)
    (p0 p1 p2 p3 p4 : tensor R)
    (n0 n1 n2 n3 n4 pl0 pl1 pl2 pl3 pl4 u0 u1 u2 u3 u4 : tensor Z) : option (tensor R) :=
  match RandLANet.encoder self, RandLANet.decoder self with
  | [E0; E1; E2; E3; E4], [D0; D1; D2; D3; D4] =>
      f <- RandLANet.stem self feature ;;
      '(e0, s0) <- encoder_stage E0 p0 n0 pl0 f ;;
      '(e1, s1) <- encoder_stage E1 p1 n1 pl1 s0 ;;
      '(e2, s2) <- encoder_stage E2 p2 n2 pl2 s1 ;;
      '(e3, s3) <- encoder_stage E3 p3 n3 pl3 s2 ;;
      '(e4, s4) <- encoder_stage E4 p4 n4 pl4 s3 ;;
      d <- SharedMLP.construct (RandLANet.mlp self) s4 ;;
      d <- decoder_stage D0 u4 s3 d ;;
      d <- decoder_stage D1 u3 s2 d ;;
      d <- decoder_stage D2 u2 s1 d ;;
      d <- decoder_stage D3 u1 s0 d ;;
      d <- decoder_stage D4 u0 e0 d ;;
      scores <- RandLANet.fc_end self d ;;
      squeeze (-1) scores
  | _, _ => None
  end.

(** ** Neighbourhoods *)

(** The point that [idx] names as the [k]-th neighbour of point [n]. *)
Definition neighbour_of (idx : tensor Z) (b n k : nat) : nat :=
  Z.to_nat (tget idx [b; n; k]).

(** Coordinate [j] of point [n] relative to its [k]-th neighbour. *)
Definition relative_coord (coords : tensor R) (idx : tensor Z) (b n k j : nat) : R :=
  (tget coords [b; n; j] - tget coords [b; neighbour_of idx b n k; j])%R.

(** The greatest value of [f] over the [K] points that [idx] lists for
    point [n] of batch element [b], channel by channel. *)
Definition neighbour_max (f : nat -> nat -> nat -> R) (idx : tensor Z) (K : nat)
    (b n c : nat) : R :=
  Rmaximum (map (fun k => f b (neighbour_of idx b n k) c) (seq 0 K)).

(** [t] holds the labels [label] pooled by one encoder level to [N'] points:
    entry (b, p, c) is the greatest label of channel [c] over the candidates
    of the pooled point [p], their neighbours and the neighbours of these. *)
Definition pooled_from (label : dtensor) (neighbor_idx sub_idx : tensor Z)
    (B N' K Ks : nat) (t : tensor R) : Prop :=
  has_shape t [B; N'; 13]
  /\ forall b p c, b < B -> p < N' -> c < 13 ->
       tget t [b; p; c]
       = neighbour_max
           (neighbour_max
              (neighbour_max (fun b n c => tget (astype_float32 label) [b; n; c])
                             neighbor_idx K)
              neighbor_idx K)
           sub_idx Ks b p c.

(** ** Data for the worked examples *)

(** Parameters with every kernel entry 1, no shift, unit scale, and
    statistics of mean 0 and variance 1. *)
Definition unit_mlp_params : mlp_params :=
  mkMlpParams (fun _ _ => 1%R) (fun _ => 0%R) (fun _ => 1%R) (fun _ => 0%R)
              (fun _ _ => (0%R, 1%R)).

Definition unit_pool_params : pool_params :=
  mkPoolParams (fun _ _ => 1%R) unit_mlp_params.

Definition unit_lfa_params : lfa_params :=
  mkLfaParams unit_mlp_params unit_mlp_params unit_mlp_params unit_mlp_params
              unit_mlp_params unit_pool_params unit_pool_params.

Definition unit_net_params : net_params :=
  mkNetParams (fun _ _ => 1%R) (fun _ => 0%R) (fun _ => 1%R) (fun _ => 0%R)
              (fun _ _ => (0%R, 1%R)) (fun _ => unit_lfa_params) unit_mlp_params
              (fun _ => unit_mlp_params) (fun _ => unit_mlp_params)
              (fun _ => unit_mlp_params) (fun _ => unit_mlp_params) (fun _ => 1%R).

(** Supervised features and labels of one element. *)
Definition example_zero : tensor R := mkTensor [1] [0%R].

Definition example_one : tensor R := mkTensor [1] [1%R].

Definition example_int_label : tensor Z := mkTensor [1] [1%Z].

(** One point with two classes, of the second class. *)
Definition example_weights : tensor R := mkTensor [2] [1; 2]%R.

Definition example_logits : tensor R := mkTensor [1; 2; 1] [0; 0]%R.

Definition example_labels : tensor Z := mkTensor [1; 1] [1%Z].

(** One point with two neighbours and one channel. *)
Definition example_x : tensor R := mkTensor [1; 1; 1; 2] [0; 1]%R.

(** Three points with one channel, pooled to two points from two
    candidates each. *)
Definition example_feature : tensor R := mkTensor [1; 1; 3; 1] [5; 7; 6]%R.

Definition example_pool_idx : tensor Z := mkTensor [1; 2; 2] [0; 1; 2; 0]%Z.

(** A cloud of one point with one neighbour at every level. *)
Definition one_point_xyz : tensor R := mkTensor [1; 1; 3] [0; 0; 0]%R.

Definition one_point_idx : tensor Z := mkTensor [1; 1; 1] [0%Z].

Definition one_point_feature : tensor R := mkTensor [1; 1; 1] [0%R].

Definition one_point_labels : tensor Z := mkTensor [1; 1] [0%Z].

(** Two points interpolated from three, one source point each. *)
Definition example_interp_idx : tensor Z := mkTensor [1; 2; 1] [2; 0]%Z.

(** A label outside the two classes. *)
Definition example_ignored_labels : tensor Z := mkTensor [1; 1] [(-1)%Z].

(** One point with one channel, in the layout [(B, d, N, 1)]. *)
Definition one_point_channels : tensor R := mkTensor [1; 1; 1; 1] [0%R].

(** The multi-hot label of one point of the first of the thirteen classes. *)
Definition one_point_multihot : tensor Z :=
  mkTensor [1; 1; 13] [1; 0; 0; 0; 0; 0; 0; 0; 0; 0; 0; 0; 0]%Z.

(** Thirteen supervision channels of one point. *)
Definition one_point_supervised : tensor R :=
  mkTensor [1; 13; 1; 1] [0; 0; 0; 0; 0; 0; 0; 0; 0; 0; 0; 0; 0]%R.

(** Attentive pooling in [binary32]: one channel, a score layer of weight 0,
    so that every neighbour gets the same score, and an output [SharedMLP]
    of weight 1 with the initial statistics of its batch normalisation. *)
Definition f32_unit_mlp_params : Rounded.mlp_params (F := float32) :=
  Rounded.mkMlpParams (fun _ _ => f32_of_Z 1) (fun _ => f32_of_Z 0)
                      (fun _ => f32_of_Z 1) (fun _ => f32_of_Z 0)
                      (fun _ _ => (f32_of_Z 0, f32_of_Z 1)).

Definition f32_even_pool_params : Rounded.pool_params (F := float32) :=
  Rounded.mkPoolParams (fun _ _ => f32_of_Z 0) f32_unit_mlp_params.

(** One point with three neighbours. *)
Definition f32_three_neighbours : tensor float32 :=
  mkTensor [1; 1; 1; 3] [f32_of_Z 1; f32_of_Z 2; f32_of_Z 3].

(** One point with four neighbours, two of which cancel. *)
Definition f32_cancelling_neighbours : tensor float32 :=
  mkTensor [1; 1; 1; 4] [f32_of_Z (2 ^ 27); f32_of_Z (- 2 ^ 27); f32_of_Z 4; f32_of_Z 0].

Definition accumulation_orders
    : list ((float32 -> float32 -> float32) -> float32 -> list float32 -> float32) :=
  [sum_left (F := float32); sum_right (F := float32); sum_pairs (F := float32)].

(** * Properties *)

(** ** The error monad *)

Lemma bind_Some {A B} (m : option A) (f : A -> option B) (b : B) :
  bind m f = Some b -> exists a, m = Some a /\ f a = Some b.
Proof.
  destruct m as [a|]; simpl; intros E; [exists a; auto | discriminate].
Qed.

Lemma guard_true (b : bool) : b = true -> guard b = Some tt.
Proof. intros ->; reflexivity. Qed.

(** One step of a computation whose result [E] gives. *)
Ltac step E := rewrite E; cbn [bind].

(** ** Multi-indices and the row-major layout *)

Lemma length_indices (sh : list nat) : length (indices sh) = prod sh.
Proof.
  induction sh as [|n sh IH]; simpl; [reflexivity|].
  generalize 0 as a.
  induction n as [|n IHn]; intros a; simpl; [reflexivity|].
  rewrite length_app, length_map, IH, IHn. reflexivity.
Qed.

Lemma In_indices (sh idx : list nat) : In idx (indices sh) <-> in_bounds sh idx.
Proof.
  revert idx; induction sh as [|n sh IH]; intros idx; simpl.
  - destruct idx; simpl; intuition congruence.
  - rewrite in_flat_map. split.
    + intros (i & Hi & Hin). apply in_map_iff in Hin as (idx' & <- & Hin').
      apply in_seq in Hi. split; [lia | now apply IH].
    + destruct idx as [|i idx']; [tauto|]. intros [Hi Hb].
      exists i. split; [apply in_seq; lia|].
      apply in_map. now apply IH.
Qed.

Lemma in_bounds_length (sh idx : list nat) : in_bounds sh idx -> length idx = length sh.
Proof.
  revert idx; induction sh as [|n sh IH]; intros [|i idx]; simpl; try tauto.
  intros [_ H]. now rewrite (IH idx).
Qed.

Lemma ravel_lt (sh idx : list nat) : in_bounds sh idx -> ravel sh idx < prod sh.
Proof.
  revert idx; induction sh as [|n sh IH]; intros [|i idx]; simpl; try tauto; try lia.
  intros [Hi Hb]. specialize (IH _ Hb). nia.
Qed.

Lemma nth_blocks {X} (g : nat -> list X) (p : nat) (d : X) :
  (forall i, length (g i) = p) ->
  forall n a i r, i < n -> r < p ->
    nth (i * p + r) (flat_map g (seq a n)) d = nth r (g (a + i)) d.
Proof.
  intros Hg. induction n as [|n IH]; intros a i r Hi Hr; [lia|].
  simpl. destruct i as [|i].
  - simpl. rewrite app_nth1 by (rewrite Hg; lia). now rewrite Nat.add_0_r.
  - rewrite app_nth2 by (rewrite Hg; nia).
    rewrite Hg. replace (S i * p + r - p) with (i * p + r) by nia.
    rewrite IH by lia. f_equal. f_equal. lia.
Qed.

Lemma nth_ravel_indices (sh idx d : list nat) :
  in_bounds sh idx -> nth (ravel sh idx) (indices sh) d = idx.
Proof.
  revert idx; induction sh as [|n sh IH]; intros [|i idx]; simpl; try tauto.
  intros [Hi Hb].
  rewrite (nth_blocks (fun i => map (cons i) (indices sh)) (p := prod sh)).
  - simpl. rewrite (nth_indep _ d (i :: d)).
    + rewrite map_nth. now rewrite IH.
    + rewrite length_map, length_indices. now apply ravel_lt.
  - intros j. now rewrite length_map, length_indices.
  - exact Hi.
  - now apply ravel_lt.
Qed.

(** ** [build] and [tget] *)

Lemma wf_build {A} (sh : list nat) (f : list nat -> A) : wf (build sh f).
Proof. unfold wf, build; simpl. now rewrite length_map, length_indices. Qed.

Lemma has_shape_build {A} (sh : list nat) (f : list nat -> A) : has_shape (build sh f) sh.
Proof. split; [apply wf_build | reflexivity]. Qed.

Lemma tget_build {A} `{Dflt A} (sh : list nat) (f : list nat -> A) (idx : list nat) :
  in_bounds sh idx -> tget (build sh f) idx = f idx.
Proof.
  intros Hb. unfold tget, build; simpl.
  rewrite (nth_indep _ dflt (f [])).
  - rewrite map_nth. now rewrite nth_ravel_indices.
  - rewrite length_map, length_indices. now apply ravel_lt.
Qed.

Lemma build_ext {A} (sh : list nat) (f g : list nat -> A) :
  (forall idx, in_bounds sh idx -> f idx = g idx) -> build sh f = build sh g.
Proof.
  intros E. unfold build. f_equal. apply map_ext_in.
  intros idx Hin. apply E. now apply In_indices.
Qed.

Lemma tget_In {A} `{Dflt A} (t : tensor A) (idx : list nat) :
  wf t -> in_bounds (shape t) idx -> In (tget t idx) (data t).
Proof.
  intros Hwf Hb. unfold tget. apply nth_In. rewrite Hwf. now apply ravel_lt.
Qed.

Lemma Forall_build {A} (Q : A -> Prop) (sh : list nat) (f : list nat -> A) :
  (forall idx, in_bounds sh idx -> Q (f idx)) -> Forall Q (data (build sh f)).
Proof.
  intros Hf. unfold build; simpl. apply Forall_forall. intros x Hx.
  apply in_map_iff in Hx as (idx & <- & Hin). apply Hf. now apply In_indices.
Qed.

Lemma Forall_tget {A} `{Dflt A} (Q : A -> Prop) (t : tensor A) (idx : list nat) :
  wf t -> Forall Q (data t) -> in_bounds (shape t) idx -> Q (tget t idx).
Proof.
  intros Hwf HQ Hb. rewrite Forall_forall in HQ. apply HQ. now apply tget_In.
Qed.

Lemma shape_eqb_refl (s : list nat) : shape_eqb s s = true.
Proof. induction s as [|n s IH]; simpl; [reflexivity|]. now rewrite Nat.eqb_refl. Qed.

Lemma shape_eqb_eq (s1 s2 : list nat) : shape_eqb s1 s2 = true <-> s1 = s2.
Proof.
  split; [|intros ->; apply shape_eqb_refl].
  revert s2; induction s1 as [|n s1 IH]; intros [|m s2]; simpl; try congruence.
  intros E. apply andb_prop in E as [E1 E2].
  apply Nat.eqb_eq in E1. now rewrite E1, (IH _ E2).
Qed.

(** ** Parameter groups *)

Lemma classify_spec (st : list param * list param) (x : param) :
  classify st x =
  if no_decay_name x then (fst st, snd st ++ [x]) else (fst st ++ [x], snd st).
Proof.
  destruct st as [d nd]. unfold classify, no_decay_name; simpl.
  destruct (endswith (name x) ".bias"%string); simpl; [reflexivity|].
  destruct (endswith (name x) ".gamma"%string); simpl; [reflexivity|].
  destruct (endswith (name x) ".beta"%string); reflexivity.
Qed.

Lemma fold_classify (l : list param) (d nd : list param) :
  fold_left classify l (d, nd) =
  (d ++ filter (fun x => negb (no_decay_name x)) l, nd ++ filter no_decay_name l).
Proof.
  revert d nd; induction l as [|x l IH]; intros d nd; cbn [fold_left filter].
  - now rewrite !app_nil_r.
  - rewrite classify_spec; simpl.
    destruct (no_decay_name x); simpl; rewrite IH, <- app_assoc; reflexivity.
Qed.

Lemma filter_partition_perm {X} (f : X -> bool) (l : list X) :
  Permutation (filter f l ++ filter (fun x => negb (f x)) l) l.
Proof.
  induction l as [|x l IH]; simpl; [constructor|].
  destruct (f x); simpl.
  - now constructor.
  - symmetry. apply Permutation_cons_app. now symmetry.
Qed.

(** C10: [get_param_groups] returns two groups that partition the trainable
    parameters: the first holds exactly the parameters whose name ends with
    '.bias', '.gamma' or '.beta' and carries weight_decay 0.0, the second
    holds all the others and carries no weight_decay; together they are a
    rearrangement of the parameter list, so none is dropped or duplicated, and
    every parameter of the list is in one group and not in the other. *)
Theorem C10_param_groups_partition (trainable_params : list param) :
  exists no_decay decay,
    get_param_groups trainable_params
      = [mkGroup no_decay (Some 0%R); mkGroup decay None]
    /\ no_decay = filter no_decay_name trainable_params
    /\ decay = filter (fun x => negb (no_decay_name x)) trainable_params
    /\ Permutation (no_decay ++ decay) trainable_params
    /\ (forall x, In x trainable_params ->
          (no_decay_name x = true /\ In x no_decay /\ ~ In x decay)
          \/ (no_decay_name x = false /\ In x decay /\ ~ In x no_decay)).
Proof.
  exists (filter no_decay_name trainable_params),
         (filter (fun x => negb (no_decay_name x)) trainable_params).
  split; [|split; [reflexivity|split; [reflexivity|split]]].
  - unfold get_param_groups. rewrite fold_classify. reflexivity.
  - apply filter_partition_perm.
  - intros x Hin. destruct (no_decay_name x) eqn:E; [left|right].
    + repeat split; [apply filter_In; auto|].
      intros H'. apply filter_In in H' as [_ H']. rewrite E in H'. discriminate.
    + repeat split; [apply filter_In; rewrite E; auto|].
      intros H'. apply filter_In in H' as [_ H']. congruence.
Qed.

(** ** The total loss *)

(** C1: the loss [RandLAWithLoss.construct] returns is the sum of three
    terms, the weighted cross-entropy of the logits and the labels, the
    hierarchical loss of the multi-hot labels and supervised features, and
    the self-enhancement loss of the self-enhancement features; it returns a
    loss exactly when the network and the three losses return. *)
Theorem C1_total_loss_is_sum (network : RandLAWithLoss.network_fn) (weights : tensor R)
    (num_classes : nat) (feature : tensor R) (labels input_inds cloud_inds : tensor Z)
    (p0 p1 p2 p3 p4 : tensor R)
    (n0 n1 n2 n3 n4 pl0 pl1 pl2 pl3 pl4 u0 u1 u2 u3 u4 : tensor Z) (loss : R) :
  RandLAWithLoss.construct (RandLAWithLoss.init network weights num_classes)
    feature labels input_inds cloud_inds p0 p1 p2 p3 p4 n0 n1 n2 n3 n4
    pl0 pl1 pl2 pl3 pl4 u0 u1 u2 u3 u4 = Some loss
  <->
  exists logits multihot_labels supervised_features se_features_list CE_loss h_loss se_loss,
    network [p0; p1; p2; p3; p4] feature [n0; n1; n2; n3; n4] [pl0; pl1; pl2; pl3; pl4]
            [u0; u1; u2; u3; u4] labels
      = Some (logits, multihot_labels, supervised_features, se_features_list)
    /\ WeightCEloss.construct (WeightCEloss.mk weights num_classes) logits labels
       = Some CE_loss
    /\ Hloss.construct multihot_labels supervised_features = Some h_loss
    /\ SEloss.construct se_features_list = Some se_loss
    /\ loss = (CE_loss + h_loss + se_loss)%R.
Proof.
  unfold RandLAWithLoss.construct, RandLAWithLoss.init; simpl. split.
  - intros E.
    apply bind_Some in E as ([[[logits mh] sf] se] & En & E).
    apply bind_Some in E as (ce & Ece & E).
    apply bind_Some in E as (h & Eh & E).
    apply bind_Some in E as (s & Es & E).
    injection E as <-.
    exists logits, mh, sf, se, ce, h, s. auto.
  - intros (logits & mh & sf & se & ce & h & s & En & Ece & Eh & Es & ->).
    rewrite En; simpl. rewrite Ece; simpl. rewrite Eh; simpl. rewrite Es; simpl.
    reflexivity.
Qed.

(** ** The hierarchical and the self-enhancement loss *)

Lemma Hloss_term_float (logits label : tensor R) :
  shape logits = shape label ->
  Hloss.term logits (TFloat32 label) = Some (mean_sigmoid_ce logits label).
Proof.
  intros E. unfold Hloss.term, P.SigmoidCrossEntropyWithLogits; simpl.
  rewrite E, shape_eqb_refl; simpl. reflexivity.
Qed.

(** C3: on the six supervised features and six multi-hot labels of the
    network, [Hloss.construct] returns the arithmetic mean of four terms, term
    k being the mean sigmoid cross-entropy with logits of
    supervised_features[k] against multihot_labels[5-k] for k = 0..3;
    supervised_features[4] and supervised_features[5] do not contribute. *)
Theorem C3_Hloss_mean_of_four (l0 l1 : dtensor) (m2 m3 m4 m5 : tensor R)
    (s0 s1 s2 s3 s4 s5 : tensor R) :
  shape s0 = shape m5 -> shape s1 = shape m4 ->
  shape s2 = shape m3 -> shape s3 = shape m2 ->
  let multihot_labels := [l0; l1; TFloat32 m2; TFloat32 m3; TFloat32 m4; TFloat32 m5] in
  Hloss.construct multihot_labels [s0; s1; s2; s3; s4; s5]
    = Some ((mean_sigmoid_ce s0 m5 + mean_sigmoid_ce s1 m4
             + mean_sigmoid_ce s2 m3 + mean_sigmoid_ce s3 m2) / 4)%R
  /\ forall s4' s5' : tensor R,
       Hloss.construct multihot_labels [s0; s1; s2; s3; s4'; s5']
       = Hloss.construct multihot_labels [s0; s1; s2; s3; s4; s5].
Proof.
  intros E0 E1 E2 E3 mh. split; [|reflexivity].
  unfold Hloss.construct, mh; simpl.
  rewrite (Hloss_term_float _ _ E0); simpl.
  rewrite (Hloss_term_float _ _ E1); simpl.
  rewrite (Hloss_term_float _ _ E2); simpl.
  rewrite (Hloss_term_float _ _ E3); simpl.
  reflexivity.
Qed.

Lemma C3_Hloss_witness :
  Hloss.construct
    [TInt32 example_int_label; TFloat32 example_one; TFloat32 example_one;
     TFloat32 example_zero; TFloat32 example_one; TFloat32 example_zero]
    [example_zero; example_one; example_zero; example_one; example_zero; example_one]
  = Some ((mean_sigmoid_ce example_zero example_zero
           + mean_sigmoid_ce example_one example_one
           + mean_sigmoid_ce example_zero example_zero
           + mean_sigmoid_ce example_one example_one) / 4)%R
  /\ forall s4' s5' : tensor R,
       Hloss.construct
         [TInt32 example_int_label; TFloat32 example_one; TFloat32 example_one;
          TFloat32 example_zero; TFloat32 example_one; TFloat32 example_zero]
         [example_zero; example_one; example_zero; example_one; s4'; s5']
       = Hloss.construct
           [TInt32 example_int_label; TFloat32 example_one; TFloat32 example_one;
            TFloat32 example_zero; TFloat32 example_one; TFloat32 example_zero]
           [example_zero; example_one; example_zero; example_one; example_zero; example_one].
Proof.
  apply (@C3_Hloss_mean_of_four (TInt32 example_int_label) (TFloat32 example_one)
           example_one example_zero example_one example_zero
           example_zero example_one example_zero example_one example_zero example_one);
    reflexivity.
Defined.

Lemma SEloss_body_step (l : list (tensor R)) (i : nat) (x : tensor R) (acc : option R) :
  nth_error l i = Some x ->
  SEloss.body l i acc =
  Some (Some (match acc with
              | None => mean_sigmoid_ce x (indicator_ge0 x)
              | Some a => (a + mean_sigmoid_ce x (indicator_ge0 x))%R
              end)).
Proof.
  intros E. unfold SEloss.body. rewrite E; simpl.
  unfold P.SigmoidCrossEntropyWithLogits; simpl. rewrite shape_eqb_refl; simpl.
  assert (Em : P.ReduceMean
                 (mkTensor (shape x)
                    (zipWith P.sigmoid_ce (data x)
                       (map IZR (map (fun b : bool => if b then 1%Z else 0%Z)
                          (map (fun v => if Rle_dec 0 v then true else false) (data x))))))
               = mean_sigmoid_ce x (indicator_ge0 x)).
  { unfold P.ReduceMean, mean_sigmoid_ce, indicator_ge0; simpl.
    rewrite !map_map. do 2 f_equal. apply map_ext. intros v.
    destruct (Rle_dec 0 v); reflexivity. }
  rewrite Em. destruct acc; reflexivity.
Qed.

(** C4: on four self-enhancement feature tensors [SEloss.construct] returns
    the arithmetic mean, over the four, of the mean sigmoid cross-entropy with
    logits of each tensor against the elementwise indicator of that tensor
    being >= 0; the loss is a function of the list alone. *)
Theorem C4_SEloss_mean_of_four (t0 t1 t2 t3 : tensor R) :
  SEloss.construct [t0; t1; t2; t3]
  = Some ((mean_sigmoid_ce t0 (indicator_ge0 t0) + mean_sigmoid_ce t1 (indicator_ge0 t1)
           + mean_sigmoid_ce t2 (indicator_ge0 t2)
           + mean_sigmoid_ce t3 (indicator_ge0 t3)) / 4)%R.
Proof.
  unfold SEloss.construct. cbn [seq for_each].
  rewrite (SEloss_body_step _ 0 None (x := t0)) by reflexivity. cbn [bind].
  rewrite (SEloss_body_step _ 1 _ (x := t1)) by reflexivity. cbn [bind].
  rewrite (SEloss_body_step _ 2 _ (x := t2)) by reflexivity. cbn [bind].
  rewrite (SEloss_body_step _ 3 _ (x := t3)) by reflexivity. cbn [bind].
  reflexivity.
Qed.

(** ** The primitives, when their arguments are well-shaped *)

Arguments build : simpl never.
Arguments tget : simpl never.

Ltac side := first [reflexivity | assumption | lia].

Lemma in_range_forallb (n : nat) (l : list Z) :
  Forall (in_range n) l ->
  forallb (fun i => (- Z.of_nat n <=? i)%Z && (i <? Z.of_nat n)%Z) l = true.
Proof.
  intros H. apply forallb_forall. intros i Hi.
  rewrite Forall_forall in H. specialize (H i Hi). unfold in_range in H.
  apply andb_true_intro. split; [apply Z.leb_le | apply Z.ltb_lt]; lia.
Qed.

Lemma wrap_index_in_range (n : nat) (i : Z) :
  in_range n i -> P.wrap_index n i = Z.to_nat i.
Proof.
  unfold in_range, P.wrap_index. intros Hi.
  destruct (Z.ltb_spec i 0); [lia | reflexivity].
Qed.

Lemma shape_leb_refl (s : list nat) : shape_leb s s = true.
Proof. induction s as [|n s IH]; simpl; [reflexivity|]. now rewrite Nat.leb_refl. Qed.

Lemma expand_dims_spec {A} (axis : Z) (a : nat) (t : tensor A) :
  norm_axis (S (rank t)) axis = Some a ->
  expand_dims axis t = Some (mkTensor (insert_at a 1 (shape t)) (data t)).
Proof. intros E. unfold expand_dims. now rewrite E. Qed.

Lemma squeeze_spec {A} (axis : Z) (a : nat) (t : tensor A) :
  norm_axis (rank t) axis = Some a ->
  nth a (shape t) 0 = 1 ->
  squeeze axis t = Some (mkTensor (remove_at a (shape t)) (data t)).
Proof. intros E E1. unfold squeeze. rewrite E; simpl. now rewrite E1. Qed.

Lemma reshape_wild {A} (spec : list (option nat)) (q : nat) (t : tensor A) :
  wildcards spec = 1 ->
  known_dims spec <> 0 ->
  prod (shape t) = known_dims spec * q ->
  reshape spec t
  = Some (mkTensor (map (fun o => match o with Some n => n | None => q end) spec) (data t)).
Proof.
  intros Ew Hk Et. unfold reshape. rewrite Ew, Et.
  rewrite (Nat.mul_comm (known_dims spec) q), Nat.Div0.mod_mul, Nat.div_mul by exact Hk.
  apply Nat.eqb_neq in Hk. rewrite Hk. reflexivity.
Qed.

Lemma transpose_spec {A} `{Dflt A} (perm : list nat) (t : tensor A) :
  (length perm =? rank t)
  && forallb (fun j => existsb (Nat.eqb j) perm) (seq 0 (rank t)) = true ->
  transpose perm t
  = Some (build (map (fun p => nth p (shape t) 0) perm)
                (fun idx => tget t (map (fun j => nth (index_of j perm) idx 0)
                                        (seq 0 (rank t))))).
Proof. intros E. unfold transpose. now rewrite E. Qed.

Lemma GatherD_spec {A} `{Dflt A} (x : tensor A) (dim : Z) (a : nat) (index : tensor Z) :
  norm_axis (rank x) dim = Some a ->
  (length (shape index), remove_at a (shape index))
  = (length (shape x), remove_at a (shape x)) ->
  Forall (in_range (nth a (shape x) 0)) (data index) ->
  P.GatherD x dim index
  = Some (build (shape index)
                (fun idx => tget x (replace_at a (Z.to_nat (tget index idx)) idx))).
Proof.
  intros E Es Hr. injection Es as El Es. unfold P.GatherD. rewrite E; cbn [bind].
  unfold rank. rewrite El, Nat.eqb_refl, Es, shape_leb_refl; cbn [andb guard bind].
  rewrite in_range_forallb; cbn [guard bind]; [|exact Hr].
  f_equal. apply build_ext. intros idx _. f_equal. f_equal.
  unfold tget.
  destruct (nth_in_or_default (ravel (shape index) idx) (data index) dflt) as [Hin|E0].
  - rewrite Forall_forall in Hr. now apply wrap_index_in_range with (n := nth a (shape x) 0), Hr.
  - rewrite E0. reflexivity.
Qed.

Lemma ReduceMax_spec (keep_dims : bool) (x : tensor R) (axis : Z) (a : nat) :
  norm_axis (rank x) axis = Some a ->
  nth a (shape x) 0 <> 0 ->
  P.ReduceMax keep_dims x axis
  = Some (build (P.reduced_shape keep_dims a (shape x))
                (fun idx => Rmaximum (map (fun k => tget x (P.lane keep_dims a k idx))
                                          (seq 0 (nth a (shape x) 0))))).
Proof.
  intros E Hn. unfold P.ReduceMax. rewrite E; simpl.
  apply Nat.eqb_neq in Hn. now rewrite Hn.
Qed.

Lemma ReduceSum_spec (keep_dims : bool) (x : tensor R) (axis : Z) (a : nat) :
  norm_axis (rank x) axis = Some a ->
  P.ReduceSum keep_dims x axis
  = Some (build (P.reduced_shape keep_dims a (shape x))
                (fun idx => Rsum (map (fun k => tget x (P.lane keep_dims a k idx))
                                      (seq 0 (nth a (shape x) 0))))).
Proof. intros E. unfold P.ReduceSum. now rewrite E. Qed.

(** [P.Tile] along the channel axis of a [(B, 1, N, K)] tensor. *)
Lemma Tile_channel {A} `{Dflt A} (t : tensor A) (B N K c : nat) :
  shape t = [B; 1; N; K] ->
  0 < B -> 0 < N -> 0 < K -> 0 < c ->
  P.Tile t [1; c; 1; 1]
  = Some (build [B; c; N; K] (fun idx => tget t (replace_at 1 0 idx))).
Proof.
  intros E HB HN HK Hc. unfold P.Tile, rank. rewrite E.
  cbn [length Nat.eqb forallb].
  apply Nat.ltb_lt in HB, HN, HK, Hc. rewrite HB, HN, HK, Hc. simpl.
  rewrite !Nat.mul_1_r, Nat.add_0_r. f_equal. apply build_ext.
  intros idx Hb.
  destruct idx as [|b [|j [|n [|k [|]]]]]; simpl in Hb; try tauto.
  destruct Hb as (Hb & Hj & Hn & Hk & _).
  cbn [zipWith replace_at firstn skipn app].
  rewrite (Nat.mod_small b), (Nat.mod_small n), (Nat.mod_small k) by assumption.
  now rewrite Nat.mod_1_r.
Qed.

(** [P.Tile] along the last axis of a [(B, C, N, 1)] tensor. *)
Lemma Tile_last {A} `{Dflt A} (t : tensor A) (B C N K : nat) :
  shape t = [B; C; N; 1] ->
  0 < B -> 0 < C -> 0 < N -> 0 < K ->
  P.Tile t [1; 1; 1; K]
  = Some (build [B; C; N; K] (fun idx => tget t (replace_at 3 0 idx))).
Proof.
  intros E HB HC HN HK. unfold P.Tile, rank. rewrite E.
  cbn [length Nat.eqb forallb].
  apply Nat.ltb_lt in HB, HC, HN, HK. rewrite HB, HC, HN, HK. simpl.
  rewrite !Nat.mul_1_r, Nat.add_0_r. f_equal. apply build_ext.
  intros idx Hb.
  destruct idx as [|b [|j [|n [|k [|]]]]]; simpl in Hb; try tauto.
  destruct Hb as (Hb & Hj & Hn & Hk & _).
  cbn [zipWith replace_at firstn skipn app].
  rewrite (Nat.mod_small b), (Nat.mod_small j), (Nat.mod_small n) by assumption.
  now rewrite Nat.mod_1_r.
Qed.

(** ** Tensors are determined by their entries *)

Lemma ravel_nth_indices (sh : list nat) (p : nat) (d : list nat) :
  p < prod sh -> ravel sh (nth p (indices sh) d) = p.
Proof.
  revert p; induction sh as [|n sh IH]; intros p Hp; simpl in *.
  - destruct p; [reflexivity | lia].
  - assert (HP : prod sh <> 0) by nia.
    pose proof (Nat.div_mod_eq p (prod sh)) as E.
    pose proof (Nat.mod_upper_bound p (prod sh) HP) as Hr.
    assert (Hi : p / prod sh < n).
    { apply Nat.Div0.div_lt_upper_bound. lia. }
    rewrite E at 1. rewrite (Nat.mul_comm (prod sh)).
    rewrite (nth_blocks (fun i => map (cons i) (indices sh)) (p := prod sh)); try assumption.
    + simpl. rewrite (nth_indep _ d (p / prod sh :: d)).
      * rewrite map_nth. rewrite IH by assumption. lia.
      * now rewrite length_map, length_indices.
    + intros j. now rewrite length_map, length_indices.
Qed.

Lemma tensor_ext {A} `{Dflt A} (t1 t2 : tensor A) :
  wf t1 -> wf t2 -> shape t1 = shape t2 ->
  (forall idx, in_bounds (shape t1) idx -> tget t1 idx = tget t2 idx) ->
  t1 = t2.
Proof.
  destruct t1 as [sh1 d1], t2 as [sh2 d2]. unfold wf, tget; simpl.
  intros W1 W2 <- E. f_equal.
  apply (nth_ext _ _ dflt dflt); [congruence|].
  intros p Hp. rewrite W1 in Hp.
  specialize (E (nth p (indices sh1) [])).
  rewrite ravel_nth_indices in E by assumption.
  apply E. apply In_indices. apply nth_In. now rewrite length_indices.
Qed.

Lemma Forall_of_tget {A} `{Dflt A} (Q : A -> Prop) (t : tensor A) :
  wf t ->
  (forall idx, in_bounds (shape t) idx -> Q (tget t idx)) ->
  Forall Q (data t).
Proof.
  intros W HQ. apply Forall_forall. intros x Hx.
  apply (In_nth _ _ dflt) in Hx as (p & Hp & <-).
  rewrite W in Hp.
  specialize (HQ (nth p (indices (shape t)) [])).
  unfold tget in HQ. rewrite ravel_nth_indices in HQ by assumption.
  apply HQ. apply In_indices. apply nth_In. now rewrite length_indices.
Qed.

Lemma Rmaximum_fold_ub (l : list R) (a : R) :
  (a <= fold_left Rmax l a)%R /\ (forall y, In y l -> (y <= fold_left Rmax l a)%R).
Proof.
  revert a; induction l as [|x l IH]; intros a; simpl.
  - split; [lra | tauto].
  - destruct (IH (Rmax a x)) as [H1 H2]. split.
    + pose proof (Rmax_l a x). lra.
    + intros y [E|Hy]; [subst y; pose proof (Rmax_r a x); lra | now apply H2].
Qed.

Lemma Rmaximum_fold_In (l : list R) (a : R) :
  fold_left Rmax l a = a \/ In (fold_left Rmax l a) l.
Proof.
  revert a; induction l as [|x l IH]; intros a; simpl; [now left|].
  destruct (IH (Rmax a x)) as [E|Hin]; [|now right; right].
  rewrite E. unfold Rmax. destruct (Rle_dec a x); [right; now left | now left].
Qed.

Lemma Rmaximum_In (l : list R) : l <> [] -> In (Rmaximum l) l.
Proof.
  destruct l as [|x l]; [congruence|]. intros _. simpl.
  destruct (Rmaximum_fold_In l x) as [E|Hin]; [left; now rewrite E | now right].
Qed.

Lemma Rmaximum_ub (l : list R) (y : R) : In y l -> (y <= Rmaximum l)%R.
Proof.
  destruct l as [|x l]; simpl; [tauto|].
  destruct (Rmaximum_fold_ub l x) as [H1 H2].
  intros [<-|Hy]; [exact H1 | now apply H2].
Qed.

Lemma Rmaximum_perm (l l' : list R) : Permutation l l' -> Rmaximum l = Rmaximum l'.
Proof.
  intros HP. destruct l as [|x l].
  - apply Permutation_nil in HP. now subst.
  - assert (Hl' : l' <> []).
    { intros ->. symmetry in HP. apply Permutation_nil in HP. discriminate. }
    apply Rle_antisym.
    + apply Rmaximum_ub. apply (Permutation_in _ HP). apply Rmaximum_In. discriminate.
    + apply Rmaximum_ub. apply (Permutation_in _ (Permutation_sym HP)).
      now apply Rmaximum_In.
Qed.

Lemma Rsum_perm (l l' : list R) : Permutation l l' -> Rsum l = Rsum l'.
Proof.
  induction 1; simpl; lra.
Qed.

(** ** [random_sample] *)

Lemma shape_build {A} sh (f : list nat -> A) : shape (build sh f) = sh.
Proof. reflexivity. Qed.

Lemma tget_same_data {A} `{Dflt A} (t : tensor A) (sh idx idx' : list nat) :
  ravel sh idx = ravel (shape t) idx' ->
  tget (mkTensor sh (data t)) idx = tget t idx'.
Proof. intros E. unfold tget; simpl. now rewrite E. Qed.

Lemma random_sample_spec (feature : tensor R) (pool_idx : tensor Z) (B d N N' K : nat) :
  has_shape feature [B; d; N; 1] ->
  has_shape pool_idx [B; N'; K] ->
  Forall (in_range N) (data pool_idx) ->
  0 < B -> 0 < d -> 0 < N' -> 0 < K ->
  exists out,
    RandLANet.random_sample feature pool_idx = Some out
    /\ has_shape out [B; d; N'; 1]
    /\ forall b c p, b < B -> c < d -> p < N' ->
         tget out [b; c; p; 0]
         = Rmaximum (map (fun k => tget feature [b; c; Z.to_nat (tget pool_idx [b; p; k]); 0])
                         (seq 0 K)).
Proof.
  intros [Hwf Hsh] [Hwp Hsp] Hr HB Hd HN' HK.
  unfold RandLANet.random_sample. rewrite Hsh, Hsp. cbn [nth_error bind].
  rewrite expand_dims_spec with (a := 1) by (unfold rank; rewrite Hsp; reflexivity).
  cbn [bind]. rewrite Hsp. cbn [insert_at firstn skipn app].
  rewrite Tile_channel with (B := B) (N := N') (K := K) by side.
  cbn [bind].
  rewrite reshape_wild with (q := N' * K); [| reflexivity | cbn; nia | rewrite shape_build; cbn; ring ].
  cbn [bind map].
  rewrite squeeze_spec with (a := 3); [| unfold rank; rewrite Hsh; reflexivity | rewrite Hsh; reflexivity].
  cbn [bind]. rewrite Hsh. cbn [remove_at firstn skipn app].
  rewrite GatherD_spec with (a := 2); [| reflexivity | reflexivity | ].
  2:{ cbn [shape nth data]. apply Forall_build. intros idx Hb.
      rewrite Forall_forall in Hr. apply Hr.
      change (data pool_idx) with (data (mkTensor [B; 1; N'; K] (data pool_idx))).
      apply tget_In; [ unfold wf; cbn [shape data]; rewrite Hwp, Hsp; cbn; ring |].
      destruct idx as [|b [|j [|n [|k [|]]]]]; simpl in Hb; try tauto.
      cbn. intuition lia. }
  cbn [bind shape data].
  rewrite reshape_wild with (q := K); [| reflexivity | cbn; nia | rewrite shape_build; cbn; ring ].
  cbn [bind map].
  rewrite ReduceMax_spec with (a := 3); [| reflexivity | cbn; lia ].
  eexists. split; [reflexivity|]. split; [apply has_shape_build|].
  intros b c p Hb Hc Hp.
  rewrite tget_build by (cbn; intuition lia).
  cbn [shape nth]. f_equal. apply map_ext_in. intros k Hk. apply in_seq in Hk.
  cbn [P.lane replace_at firstn skipn app].
  rewrite tget_same_data with (sh := [B; d; N'; K]) (idx' := [b; c; p * K + k]) by (unfold build; cbn; lia).
  rewrite tget_build by (cbn; intuition nia).
  cbn [firstn skipn app].
  rewrite tget_same_data with (sh := [B; d; N' * K]) (idx' := [b; c; p; k]) by (unfold build; cbn; lia).
  rewrite tget_build by (cbn; intuition lia).
  cbn [firstn skipn app].
  rewrite tget_same_data with (sh := [B; 1; N'; K]) (idx' := [b; p; k]) by (rewrite Hsp; cbn; lia).
  apply tget_same_data. rewrite Hsh. cbn. lia.
Qed.

(** C8: [random_sample] is a gather followed by a maximum: on a feature
    tensor of shape (B, d, N, 1) and an index tensor of shape (B, N', K) with
    all indices in [0, N) it returns a tensor of shape (B, d, N', 1) whose
    entry [b, c, p, 0] is the maximum over k in [0, K) of
    feature[b, c, pool_idx[b, p, k], 0].  The result is a function of the two
    arguments; nothing is drawn at random. *)
Theorem C8_random_sample_is_gather_max (feature : tensor R) (pool_idx : tensor Z)
    (B d N N' K : nat) :
  has_shape feature [B; d; N; 1] ->
  has_shape pool_idx [B; N'; K] ->
  Forall (in_range N) (data pool_idx) ->
  0 < B -> 0 < d -> 0 < N' -> 0 < K ->
  exists out,
    RandLANet.random_sample feature pool_idx = Some out
    /\ has_shape out [B; d; N'; 1]
    /\ forall b c p, b < B -> c < d -> p < N' ->
         tget out [b; c; p; 0]
         = Rmaximum (map (fun k => tget feature [b; c; Z.to_nat (tget pool_idx [b; p; k]); 0])
                         (seq 0 K)).
Proof. apply random_sample_spec. Qed.

Lemma C8_random_sample_witness :
  exists out,
    RandLANet.random_sample (mkTensor [1; 1; 3; 1] [5; 7; 6]%R)
                            (mkTensor [1; 2; 2] [0; 1; 2; 0]%Z) = Some out
    /\ has_shape out [1; 1; 2; 1]
    /\ forall b c p, b < 1 -> c < 1 -> p < 2 ->
         tget out [b; c; p; 0]
         = Rmaximum
             (map (fun k =>
                     tget (mkTensor [1; 1; 3; 1] [5; 7; 6]%R)
                          [b; c; Z.to_nat (tget (mkTensor [1; 2; 2] [0; 1; 2; 0]%Z) [b; p; k]); 0])
                  (seq 0 2)).
Proof.
  apply (C8_random_sample_is_gather_max (N := 3)).
  - split; reflexivity.
  - split; reflexivity.
  - repeat constructor; unfold in_range; simpl; lia.
  - lia.
  - lia.
  - lia.
  - lia.
Defined.

(** ** Elementwise operators *)

Lemma bshape_rev_refl (l : list nat) : bshape_rev l l = Some l.
Proof.
  induction l as [|n l IH]; simpl; [reflexivity|].
  rewrite IH; simpl. now rewrite Nat.eqb_refl.
Qed.

Lemma bshape_refl (sh : list nat) : bshape sh sh = Some sh.
Proof. unfold bshape. rewrite bshape_rev_refl; simpl. now rewrite rev_involutive. Qed.

Lemma zipWith_bidx (sh idx : list nat) :
  in_bounds sh idx -> zipWith (fun n i => if n =? 1 then 0 else i) sh idx = idx.
Proof.
  revert idx; induction sh as [|n sh IH]; intros [|i idx]; simpl; try tauto.
  intros [Hi Hb]. rewrite (IH _ Hb).
  destruct (Nat.eqb_spec n 1); [f_equal; lia | reflexivity].
Qed.

Lemma bidx_same (sh idx : list nat) : in_bounds sh idx -> bidx sh idx = idx.
Proof.
  intros Hb. unfold bidx. rewrite (in_bounds_length _ _ Hb), Nat.sub_diag. simpl.
  now apply zipWith_bidx.
Qed.

Lemma tmap2_same {A B C} `{Dflt A} `{Dflt B} (f : A -> B -> C)
    (a : tensor A) (b : tensor B) (sh : list nat) :
  shape a = sh -> shape b = sh ->
  tmap2 f a b = Some (build sh (fun idx => f (tget a idx) (tget b idx))).
Proof.
  intros Ea Eb. unfold tmap2. rewrite Ea, Eb, bshape_refl; simpl.
  f_equal. apply build_ext. intros idx Hb. now rewrite bidx_same.
Qed.

Lemma tmap2_bcast_row {A B C} `{Dflt A} `{Dflt B} (f : A -> B -> C)
    (a : tensor A) (b : tensor B) (m c : nat) :
  shape a = [c] -> shape b = [m; c] ->
  tmap2 f a b = Some (build [m; c] (fun idx => f (tget a (skipn 1 idx)) (tget b idx))).
Proof.
  intros Ea Eb. unfold tmap2, bshape. rewrite Ea, Eb; simpl.
  rewrite Nat.eqb_refl; simpl.
  f_equal. apply build_ext. intros idx Hb.
  rewrite (bidx_same [m; c]) by assumption.
  destruct idx as [|i [|j [|]]]; simpl in Hb; try tauto.
  destruct Hb as (Hi & Hj & _). unfold bidx; simpl.
  destruct (Nat.eqb_spec c 1); [|reflexivity].
  do 2 f_equal. f_equal. lia.
Qed.

(** ** Sums over rows and points *)

Lemma indices_1 (m : nat) : indices [m] = map (fun i => [i]) (seq 0 m).
Proof.
  simpl. generalize 0 as a. induction m as [|m IH]; intros a; simpl; [reflexivity|].
  now rewrite IH.
Qed.

Lemma map_seq_from {X} (h : nat -> X) (a n : nat) :
  map h (seq a n) = map (fun i => h (a + i)) (seq 0 n).
Proof.
  revert h a; induction n as [|n IH]; intros h a; simpl; [reflexivity|].
  rewrite Nat.add_0_r. f_equal.
  rewrite (IH h (S a)), (IH (fun i => h (a + i)) 1).
  apply map_ext. intros i. f_equal. lia.
Qed.

Lemma map_seq_mul {X} (h : nat -> X) (B N : nat) :
  map h (seq 0 (B * N))
  = flat_map (fun b => map (fun n => h (b * N + n)) (seq 0 N)) (seq 0 B).
Proof.
  induction B as [|B IH]; [reflexivity|].
  rewrite seq_S, flat_map_app. cbn [flat_map]. rewrite app_nil_r, <- IH.
  replace (S B * N) with (B * N + N) by lia.
  rewrite seq_app, map_app. f_equal.
  cbn [Nat.add]. apply map_seq_from.
Qed.

Lemma Rsum_select (w : nat -> R) (l a n : nat) :
  a <= l < a + n ->
  Rsum (map (fun c => (w c * (if (Z.of_nat l =? Z.of_nat c)%Z then 1 else 0))%R) (seq a n)) = w l.
Proof.
  revert a; induction n as [|n IH]; intros a Hl; [lia|]. simpl.
  destruct (Z.eqb_spec (Z.of_nat l) (Z.of_nat a)) as [E|E].
  - apply Nat2Z.inj in E. subst a.
    assert (Hz : forall m b, l < b ->
      Rsum (map (fun c => (w c * (if (Z.of_nat l =? Z.of_nat c)%Z then 1 else 0))%R) (seq b m)) = 0%R).
    { induction m as [|m IHm]; intros b Hb; simpl; [reflexivity|].
      destruct (Z.eqb_spec (Z.of_nat l) (Z.of_nat b)) as [E'|E']; [lia|].
      rewrite IHm by lia. lra. }
    rewrite Hz by lia. lra.
  - rewrite IH by lia. lra.
Qed.

(** ** The weighted cross-entropy *)

Lemma swapaxes_last2_rank3 {A} `{Dflt A} (t : tensor A) (B C N : nat) :
  shape t = [B; C; N] ->
  swapaxes (-2) (-1) t
  = Some (build [B; N; C]
                (fun idx => tget t [nth 0 idx 0; nth 2 idx 0; nth 1 idx 0])).
Proof.
  intros E. unfold swapaxes, rank. rewrite E. cbn [length].
  change (norm_axis 3 (-2)) with (Some 1). change (norm_axis 3 (-1)) with (Some 2).
  cbn [bind]. change (swap_perm 3 1 2) with [0; 2; 1].
  rewrite transpose_spec by (unfold rank; rewrite E; reflexivity).
  unfold rank. rewrite E. reflexivity.
Qed.

Lemma flat_map_ext_In {X Y} (f g : X -> list Y) (l : list X) :
  (forall x, In x l -> f x = g x) -> flat_map f l = flat_map g l.
Proof.
  induction l as [|x l IH]; intros E; simpl; [reflexivity|].
  rewrite E by now left. rewrite IH; [reflexivity|].
  intros y Hy. apply E. now right.
Qed.

Lemma SoftmaxCE_spec (logits labels : tensor R) (M C : nat) :
  shape logits = [M; C] -> shape labels = [M; C] ->
  nn.SoftmaxCrossEntropyWithLogits logits labels
  = Some (build [M] (fun idx => nn.softmax_ce_row (nn.row logits (nth 0 idx 0))
                                                  (nn.row labels (nth 0 idx 0)))).
Proof.
  intros E1 E2. unfold nn.SoftmaxCrossEntropyWithLogits, rank.
  rewrite E1, E2, shape_eqb_refl. reflexivity.
Qed.


(** The value of [WeightCEloss.construct] on non-empty, well-shaped
    arguments. *)
Lemma WeightCEloss_value (weights logits : tensor R) (labels : tensor Z) (B C N : nat) :
  has_shape weights [C] ->
  has_shape logits [B; C; N] ->
  has_shape labels [B; N] ->
  0 < B -> 0 < C -> 0 < N ->
  WeightCEloss.construct (WeightCEloss.mk weights C) logits labels
  = Some (weighted_ce_mean weights logits labels B C N).
Proof.
  intros [Ww Sw] [Wl Sl] [Wy Sy] HB HC HN.
  unfold WeightCEloss.construct. cbn [WeightCEloss.weights WeightCEloss.num_classes].
  rewrite swapaxes_last2_rank3 with (B := B) (C := C) (N := N) by assumption.
  cbn [bind].
  rewrite reshape_wild with (q := B * N); [| reflexivity | cbn; lia | unfold build; cbn; lia].
  cbn [bind map].
  rewrite reshape_wild with (q := B * N); [| reflexivity | cbn; lia | rewrite Sy; cbn; lia].
  cbn [bind map].
  rewrite tmap2_bcast_row with (m := B * N) (c := C); [| assumption | reflexivity].
  cbn [bind].
  rewrite ReduceSum_spec with (a := 1) by reflexivity.
  cbn [bind].
  rewrite SoftmaxCE_spec with (M := B * N) (C := C) by reflexivity.
  cbn [bind].
  rewrite tmap2_same with (sh := [B * N]); [| reflexivity | reflexivity].
  cbn [bind]. unfold mean. rewrite shape_build. cbn [prod].
  rewrite guard_true by (apply negb_true_iff, Nat.eqb_neq; nia).
  cbn [bind]. f_equal.
  unfold weighted_ce_mean. f_equal.
  unfold build at 1. cbn [data]. rewrite indices_1, map_map, map_seq_mul.
  apply flat_map_ext_In. intros b Hb. apply in_seq in Hb.
  apply map_ext_in. intros n Hn. apply in_seq in Hn.
  assert (Hi : b * N + n < B * N) by nia.
  rewrite tget_build by (cbn; lia).
  rewrite !shape_build. cbn [P.reduced_shape remove_at firstn skipn app nth].
  rewrite tget_build by (cbn; lia).
  cbn [P.lane insert_at firstn skipn app].
  unfold point_loss. f_equal.
  - f_equal.
    + unfold nn.row, logit_row. cbn [shape nth].
      apply map_ext_in. intros c Hc. apply in_seq in Hc.
      rewrite tget_same_data with (idx' := [b; n; c]) by (unfold build; cbn; lia).
      rewrite tget_build by (cbn; lia). reflexivity.
    + unfold nn.row, one_hot_row, nn.OneHot. rewrite shape_build. cbn [shape app nth].
      apply map_ext_in. intros c Hc. apply in_seq in Hc.
      rewrite tget_build by (cbn; lia). cbn [removelast last].
      rewrite tget_same_data with (idx' := [b; n]) by (rewrite Sy; cbn; lia).
      reflexivity.
  - unfold selected_weight. f_equal.
    apply map_ext_in. intros c Hc. apply in_seq in Hc.
    rewrite tget_build by (cbn; lia). f_equal.
    unfold nn.OneHot. cbn [shape app].
    rewrite tget_build by (cbn; lia). cbn [removelast last].
    rewrite tget_same_data with (idx' := [b; n]) by (rewrite Sy; cbn; lia).
    reflexivity.
Qed.

(** C2: on non-empty logits of shape (B, num_classes, N), labels of shape
    (B, N) and one weight per class, [WeightCEloss.construct] returns the
    mean, over all B*N points, of the softmax cross-entropy of the point's row
    of logits against the one-hot encoding of its label, multiplied by the
    weight selected by summing weights * one_hot_labels over the classes; for
    a label that is a class index that weight is the weight of the class. *)
Theorem C2_weighted_cross_entropy (weights logits : tensor R) (labels : tensor Z)
    (B C N : nat) :
  has_shape weights [C] ->
  has_shape logits [B; C; N] ->
  has_shape labels [B; N] ->
  0 < B -> 0 < C -> 0 < N ->
  WeightCEloss.construct (WeightCEloss.mk weights C) logits labels
  = Some (weighted_ce_mean weights logits labels B C N)
  /\ forall label, in_range C label ->
       selected_weight weights C label = tget weights [Z.to_nat label].
Proof.
  intros Hw Hl Hy HB HC HN. split.
  - now apply WeightCEloss_value.
  - intros label Hr. unfold in_range in Hr. unfold selected_weight.
    rewrite <- (@Rsum_select (fun c => tget weights [c]) (Z.to_nat label) 0 C) by lia.
    f_equal. apply map_ext. intros c. now rewrite Z2Nat.id by lia.
Qed.

Lemma C2_weighted_cross_entropy_witness :
  WeightCEloss.construct (WeightCEloss.mk example_weights 2) example_logits example_labels
  = Some (weighted_ce_mean example_weights example_logits example_labels 1 2 1)
  /\ forall label, in_range 2 label ->
       selected_weight example_weights 2 label = tget example_weights [Z.to_nat label].
Proof.
  apply (@C2_weighted_cross_entropy example_weights example_logits example_labels 1 2 1).
  - split; reflexivity.
  - split; reflexivity.
  - split; reflexivity.
  - lia.
  - lia.
  - lia.
Defined.

(** ** [SharedMLP] keeps the batch and the two spatial axes *)

Lemma has_shape_tmap {A B} (f : A -> B) (t : tensor A) (sh : list nat) :
  has_shape t sh -> has_shape (tmap f t) sh.
Proof.
  intros [W S]. split; [|exact S]. unfold wf, tmap in *; simpl. now rewrite length_map.
Qed.

Lemma has_shape_linear_on (a cin cout : nat) (w : nat -> nat -> R) (b : option (nat -> R))
    (x : tensor R) :
  has_shape (nn.linear_on a cin cout w b x) (replace_at a cout (shape x)).
Proof. apply has_shape_build. Qed.

Lemma Conv2d_spec (c : nn.Conv2d) (x : tensor R) (B H W : nat) :
  shape x = [B; nn.conv_in c; H; W] ->
  0 < H -> 0 < W ->
  nn.Conv2d_construct c x
  = Some (nn.linear_on 1 (nn.conv_in c) (nn.conv_out c) (nn.conv_weight c) (nn.conv_bias c) x).
Proof.
  intros E HH HW. unfold nn.Conv2d_construct, rank. rewrite E. cbn [length nth Nat.eqb].
  apply Nat.ltb_lt in HH, HW. now rewrite Nat.eqb_refl, HH, HW.
Qed.

Lemma BatchNorm2d_shape (bn : nn.BatchNorm2d) (x : tensor R) (B H W : nat) :
  shape x = [B; nn.bn_features bn; H; W] ->
  exists out, nn.BatchNorm2d_construct bn x = Some out
              /\ has_shape out [B; nn.bn_features bn; H; W].
Proof.
  intros E. unfold nn.BatchNorm2d_construct, rank. rewrite E; simpl.
  rewrite Nat.eqb_refl; simpl. eexists. split; [reflexivity|].
  apply has_shape_build.
Qed.

Lemma SharedMLP_shape (cin cout : nat) (tr bn : bool) (act : option R) (bias : bool)
    (p : mlp_params) (x : tensor R) (B H W : nat) :
  shape x = [B; cin; H; W] ->
  0 < H -> 0 < W ->
  exists out,
    SharedMLP.construct (SharedMLP.init cin cout tr bn act bias p) x = Some out
    /\ has_shape out [B; cout; H; W].
Proof.
  intros E HH HW. unfold SharedMLP.construct, SharedMLP.init.
  cbn [SharedMLP.conv SharedMLP.has_bn SharedMLP.batch_norm SharedMLP.activation_fn].
  rewrite Conv2d_spec with (B := B) (H := H) (W := W) by (first [exact E | assumption]).
  cbn [bind nn.conv_in nn.conv_out nn.conv_weight nn.conv_bias].
  pose proof (has_shape_linear_on 1 cin cout (p_weight p)
                (if bias then Some (p_bias p) else None) x) as Hl.
  rewrite E in Hl. cbn [replace_at firstn skipn app] in Hl.
  set (y := nn.linear_on 1 cin cout (p_weight p) (if bias then Some (p_bias p) else None) x) in *.
  assert (Hbn : exists z,
             (if bn then nn.BatchNorm2d_construct
                           (nn.mkBatchNorm2d cout 1e-6 (p_gamma p) (p_beta p) (p_stats p)) y
              else Some y) = Some z /\ has_shape z [B; cout; H; W]).
  { destruct bn; [|now exists y].
    apply (@BatchNorm2d_shape
             (nn.mkBatchNorm2d cout 1e-6 (p_gamma p) (p_beta p) (p_stats p)) y B H W).
    exact (proj2 Hl). }
  destruct Hbn as (z & Ez & Hz). step Ez.
  eexists. split; [reflexivity|].
  destruct act; [now apply has_shape_tmap | exact Hz].
Qed.

(** ** Attentive pooling *)

Lemma transpose_0231 {A} `{Dflt A} (t : tensor A) (s0 s1 s2 s3 : nat) :
  shape t = [s0; s1; s2; s3] ->
  transpose [0; 2; 3; 1] t
  = Some (build [s0; s2; s3; s1]
                (fun idx => tget t [nth 0 idx 0; nth 3 idx 0; nth 1 idx 0; nth 2 idx 0])).
Proof.
  intros E. rewrite transpose_spec by (unfold rank; rewrite E; reflexivity).
  unfold rank. rewrite E. reflexivity.
Qed.

Lemma transpose_0312 {A} `{Dflt A} (t : tensor A) (s0 s1 s2 s3 : nat) :
  shape t = [s0; s1; s2; s3] ->
  transpose [0; 3; 1; 2] t
  = Some (build [s0; s3; s1; s2]
                (fun idx => tget t [nth 0 idx 0; nth 2 idx 0; nth 3 idx 0; nth 1 idx 0])).
Proof.
  intros E. rewrite transpose_spec by (unfold rank; rewrite E; reflexivity).
  unfold rank. rewrite E. reflexivity.
Qed.

Lemma transpose_021 {A} `{Dflt A} (t : tensor A) (s0 s1 s2 : nat) :
  shape t = [s0; s1; s2] ->
  transpose [0; 2; 1] t
  = Some (build [s0; s2; s1]
                (fun idx => tget t [nth 0 idx 0; nth 2 idx 0; nth 1 idx 0])).
Proof.
  intros E. rewrite transpose_spec by (unfold rank; rewrite E; reflexivity).
  unfold rank. rewrite E. reflexivity.
Qed.

Lemma scores_spec (d_in d_out : nat) (bias : bool) (p : pool_params) (x : tensor R)
    (B N K : nat) :
  shape x = [B; d_in; N; K] ->
  exists s,
    AttentivePooling.scores (AttentivePooling.init d_in d_out bias p) x = Some s
    /\ has_shape s [B; d_in; N; K]
    /\ forall b c n k, b < B -> c < d_in -> n < N -> k < K ->
         tget s [b; c; n; k] = attention_score (score_weight p) x d_in K b c n k.
Proof.
  intros E. unfold AttentivePooling.scores, AttentivePooling.score_fn, AttentivePooling.init.
  cbn [AttentivePooling.score_dense].
  rewrite transpose_0231 with (s0 := B) (s1 := d_in) (s2 := N) (s3 := K) by exact E.
  cbn [bind]. unfold nn.Dense_construct.
  rewrite guard_true by (unfold rank; rewrite shape_build; cbn; now rewrite Nat.eqb_refl).
  cbn [bind nn.dense_in nn.dense_out nn.dense_weight nn.dense_bias].
  unfold rank at 1. rewrite shape_build. cbn [length Nat.sub].
  unfold nn.Softmax, nn.linear_on. unfold rank. rewrite !shape_build.
  cbn [replace_at firstn skipn app length].
  change (norm_axis 4 (-2)) with (Some 2). cbn [bind nth].
  rewrite transpose_0312 with (s0 := B) (s1 := N) (s2 := K) (s3 := d_in) by reflexivity.
  eexists. split; [reflexivity|]. split; [apply has_shape_build|].
  intros b c n k Hb Hc Hn Hk.
  rewrite tget_build by (cbn; lia). cbn [nth].
  rewrite tget_build by (cbn; lia).
  unfold attention_score. f_equal.
  - f_equal. rewrite tget_build by (cbn; lia). cbn [nth nn.bias_at].
    rewrite Rplus_0_r. unfold attention_logit. f_equal.
    apply map_ext_in. intros i Hi. apply in_seq in Hi. f_equal.
    cbn [replace_at firstn skipn app].
    rewrite tget_build by (cbn; lia). reflexivity.
  - f_equal. apply map_ext_in. intros j Hj. apply in_seq in Hj. f_equal.
    cbn [replace_at firstn skipn app].
    rewrite tget_build by (cbn; lia). cbn [nth nn.bias_at].
    rewrite Rplus_0_r. unfold attention_logit. f_equal.
    apply map_ext_in. intros i Hi. apply in_seq in Hi. f_equal.
    cbn [replace_at firstn skipn app].
    rewrite tget_build by (cbn; lia). reflexivity.
Qed.

Lemma AttentivePooling_spec (d_in d_out : nat) (bias : bool) (p : pool_params)
    (x : tensor R) (B N K : nat) :
  shape x = [B; d_in; N; K] ->
  0 < N ->
  exists s f out,
    AttentivePooling.scores (AttentivePooling.init d_in d_out bias p) x = Some s
    /\ has_shape s [B; d_in; N; K]
    /\ (forall b c n k, b < B -> c < d_in -> n < N -> k < K ->
          tget s [b; c; n; k] = attention_score (score_weight p) x d_in K b c n k)
    /\ has_shape f [B; d_in; N; 1]
    /\ (forall b c n, b < B -> c < d_in -> n < N ->
          tget f [b; c; n; 0]
          = Rsum (map (fun k => (tget s [b; c; n; k] * tget x [b; c; n; k])%R) (seq 0 K)))
    /\ AttentivePooling.construct (AttentivePooling.init d_in d_out bias p) x
       = SharedMLP.construct (AttentivePooling.mlp (AttentivePooling.init d_in d_out bias p)) f
    /\ SharedMLP.construct (AttentivePooling.mlp (AttentivePooling.init d_in d_out bias p)) f
       = Some out
    /\ has_shape out [B; d_out; N; 1].
Proof.
  intros E HN.
  destruct (@scores_spec d_in d_out bias p x B N K E) as (s & Es & Hs & Hv).
  unfold AttentivePooling.construct. step Es.
  rewrite tmap2_same with (sh := [B; d_in; N; K]); [| apply Hs | exact E].
  cbn [bind].
  rewrite ReduceSum_spec with (a := 3) by reflexivity.
  cbn [bind]. rewrite shape_build. cbn [P.reduced_shape replace_at firstn skipn app nth].
  set (f := build [B; d_in; N; 1] _).
  assert (Hf : has_shape f [B; d_in; N; 1]) by apply has_shape_build.
  destruct (@SharedMLP_shape d_in d_out false true (Some 0.2%R) bias (pool_mlp p) f
              B N 1 (proj2 Hf)) as (out & Eo & Ho); [side | side |].
  exists s, f, out. repeat split; try assumption; try apply Hs; try apply Hf; try apply Ho.
  intros b c n Hb Hc Hn. unfold f.
  rewrite tget_build by (cbn; lia).
  f_equal. apply map_ext_in. intros k Hk. apply in_seq in Hk.
  cbn [P.lane replace_at firstn skipn app].
  rewrite tget_build by (cbn; lia). reflexivity.
Qed.

Lemma Rsum_div (f : nat -> R) (s : R) (l : list nat) :
  Rsum (map (fun k => (f k / s)%R) l) = (Rsum (map f l) / s)%R.
Proof.
  induction l as [|k l IH]; simpl; [lra|]. rewrite IH. lra.
Qed.

Lemma Rsum_exp_pos (f : nat -> R) (l : list nat) :
  l <> [] -> (0 < Rsum (map (fun k => exp (f k)) l))%R.
Proof.
  intros Hl. destruct l as [|k l]; [congruence|]. clear Hl. simpl.
  assert (H0 : (0 <= Rsum (map (fun k => exp (f k)) l))%R).
  { induction l as [|j l IH]; simpl; [lra|]. pose proof (exp_pos (f j)). lra. }
  pose proof (exp_pos (f k)). lra.
Qed.

(** In exact arithmetic the scores of a point sum to 1. *)
Lemma softmax_sum_one (f : nat -> R) (K : nat) :
  0 < K ->
  Rsum (map (fun k => (exp (f k) / Rsum (map (fun j => exp (f j)) (seq 0 K)))%R) (seq 0 K))
  = 1%R.
Proof.
  intros HK. rewrite (Rsum_div (fun k => exp (f k))).
  assert (Hp : (0 < Rsum (map (fun k => exp (f k)) (seq 0 K)))%R).
  { apply Rsum_exp_pos. destruct K; [lia | discriminate]. }
  field. lra.
Qed.

(** ** Rearranging the neighbours *)

Lemma perm_length (sigma : list nat) (K : nat) :
  Permutation sigma (seq 0 K) -> length sigma = K.
Proof. intros HP. rewrite (Permutation_length HP). apply length_seq. Qed.

Lemma perm_lt (sigma : list nat) (K k : nat) :
  Permutation sigma (seq 0 K) -> k < K -> nth k sigma 0 < K.
Proof.
  intros HP Hk.
  assert (Hin : In (nth k sigma 0) (seq 0 K)).
  { apply (Permutation_in _ HP). apply nth_In. now rewrite (@perm_length sigma K HP). }
  apply in_seq in Hin. lia.
Qed.

Lemma map_nth_seq {X} (l : list X) (d : X) :
  map (fun k => nth k l d) (seq 0 (length l)) = l.
Proof.
  induction l as [|x l IH]; simpl; [reflexivity|]. f_equal.
  rewrite <- seq_shift, map_map. exact IH.
Qed.

Lemma perm_reindex {X} (g : nat -> X) (sigma : list nat) (K : nat) :
  Permutation sigma (seq 0 K) ->
  Permutation (map (fun k => g (nth k sigma 0)) (seq 0 K)) (map g (seq 0 K)).
Proof.
  intros HP.
  replace (map (fun k => g (nth k sigma 0)) (seq 0 K)) with (map g sigma).
  - now apply Permutation_map.
  - rewrite <- (map_nth_seq sigma 0) at 1. rewrite map_map.
    now rewrite (@perm_length sigma K HP).
Qed.

Lemma has_shape_permute_last {A} `{Dflt A} (sigma : list nat) (t : tensor A) :
  has_shape (permute_last sigma t) (shape t).
Proof. apply has_shape_build. Qed.

Lemma tget_permute_last4 {A} `{Dflt A} (sigma : list nat) (t : tensor A)
    (s0 s1 s2 s3 b c n k : nat) :
  shape t = [s0; s1; s2; s3] -> b < s0 -> c < s1 -> n < s2 -> k < s3 ->
  tget (permute_last sigma t) [b; c; n; k] = tget t [b; c; n; nth k sigma 0].
Proof.
  intros E Hb Hc Hn Hk. unfold permute_last.
  rewrite tget_build by (rewrite E; cbn; lia). reflexivity.
Qed.

Lemma tget_permute_last3 {A} `{Dflt A} (sigma : list nat) (t : tensor A)
    (s0 s1 s2 b n k : nat) :
  shape t = [s0; s1; s2] -> b < s0 -> n < s1 -> k < s2 ->
  tget (permute_last sigma t) [b; n; k] = tget t [b; n; nth k sigma 0].
Proof.
  intros E Hb Hn Hk. unfold permute_last.
  rewrite tget_build by (rewrite E; cbn; lia). reflexivity.
Qed.

Lemma in_bounds_permuted (sh idx sigma : list nat) (K : nat) :
  sh <> [] -> last sh 0 = K -> Permutation sigma (seq 0 K) ->
  in_bounds sh idx ->
  in_bounds sh (removelast idx ++ [nth (last idx 0) sigma 0]).
Proof.
  intros Hne El HP. revert idx Hne El. induction sh as [|m sh IH]; intros idx Hne El Hb.
  - congruence.
  - destruct idx as [|i idx]; [contradiction|]. destruct Hb as [Hi Hb].
    destruct sh as [|m' sh'].
    + destruct idx; [|contradiction]. simpl in El. subst m. simpl.
      split; [now apply perm_lt | exact I].
    + destruct idx as [|i' idx']; [contradiction|].
      change (removelast (i :: i' :: idx')) with (i :: removelast (i' :: idx')).
      change (last (i :: i' :: idx') 0) with (last (i' :: idx') 0).
      cbn [app]. split; [exact Hi|].
      apply IH; [discriminate | exact El | exact Hb].
Qed.

Lemma Forall_permute_last {A} `{Dflt A} (Q : A -> Prop) (sigma : list nat) (t : tensor A)
    (K : nat) :
  wf t -> shape t <> [] -> last (shape t) 0 = K -> Permutation sigma (seq 0 K) ->
  Forall Q (data t) -> Forall Q (data (permute_last sigma t)).
Proof.
  intros W Hne El HP HQ. unfold permute_last. apply Forall_build.
  intros idx Hb. apply Forall_tget; [assumption | assumption |].
  now apply in_bounds_permuted with (K := K).
Qed.

Lemma attention_logit_permuted (w : nat -> nat -> R) (x : tensor R) (sigma : list nat)
    (B d_in N K b n k c : nat) :
  shape x = [B; d_in; N; K] -> b < B -> n < N -> k < K ->
  attention_logit w (permute_last sigma x) d_in b n k c
  = attention_logit w x d_in b n (nth k sigma 0) c.
Proof.
  intros E Hb Hn Hk. unfold attention_logit. f_equal.
  apply map_ext_in. intros i Hi. apply in_seq in Hi. f_equal.
  apply tget_permute_last4 with (s0 := B) (s1 := d_in) (s2 := N) (s3 := K); auto; lia.
Qed.

Lemma attention_score_permuted (w : nat -> nat -> R) (x : tensor R) (sigma : list nat)
    (B d_in N K b c n k : nat) :
  shape x = [B; d_in; N; K] -> Permutation sigma (seq 0 K) ->
  b < B -> n < N -> k < K ->
  attention_score w (permute_last sigma x) d_in K b c n k
  = attention_score w x d_in K b c n (nth k sigma 0).
Proof.
  intros E HP Hb Hn Hk. unfold attention_score.
  rewrite (@attention_logit_permuted w x sigma B d_in N K b n k c) by assumption.
  f_equal. 
  transitivity (Rsum (map (fun j => exp (attention_logit w x d_in b n (nth j sigma 0) c))
                          (seq 0 K))).
  - f_equal. apply map_ext_in. intros j Hj. apply in_seq in Hj. f_equal.
    apply attention_logit_permuted with (B := B) (N := N) (K := K); auto; lia.
  - apply Rsum_perm.
    apply (@perm_reindex R (fun j => exp (attention_logit w x d_in b n j c)) sigma K HP).
Qed.

(** In exact arithmetic, where a sum does not depend on the order of its
    terms, attentive pooling does not depend on the order of the neighbours.
    The [float32] sums of the program do depend on it. *)
Lemma AttentivePooling_permutation (d_in d_out : nat) (bias : bool) (p : pool_params)
    (x : tensor R) (sigma : list nat) (B N K : nat) :
  has_shape x [B; d_in; N; K] -> 0 < N -> Permutation sigma (seq 0 K) ->
  AttentivePooling.construct (AttentivePooling.init d_in d_out bias p) (permute_last sigma x)
  = AttentivePooling.construct (AttentivePooling.init d_in d_out bias p) x.
Proof.
  intros [W E] HN HP.
  assert (E' : shape (permute_last sigma x) = [B; d_in; N; K]) by exact E.
  destruct (@AttentivePooling_spec d_in d_out bias p x B N K E HN)
    as (s & f & out & _ & _ & Hs & Hf & Hfv & Ec & _).
  destruct (@AttentivePooling_spec d_in d_out bias p (permute_last sigma x) B N K E' HN)
    as (s' & f' & out' & _ & _ & Hs' & Hf' & Hfv' & Ec' & _).
  rewrite Ec, Ec'. f_equal.
  apply tensor_ext; [apply Hf' | apply Hf | |].
  - rewrite (proj2 Hf), (proj2 Hf'). reflexivity.
  - rewrite (proj2 Hf'). intros idx Hb.
    destruct idx as [|b [|c [|n [|z [|]]]]]; simpl in Hb; try tauto.
    destruct Hb as (Hb & Hc & Hn & Hz & _). assert (z = 0) by lia. subst z.
    rewrite Hfv, Hfv' by assumption.
    transitivity (Rsum (map (fun k => (fun j => (tget s [b; c; n; j] * tget x [b; c; n; j])%R)
                                        (nth k sigma 0)) (seq 0 K))).
    + f_equal. apply map_ext_in. intros k Hk. apply in_seq in Hk.
      pose proof (@perm_lt sigma K k HP) as Hlt.
      rewrite Hs', Hs by (auto; lia). f_equal.
      * apply attention_score_permuted with (B := B) (N := N); auto; lia.
      * apply tget_permute_last4 with (s0 := B) (s1 := d_in) (s2 := N) (s3 := K); auto; lia.
    + apply Rsum_perm.
      apply (@perm_reindex R (fun j => (tget s [b; c; n; j] * tget x [b; c; n; j])%R)
               sigma K HP).
Qed.

Lemma random_sample_permutation (feature : tensor R) (pool_idx : tensor Z)
    (sigma : list nat) (B d N N' K : nat) :
  has_shape feature [B; d; N; 1] ->
  has_shape pool_idx [B; N'; K] ->
  Forall (in_range N) (data pool_idx) ->
  0 < B -> 0 < d -> 0 < N' -> 0 < K ->
  Permutation sigma (seq 0 K) ->
  RandLANet.random_sample feature (permute_last sigma pool_idx)
  = RandLANet.random_sample feature pool_idx.
Proof.
  intros Hf Hp Hr HB Hd HN' HK HP.
  assert (Hp' : has_shape (permute_last sigma pool_idx) [B; N'; K]).
  { rewrite <- (proj2 Hp). apply has_shape_permute_last. }
  assert (Hr' : Forall (in_range N) (data (permute_last sigma pool_idx))).
  { apply Forall_permute_last with (K := K); auto; try apply Hp.
    - rewrite (proj2 Hp). discriminate.
    - rewrite (proj2 Hp). reflexivity. }
  destruct (@random_sample_spec feature pool_idx B d N N' K) as (o & Eo & Ho & Hv); auto.
  destruct (@random_sample_spec feature (permute_last sigma pool_idx) B d N N' K)
    as (o' & Eo' & Ho' & Hv'); auto.
  rewrite Eo, Eo'. f_equal.
  apply tensor_ext; [apply Ho' | apply Ho | |].
  - rewrite (proj2 Ho), (proj2 Ho'). reflexivity.
  - rewrite (proj2 Ho'). intros idx Hb.
    destruct idx as [|b [|c [|n [|z [|]]]]]; simpl in Hb; try tauto.
    destruct Hb as (Hb & Hc & Hn & Hz & _). assert (z = 0) by lia. subst z.
    rewrite Hv, Hv' by assumption.
    transitivity (Rmaximum (map (fun k => (fun j => tget feature
                      [b; c; Z.to_nat (tget pool_idx [b; n; j]); 0]) (nth k sigma 0)) (seq 0 K))).
    + f_equal. apply map_ext_in. intros k Hk. apply in_seq in Hk.
      do 3 f_equal.
      rewrite tget_permute_last3 with (s0 := B) (s1 := N') (s2 := K); auto; try lia.
      apply Hp.
    + apply Rmaximum_perm.
      apply (@perm_reindex R (fun j => tget feature
                      [b; c; Z.to_nat (tget pool_idx [b; n; j]); 0]) sigma K HP).
Qed.

(** ** Attentive pooling in [float32] arithmetic *)

(** In exact arithmetic the layers over an element arithmetic are the layers
    of the model. *)
Lemma LeakyReLU_exact (alpha : R) (x : tensor R) :
  Rounded.LeakyReLU exact alpha x = nn.LeakyReLU alpha x.
Proof.
  unfold Rounded.LeakyReLU, nn.LeakyReLU, tmap. f_equal. apply map_ext. intros v.
  cbn [a_leb a_zero a_mul exact]. now destruct (Rle_dec 0 v).
Qed.

Lemma SharedMLP_exact (cin cout : nat) (alpha : R) (bias : bool) (p : mlp_params)
    (x : tensor R) :
  Rounded.SharedMLP_construct exact cin cout true (Some alpha) bias (exact_mlp_params p) x
  = SharedMLP.construct (SharedMLP.init cin cout false true (Some alpha) bias p) x.
Proof.
  unfold Rounded.SharedMLP_construct, SharedMLP.construct, SharedMLP.init.
  cbn [SharedMLP.conv SharedMLP.has_bn SharedMLP.batch_norm SharedMLP.activation_fn].
  change (Rounded.Conv2d_construct exact cin cout (Rounded.p_weight (exact_mlp_params p))
            (if bias then Some (Rounded.p_bias (exact_mlp_params p)) else None) x)
    with (nn.Conv2d_construct
            (nn.mkConv2d false cin cout (p_weight p) (if bias then Some (p_bias p) else None)) x).
  destruct (nn.Conv2d_construct _ x) as [y|]; [|reflexivity]. cbn [bind].
  change (Rounded.BatchNorm2d_construct exact cout (a_1e_6 exact)
            (Rounded.p_gamma (exact_mlp_params p)) (Rounded.p_beta (exact_mlp_params p))
            (Rounded.p_stats (exact_mlp_params p)) y)
    with (nn.BatchNorm2d_construct
            (nn.mkBatchNorm2d cout 1e-6 (p_gamma p) (p_beta p) (p_stats p)) y).
  destruct (nn.BatchNorm2d_construct _ y) as [z|]; [|reflexivity]. cbn [bind].
  now rewrite LeakyReLU_exact.
Qed.

Lemma scores_exact (d_in d_out : nat) (bias : bool) (p : pool_params) (x : tensor R) :
  Rounded.scores exact d_in (exact_pool_params p) x
  = AttentivePooling.scores (AttentivePooling.init d_in d_out bias p) x.
Proof. reflexivity. Qed.

Lemma construct_exact (d_in d_out : nat) (bias : bool) (p : pool_params) (x : tensor R) :
  Rounded.construct exact d_in d_out bias (exact_pool_params p) x
  = AttentivePooling.construct (AttentivePooling.init d_in d_out bias p) x.
Proof.
  unfold Rounded.construct, AttentivePooling.construct.
  rewrite (scores_exact d_in d_out bias).
  destruct (AttentivePooling.scores _ x) as [s|]; [|reflexivity]. cbn [bind].
  change (tmap2 (a_mul exact) s x) with (tmap2 Rmult s x).
  destruct (tmap2 Rmult s x) as [f|]; [|reflexivity]. cbn [bind].
  change (Rounded.ReduceSum exact true f (-1)) with (P.ReduceSum true f (-1)).
  destruct (P.ReduceSum true f (-1)) as [g|]; [|reflexivity]. cbn [bind].
  apply SharedMLP_exact.
Qed.

Lemma tget_const {A} `{Dflt A} (t : tensor A) (v : A) (idx : list nat) :
  Forall (eq v) (data t) -> dflt = v -> tget t idx = v.
Proof.
  intros Hall Hd. unfold tget.
  destruct (nth_in_or_default (ravel (shape t) idx) (data t) dflt) as [Hin | E].
  - symmetry. exact (proj1 (Forall_forall _ _) Hall _ Hin).
  - now rewrite E.
Qed.

(** The softmax of equal logits. *)
Lemma Softmax_const {F} {dF : Dflt F} (ar : arith F) (axis : Z) (x : tensor F) (v : F) :
  Forall (eq v) (data x) -> dflt = v ->
  Rounded.Softmax ar axis x
  = (a <- norm_axis (rank x) axis ;;
     Some (build (shape x)
                 (fun _ => a_div ar (a_exp ar v)
                             (a_sum ar (map (fun _ => a_exp ar v)
                                            (seq 0 (nth a (shape x) 0))))))).
Proof.
  intros Hall Hd. unfold Rounded.Softmax.
  destruct (norm_axis (rank x) axis) as [a|]; [|reflexivity]. cbn [bind]. f_equal.
  apply build_ext. intros idx _. rewrite (tget_const _ _ Hall Hd). f_equal. f_equal.
  apply map_ext. intros k. now rewrite (tget_const _ _ Hall Hd).
Qed.

(** With the score weights 0 every logit is 0, whatever the input; the
    scores are then computed from [exp 0 = 1] alone. *)
Ltac run_to_softmax :=
  unfold Rounded.scores, Rounded.score_fn;
  match goal with
  | |- context [transpose [0; 2; 3; 1] ?x] =>
      let t := eval vm_compute in (transpose [0; 2; 3; 1] x) in
      replace (transpose [0; 2; 3; 1] x) with t by (vm_compute; reflexivity)
  end;
  cbn [bind];
  match goal with
  | |- context [Rounded.Dense_construct ?ar ?i ?o ?w ?b ?x] =>
      let t := eval vm_compute in (Rounded.Dense_construct ar i o w b x) in
      replace (Rounded.Dense_construct ar i o w b x) with t by (vm_compute; reflexivity)
  end;
  cbn [bind].

Ltac even_scores H :=
  run_to_softmax;
  rewrite (@Softmax_const _ _ _ _ _ (S754_zero false))
    by (try reflexivity; repeat constructor);
  cbn [a_exp binary32]; rewrite H; vm_compute; reflexivity.

Lemma scores_of_three (exp : float32 -> float32)
    (sum : (float32 -> float32 -> float32) -> float32 -> list float32 -> float32) :
  exp (f32_of_Z 0) = f32_of_Z 1 -> In sum accumulation_orders ->
  Rounded.scores (binary32 exp sum) 1 f32_even_pool_params f32_three_neighbours
  = Some (mkTensor [1; 1; 1; 3]
            [S754_finite false 11184811 (-25); S754_finite false 11184811 (-25);
             S754_finite false 11184811 (-25)]).
Proof.
  intros H Hin. vm_compute in H.
  destruct Hin as [<- | [<- | [<- | []]]]; even_scores H.
Qed.

Lemma scores_of_four (exp : float32 -> float32)
    (sum : (float32 -> float32 -> float32) -> float32 -> list float32 -> float32)
    (x : tensor float32) :
  exp (f32_of_Z 0) = f32_of_Z 1 -> In sum accumulation_orders ->
  x = f32_cancelling_neighbours \/ x = permute_last [2; 0; 3; 1] f32_cancelling_neighbours ->
  Rounded.scores (binary32 exp sum) 1 f32_even_pool_params x
  = Some (mkTensor [1; 1; 1; 4]
            [S754_finite false 8388608 (-25); S754_finite false 8388608 (-25);
             S754_finite false 8388608 (-25); S754_finite false 8388608 (-25)]).
Proof.
  intros H Hin Hx. vm_compute in H.
  destruct Hx as [-> | ->]; destruct Hin as [<- | [<- | [<- | []]]]; even_scores H.
Qed.

(** C6: on a non-empty input of shape (B, d_in, N, K),
    [AttentivePooling.construct] computes one score per batch element,
    channel, point and neighbour, the softmax over the K neighbours of the
    output of a dense layer without bias: the exponential of the entry
    divided by the sum of the K exponentials; it multiplies the scores with
    the input elementwise, sums over the neighbours and applies the output
    [SharedMLP], which gives a tensor of shape (B, d_out, N, 1).  That the K
    scores sum to 1 is left out: in [float32] they do so only up to
    rounding, see [C6_scores_sum_counterexample]. *)
Theorem C6_attentive_pooling (d_in d_out : nat) (bias : bool) (p : pool_params)
    (x : tensor R) (B N K : nat) :
  has_shape x [B; d_in; N; K] ->
  0 < B -> 0 < d_in -> 0 < N -> 0 < K ->
  exists scores features out,
    AttentivePooling.scores (AttentivePooling.init d_in d_out bias p) x = Some scores
    /\ has_shape scores [B; d_in; N; K]
    /\ (forall b c n k, b < B -> c < d_in -> n < N -> k < K ->
          tget scores [b; c; n; k] = attention_score (score_weight p) x d_in K b c n k)
    /\ has_shape features [B; d_in; N; 1]
    /\ (forall b c n, b < B -> c < d_in -> n < N ->
          tget features [b; c; n; 0]
          = Rsum (map (fun k => (tget scores [b; c; n; k] * tget x [b; c; n; k])%R)
                      (seq 0 K)))
    /\ AttentivePooling.construct (AttentivePooling.init d_in d_out bias p) x
       = SharedMLP.construct
           (AttentivePooling.mlp (AttentivePooling.init d_in d_out bias p)) features
    /\ AttentivePooling.construct (AttentivePooling.init d_in d_out bias p) x = Some out
    /\ has_shape out [B; d_out; N; 1].
Proof.
  intros [W E] HB Hd HN HK.
  destruct (@AttentivePooling_spec d_in d_out bias p x B N K E HN)
    as (s & f & out & Es & Hs & Hv & Hf & Hfv & Ec & Eo & Ho).
  exists s, f, out. repeat split; try assumption; try apply Hs; try apply Hf; try apply Ho.
  now rewrite Ec.
Qed.

Lemma C6_attentive_pooling_witness :
  exists scores features out,
    AttentivePooling.scores (AttentivePooling.init 1 1 true unit_pool_params) example_x = Some scores
    /\ has_shape scores [1; 1; 1; 2]
    /\ (forall b c n k, b < 1 -> c < 1 -> n < 1 -> k < 2 ->
          tget scores [b; c; n; k]
          = attention_score (score_weight unit_pool_params)
                            example_x 1 2 b c n k)
    /\ has_shape features [1; 1; 1; 1]
    /\ (forall b c n, b < 1 -> c < 1 -> n < 1 ->
          tget features [b; c; n; 0]
          = Rsum (map (fun k => (tget scores [b; c; n; k]
                                 * tget example_x [b; c; n; k])%R)
                      (seq 0 2)))
    /\ AttentivePooling.construct (AttentivePooling.init 1 1 true unit_pool_params) example_x
       = SharedMLP.construct (AttentivePooling.mlp (AttentivePooling.init 1 1 true unit_pool_params)) features
    /\ AttentivePooling.construct (AttentivePooling.init 1 1 true unit_pool_params) example_x = Some out
    /\ has_shape out [1; 1; 1; 1].
Proof.
  apply (@C6_attentive_pooling 1 1 true unit_pool_params example_x 1 1 2).
  - split; reflexivity.
  - lia.
  - lia.
  - lia.
  - lia.
Defined.

(** C6, the scores do not sum to 1: in [binary32], with score weights 0,
    each of three neighbours gets the score nearest to 1/3, which is
    11184811 / 2^25, and the three scores sum to 1 + 2^-25, whatever the
    order in which the kernels accumulate. *)
Lemma C6_scores_sum_counterexample :
  has_shape f32_three_neighbours [1; 1; 1; 3]
  /\ forall exp sum,
       exp (f32_of_Z 0) = f32_of_Z 1 -> In sum accumulation_orders ->
       exists scores,
         Rounded.scores (binary32 exp sum) 1 f32_even_pool_params f32_three_neighbours
         = Some scores
         /\ Rsum (map (fun k => f32_to_R (tget scores [0; 0; 0; k])) (seq 0 3))
            = (1 + / 2 ^ 25)%R
         /\ Rsum (map (fun k => f32_to_R (tget scores [0; 0; 0; k])) (seq 0 3)) <> 1%R.
Proof.
  split; [split; reflexivity|].
  intros exp sum H Hin. eexists. split; [exact (scores_of_three exp H Hin)|].
  assert (E : Rsum (map (fun k => f32_to_R (tget (mkTensor [1; 1; 1; 3]
                 [S754_finite false 11184811 (-25); S754_finite false 11184811 (-25);
                  S754_finite false 11184811 (-25)]) [0; 0; 0; k])) (seq 0 3))
              = (1 + / 2 ^ 25)%R).
  { cbv [Rsum map seq fold_right tget nth ravel shape data prod Nat.mul Nat.add f32_to_R
         powerRZ Pos.to_nat Pos.iter_op Nat.add].
    field. }
  split; [exact E|]. intros Hc. pose proof (eq_trans (eq_sym E) Hc) as Hc'.
  assert (0 < / 2 ^ 25)%R by (apply Rinv_0_lt_compat, pow_lt; lra). lra.
Qed.

(** C7: [random_sample] does not depend on the order of the candidates:
    rearranging the last axis of [pool_idx] by a permutation leaves the
    result unchanged, a maximum being the same in any order.  Nothing of the
    kind is stated of [AttentivePooling.construct], whose [float32] sums over
    the neighbours depend on their order: see
    [C7_attentive_pooling_counterexample]. *)
Theorem C7_random_sample_order_invariance (feature : tensor R) (pool_idx : tensor Z)
    (tau : list nat) (B d N N' K : nat) :
  has_shape feature [B; d; N; 1] ->
  has_shape pool_idx [B; N'; K] ->
  Forall (in_range N) (data pool_idx) ->
  0 < B -> 0 < d -> 0 < N' -> 0 < K ->
  Permutation tau (seq 0 K) ->
  exists out,
    RandLANet.random_sample feature pool_idx = Some out
    /\ RandLANet.random_sample feature (permute_last tau pool_idx) = Some out.
Proof.
  intros Hf Hp Hr HB Hd HN HK Ht.
  destruct (@random_sample_spec feature pool_idx B d N N' K Hf Hp Hr HB Hd HN HK)
    as (out & E & _).
  exists out. split; [exact E|].
  rewrite <- E. now apply random_sample_permutation with (B := B) (d := d) (N := N) (N' := N') (K := K).
Qed.

Lemma C7_random_sample_order_witness :
  exists out,
    RandLANet.random_sample example_feature example_pool_idx = Some out
    /\ RandLANet.random_sample example_feature (permute_last [1; 0] example_pool_idx)
       = Some out.
Proof.
  apply (@C7_random_sample_order_invariance example_feature example_pool_idx [1; 0]
           1 1 3 2 2).
  - split; reflexivity.
  - split; reflexivity.
  - repeat constructor; unfold in_range; simpl; lia.
  - lia.
  - lia.
  - lia.
  - lia.
  - apply perm_swap.
Defined.

(** C7, attentive pooling depends on the order of the neighbours: in
    [binary32], with equal scores 1/4, the weighted neighbours 2^25, -2^25, 1
    and 0 sum to 1 or to 0 according to whether the two large terms meet
    before the 1 is added to one of them.  Rearranging the four neighbours
    changes the output, whether the kernels accumulate from the left, from the
    right or in pairs. *)
Lemma C7_attentive_pooling_counterexample :
  has_shape f32_cancelling_neighbours [1; 1; 1; 4]
  /\ Permutation [2; 0; 3; 1] (seq 0 4)
  /\ forall exp sum,
       exp (f32_of_Z 0) = f32_of_Z 1 -> In sum accumulation_orders ->
       exists out out',
         Rounded.construct (binary32 exp sum) 1 1 true f32_even_pool_params
                           f32_cancelling_neighbours = Some out
         /\ Rounded.construct (binary32 exp sum) 1 1 true f32_even_pool_params
                              (permute_last [2; 0; 3; 1] f32_cancelling_neighbours)
            = Some out'
         /\ out <> out'.
Proof.
  split; [split; reflexivity|]. split.
  { apply perm_trans with [0; 2; 3; 1]; [apply perm_swap|]. apply perm_skip.
    apply perm_trans with [2; 1; 3]; [apply perm_skip, perm_swap | apply perm_swap]. }
  intros exp sum H Hin. unfold Rounded.construct.
  rewrite (@scores_of_four exp sum f32_cancelling_neighbours H Hin) by (left; reflexivity).
  rewrite (@scores_of_four exp sum (permute_last [2; 0; 3; 1] f32_cancelling_neighbours)
             H Hin) by (right; reflexivity).
  cbn [bind].
  destruct Hin as [<- | [<- | [<- | []]]];
    (eexists; eexists; split; [vm_compute; reflexivity|];
     split; [vm_compute; reflexivity | discriminate]).
Qed.
(** ** Entries that are only selected or maximised *)

Lemma tget_Q {A} `{Dflt A} (Q : A -> Prop) (x : tensor A) (idx : list nat) :
  Q dflt -> Forall Q (data x) -> Q (tget x idx).
Proof.
  intros Qd HQ. unfold tget.
  destruct (nth_in_or_default (ravel (shape x) idx) (data x) dflt) as [Hin|E].
  - rewrite Forall_forall in HQ. now apply HQ.
  - now rewrite E.
Qed.

Lemma Forall_sel_build {A} `{Dflt A} (Q : A -> Prop) (sh : list nat) (x : tensor A)
    (sel : list nat -> list nat) :
  Q dflt -> Forall Q (data x) ->
  Forall Q (data (build sh (fun idx => tget x (sel idx)))).
Proof. intros Qd HQ. apply Forall_build. intros idx _. now apply tget_Q. Qed.

Lemma expand_dims_data {A} (axis : Z) (x y : tensor A) :
  expand_dims axis x = Some y -> data y = data x.
Proof.
  unfold expand_dims. intros E. apply bind_Some in E as (a & _ & E).
  now injection E as <-.
Qed.

Lemma squeeze_data {A} (axis : Z) (x y : tensor A) :
  squeeze axis x = Some y -> data y = data x.
Proof.
  unfold squeeze. intros E. apply bind_Some in E as (a & _ & E).
  apply bind_Some in E as (u & _ & E). now injection E as <-.
Qed.

Lemma reshape_data {A} (spec : list (option nat)) (x y : tensor A) :
  reshape spec x = Some y -> data y = data x.
Proof.
  unfold reshape. intros E. destruct (wildcards spec) as [|[|w]]; [| |discriminate].
  - apply bind_Some in E as (u & _ & E). now injection E as <-.
  - apply bind_Some in E as (u & _ & E). now injection E as <-.
Qed.

Lemma transpose_Q {A} `{Dflt A} (Q : A -> Prop) (perm : list nat) (x y : tensor A) :
  transpose perm x = Some y -> Q dflt -> Forall Q (data x) -> Forall Q (data y).
Proof.
  unfold transpose. intros E Qd HQ. apply bind_Some in E as (u & _ & E).
  injection E as <-. now apply Forall_sel_build.
Qed.

Lemma Tile_Q {A} `{Dflt A} (Q : A -> Prop) (x y : tensor A) (m : list nat) :
  P.Tile x m = Some y -> Q dflt -> Forall Q (data x) -> Forall Q (data y).
Proof.
  unfold P.Tile. intros E Qd HQ. apply bind_Some in E as (u & _ & E).
  injection E as <-. now apply Forall_sel_build.
Qed.

Lemma GatherD_Q {A} `{Dflt A} (Q : A -> Prop) (x y : tensor A) (dim : Z) (index : tensor Z) :
  P.GatherD x dim index = Some y -> Q dflt -> Forall Q (data x) -> Forall Q (data y).
Proof.
  unfold P.GatherD. intros E Qd HQ. apply bind_Some in E as (a & _ & E).
  apply bind_Some in E as (u & _ & E). apply bind_Some in E as (v & _ & E).
  injection E as <-. apply Forall_build. intros idx _. now apply tget_Q.
Qed.

Lemma Rmaximum_Q (Q : R -> Prop) (l : list R) :
  Q 0%R -> Forall Q l -> Q (Rmaximum l).
Proof.
  intros Q0 HQ. destruct l as [|x l]; [exact Q0|].
  rewrite Forall_forall in HQ. apply HQ. apply Rmaximum_In. discriminate.
Qed.

Lemma ReduceMax_Q (Q : R -> Prop) (keep_dims : bool) (x y : tensor R) (axis : Z) :
  P.ReduceMax keep_dims x axis = Some y -> Q 0%R -> Forall Q (data x) -> Forall Q (data y).
Proof.
  unfold P.ReduceMax. intros E Q0 HQ. apply bind_Some in E as (a & _ & E).
  apply bind_Some in E as (u & _ & E). injection E as <-.
  apply Forall_build. intros idx _. apply Rmaximum_Q; [exact Q0|].
  apply Forall_forall. intros v Hv. apply in_map_iff in Hv as (k & <- & _).
  now apply (tget_Q (H := Dflt_R)).
Qed.

Lemma random_sample_Q (Q : R -> Prop) (feature y : tensor R) (pool_idx : tensor Z) :
  RandLANet.random_sample feature pool_idx = Some y ->
  Q 0%R -> Forall Q (data feature) -> Forall Q (data y).
Proof.
  unfold RandLANet.random_sample. intros E Q0 HQ.
  apply bind_Some in E as (b & _ & E). apply bind_Some in E as (d & _ & E).
  apply bind_Some in E as (n_ & _ & E). apply bind_Some in E as (i1 & _ & E).
  apply bind_Some in E as (i2 & _ & E). apply bind_Some in E as (i3 & _ & E).
  apply bind_Some in E as (sq & Esq & E). apply bind_Some in E as (g & Eg & E).
  apply bind_Some in E as (r & Er & E).
  eapply ReduceMax_Q; [exact E | exact Q0 |].
  erewrite reshape_data by exact Er.
  eapply (GatherD_Q (H := Dflt_R)); [exact Eg | exact Q0 |].
  erewrite squeeze_data by exact Esq. exact HQ.
Qed.

Lemma gather_neighbour_raw_Q {A} `{Dflt A} (Q : A -> Prop) (pc y : tensor A)
    (neighbor_idx : tensor Z) :
  RandLANet.gather_neighbour_raw pc neighbor_idx = Some y ->
  Q dflt -> Forall Q (data pc) -> Forall Q (data y).
Proof.
  unfold RandLANet.gather_neighbour_raw. intros E Qd HQ.
  apply bind_Some in E as (i1 & _ & E). apply bind_Some in E as (i2 & _ & E).
  apply bind_Some in E as (k & _ & E). apply bind_Some in E as (p1 & Ep1 & E).
  apply bind_Some in E as (p2 & Ep2 & E). apply bind_Some in E as (xt & Ext & E).
  apply bind_Some in E as (g & Eg & E).
  eapply transpose_Q; [exact E | exact Qd |].
  eapply GatherD_Q; [exact Eg | exact Qd |].
  eapply Tile_Q; [exact Ext | exact Qd |].
  erewrite expand_dims_data by exact Ep2.
  eapply transpose_Q; [exact Ep1 | exact Qd | exact HQ].
Qed.

Lemma gather_neighbour_binary (pc : dtensor) (neighbor_idx : tensor Z) (y : tensor R) :
  RandLANet.gather_neighbour pc neighbor_idx = Some y ->
  binary_dtensor pc -> Forall binary (data y).
Proof.
  unfold RandLANet.gather_neighbour. destruct pc as [t|t]; intros E Hb; simpl in Hb.
  - apply bind_Some in E as (g & Eg & E). injection E as <-. simpl.
    apply Forall_map.
    eapply gather_neighbour_raw_Q with (Q := fun z => binary (IZR z)); [exact Eg | |].
    + now left.
    + eapply Forall_impl; [|exact Hb]. intros z [-> | ->]; [now left | now right].
  - apply bind_Some in E as (g & Eg & E). injection E as <-. simpl.
    eapply (gather_neighbour_raw_Q (H := Dflt_R)); [exact Eg | now left | exact Hb].
Qed.

Lemma pool_labels_binary (label : dtensor) (neighbor_idx sub_idx : tensor Z) (y : tensor R) :
  RandLANet.pool_labels label neighbor_idx sub_idx = Some y ->
  binary_dtensor label -> Forall binary (data y).
Proof.
  unfold RandLANet.pool_labels. intros E Hb.
  assert (B0 : binary 0%R) by now left.
  apply bind_Some in E as (g1 & Eg1 & E). apply bind_Some in E as (m1 & Em1 & E).
  apply bind_Some in E as (g2 & Eg2 & E). apply bind_Some in E as (m2 & Em2 & E).
  apply bind_Some in E as (x1 & Ex1 & E). apply bind_Some in E as (x2 & Ex2 & E).
  apply bind_Some in E as (r1 & Er1 & E). apply bind_Some in E as (r2 & Er2 & E).
  unfold P.Squeeze in E. erewrite squeeze_data by exact E.
  eapply (transpose_Q (H := Dflt_R)); [exact Er2 | exact B0 |].
  eapply random_sample_Q; [exact Er1 | exact B0 |].
  eapply (transpose_Q (H := Dflt_R)); [exact Ex2 | exact B0 |].
  erewrite expand_dims_data by exact Ex1.
  eapply ReduceMax_Q; [exact Em2 | exact B0 |].
  eapply gather_neighbour_binary; [exact Eg2 |]. simpl.
  eapply ReduceMax_Q; [exact Em1 | exact B0 |].
  eapply gather_neighbour_binary; [exact Eg1 | exact Hb].
Qed.

Lemma onehot_cast_binary (depth : nat) (labels : tensor Z) :
  binary_dtensor (TInt32 (P.cast_int32 (nn.OneHot depth labels))).
Proof.
  simpl. apply Forall_map. unfold nn.OneHot. apply Forall_build. intros idx _.
  destruct (_ =? _)%Z.
  - right. unfold Rtrunc. destruct (Rle_dec 0 1) as [_|C]; [|exfalso; apply C; lra].
    symmetry. apply Int_part_spec. simpl. lra.
  - left. unfold Rtrunc. destruct (Rle_dec 0 0) as [_|C]; [|exfalso; apply C; lra].
    symmetry. apply Int_part_spec. simpl. lra.
Qed.

(** ** Pooling of the labels on well-shaped arguments *)

Lemma has_shape_same_data {A} (t : tensor A) (sh sh' : list nat) :
  has_shape t sh -> prod sh' = prod sh -> has_shape (mkTensor sh' (data t)) sh'.
Proof.
  intros [W S] E. split; [|reflexivity]. unfold wf in *; simpl. now rewrite W, S, E.
Qed.

(** [P.Tile(idx.expand_dims(1), (1, c, 1, 1))] of an index tensor. *)
Lemma extended_idx_ok (idx : tensor Z) (B N K c M : nat) :
  has_shape idx [B; N; K] -> Forall (in_range M) (data idx) -> 0 < M ->
  0 < B -> 0 < N -> 0 < K -> 0 < c ->
  exists idx1 e,
    expand_dims 1 idx = Some idx1
    /\ P.Tile idx1 [1; c; 1; 1] = Some e
    /\ has_shape e [B; c; N; K]
    /\ Forall (in_range M) (data e).
Proof.
  intros [W S] Hr HM HB HN HK Hc.
  rewrite expand_dims_spec with (a := 1) by (unfold rank; rewrite S; reflexivity).
  rewrite S. cbn [insert_at firstn skipn app].
  eexists. eexists. split; [reflexivity|].
  rewrite Tile_channel with (B := B) (N := N) (K := K) by side.
  split; [reflexivity|]. split; [apply has_shape_build|].
  apply Forall_sel_build; [unfold in_range, dflt, Dflt_Z; lia | exact Hr].
Qed.

Lemma gather_neighbour_raw_ok {A} `{Dflt A} (pc : tensor A) (idx : tensor Z) (B N K : nat) :
  has_shape pc [B; N; 13] -> has_shape idx [B; N; K] ->
  Forall (in_range N) (data idx) -> 0 < N -> 0 < B -> 0 < K ->
  exists g, RandLANet.gather_neighbour_raw pc idx = Some g /\ has_shape g [B; N; K; 13].
Proof.
  intros [Wp Sp] Hi Hr HN HB HK. unfold RandLANet.gather_neighbour_raw.
  destruct (@extended_idx_ok idx B N K 13 N Hi Hr HN) as (i1 & e & E1 & E2 & He & Hre); [side .. |].
  step E1. step E2.
  rewrite (proj2 Hi). change (py_nth [B; N; K] (-1)) with (Some K). cbn [bind].
  rewrite transpose_021 with (s0 := B) (s1 := N) (s2 := 13) by exact Sp. cbn [bind].
  rewrite expand_dims_spec with (a := 3) by reflexivity. cbn [bind].
  rewrite shape_build. cbn [insert_at firstn skipn app].
  rewrite Tile_last with (B := B) (C := 13) (N := N) (K := K) by side. cbn [bind].
  rewrite GatherD_spec with (a := 2);
    [| reflexivity | rewrite (proj2 He); reflexivity | exact Hre].
  cbn [bind]. rewrite (proj2 He).
  rewrite transpose_0231 with (s0 := B) (s1 := 13) (s2 := N) (s3 := K) by reflexivity.
  eexists. split; [reflexivity | apply has_shape_build].
Qed.

Lemma gather_neighbour_ok (pc : dtensor) (idx : tensor Z) (B N K : nat) :
  dwf pc -> dshape pc = [B; N; 13] -> has_shape idx [B; N; K] ->
  Forall (in_range N) (data idx) -> 0 < N -> 0 < B -> 0 < K ->
  exists g, RandLANet.gather_neighbour pc idx = Some g /\ has_shape g [B; N; K; 13].
Proof.
  intros Wp Sp Hi Hr HN HB HK. unfold RandLANet.gather_neighbour.
  destruct pc as [t|t]; simpl in Wp, Sp.
  - destruct (@gather_neighbour_raw_ok Z _ t idx B N K (conj Wp Sp) Hi Hr HN) as (g & E & Hg); [side .. |].
    step E. eexists. split; [reflexivity|].
    simpl. now apply has_shape_tmap.
  - destruct (@gather_neighbour_raw_ok R _ t idx B N K (conj Wp Sp) Hi Hr HN) as (g & E & Hg); [side .. |].
    step E. eexists. split; [reflexivity | exact Hg].
Qed.

Lemma ReduceMax_axis2_ok (g : tensor R) (B N K C : nat) :
  has_shape g [B; N; K; C] -> 0 < K ->
  exists m, P.ReduceMax false g 2 = Some m /\ has_shape m [B; N; C].
Proof.
  intros [W S] HK.
  rewrite ReduceMax_spec with (a := 2);
    [| unfold rank; rewrite S; reflexivity | rewrite S; cbn; lia].
  rewrite S. eexists. split; [reflexivity | apply has_shape_build].
Qed.

Lemma pool_labels_ok (label : dtensor) (neighbor_idx sub_idx : tensor Z)
    (B N N' K Ks : nat) :
  dwf label -> dshape label = [B; N; 13] ->
  has_shape neighbor_idx [B; N; K] -> Forall (in_range N) (data neighbor_idx) ->
  has_shape sub_idx [B; N'; Ks] -> Forall (in_range N) (data sub_idx) ->
  0 < B -> 0 < N -> 0 < N' -> 0 < K -> 0 < Ks ->
  exists t, RandLANet.pool_labels label neighbor_idx sub_idx = Some t
            /\ has_shape t [B; N'; 13].
Proof.
  intros Wl Sl Hn Hrn Hs Hrs HB HN HN' HK HKs. unfold RandLANet.pool_labels.
  destruct (@gather_neighbour_ok label neighbor_idx B N K Wl Sl Hn Hrn HN) as (g1 & E1 & Hg1); [side .. |].
  step E1.
  destruct (@ReduceMax_axis2_ok g1 B N K 13 Hg1 HK) as (m1 & Em1 & Hm1).
  step Em1.
  destruct (@gather_neighbour_ok (TFloat32 m1) neighbor_idx B N K (proj1 Hm1) (proj2 Hm1)
              Hn Hrn HN) as (g2 & E2 & Hg2); [side .. |].
  step E2.
  destruct (@ReduceMax_axis2_ok g2 B N K 13 Hg2 HK) as (m2 & Em2 & Hm2).
  step Em2.
  rewrite expand_dims_spec with (a := 2) by (unfold rank; rewrite (proj2 Hm2); reflexivity).
  cbn [bind]. rewrite (proj2 Hm2). cbn [insert_at firstn skipn app].
  rewrite transpose_0312 with (s0 := B) (s1 := N) (s2 := 1) (s3 := 13) by reflexivity.
  cbn [bind].
  destruct (@random_sample_spec (build [B; 13; N; 1]
              (fun idx => tget {| shape := [B; N; 1; 13]; data := data m2 |}
                               [nth 0 idx 0; nth 2 idx 0; nth 3 idx 0; nth 1 idx 0]))
              sub_idx B 13 N N' Ks) as (r & Er & Hr & _); auto; try lia.
  { apply has_shape_build. }
  step Er.
  rewrite transpose_0231 with (s0 := B) (s1 := 13) (s2 := N') (s3 := 1) by apply Hr.
  cbn [bind]. unfold P.Squeeze.
  rewrite squeeze_spec with (a := 2) by reflexivity.
  rewrite shape_build. cbn [remove_at firstn skipn app].
  eexists. split; [reflexivity|].
  apply has_shape_same_data with (sh := [B; N'; 1; 13]); [apply has_shape_build | cbn; lia].
Qed.

(** ** Local spatial encoding and feature aggregation on well-shaped arguments *)

Lemma Concat2_channels_ok (axis : Z) (t1 t2 : tensor R) (B c1 c2 N K : nat) :
  norm_axis 4 axis = Some 1 ->
  shape t1 = [B; c1; N; K] -> shape t2 = [B; c2; N; K] ->
  exists out, P.Concat2 axis t1 t2 = Some out /\ has_shape out [B; c1 + c2; N; K].
Proof.
  intros Ea E1 E2. unfold P.Concat2, rank. rewrite E1, E2. cbn [length].
  rewrite Ea. cbn [bind remove_at firstn skipn app Nat.eqb andb].
  rewrite shape_eqb_refl. cbn [guard bind nth replace_at firstn skipn app].
  eexists. split; [reflexivity | apply has_shape_build].
Qed.

Lemma Concat_pair_ok (axis : Z) (t1 t2 : tensor R) (B c1 c2 N K : nat) :
  norm_axis 4 axis = Some 1 ->
  shape t1 = [B; c1; N; K] -> shape t2 = [B; c2; N; K] ->
  exists out, P.Concat axis [t1; t2] = Some out /\ has_shape out [B; c1 + c2; N; K].
Proof.
  intros Ea E1 E2. cbn [P.Concat P.Concat_from].
  destruct (@Concat2_channels_ok axis t1 t2 B c1 c2 N K Ea E1 E2) as (o & E & Ho).
  step E. now exists o.
Qed.

Lemma ReduceSum_channels_ok (x : tensor R) (axis : Z) (B C N K : nat) :
  norm_axis 4 axis = Some 1 -> shape x = [B; C; N; K] ->
  exists out, P.ReduceSum true x axis = Some out /\ has_shape out [B; 1; N; K].
Proof.
  intros Ea E. rewrite ReduceSum_spec with (a := 1) by (unfold rank; rewrite E; exact Ea).
  rewrite E. eexists. split; [reflexivity | apply has_shape_build].
Qed.

Lemma LSE_pos_ok (out_channel : nat) (bias : bool) (p : mlp_params)
    (coords features : tensor R) (idx : tensor Z) (B N K : nat) :
  has_shape coords [B; N; 3] -> has_shape features [B; out_channel; N; 1] ->
  has_shape idx [B; N; K] -> Forall (in_range N) (data idx) -> 0 < N ->
  0 < B -> 0 < K -> 0 < out_channel ->
  exists f_xyz f_concat,
    LocalSpatialEncoding.construct
      (LocalSpatialEncoding.init 10 out_channel true bias p) coords features idx
    = Some (LocalSpatialEncoding.Pair f_xyz f_concat)
    /\ has_shape f_xyz [B; out_channel; N; K]
    /\ has_shape f_concat [B; out_channel + out_channel; N; K].
Proof.
  intros [Wc Sc] [Wf Sf] Hi Hr HN HB HK Hoc.
  unfold LocalSpatialEncoding.construct, LocalSpatialEncoding.init.
  cbn [LocalSpatialEncoding.use_pos_encoding LocalSpatialEncoding.mlp].
  rewrite (proj2 Hi). change (py_nth [B; N; K] (-1)) with (Some K). cbn [bind].
  destruct (@extended_idx_ok idx B N K 3 N Hi Hr HN) as (i1 & e & E1 & E2 & He & Hre); [side .. |].
  step E1. step E2.
  rewrite transpose_021 with (s0 := B) (s1 := N) (s2 := 3) by exact Sc. cbn [bind].
  rewrite expand_dims_spec with (a := 3) by reflexivity. cbn [bind].
  rewrite shape_build. cbn [insert_at firstn skipn app].
  rewrite Tile_last with (B := B) (C := 3) (N := N) (K := K) by side. cbn [bind].
  set (xyz_tile := build [B; 3; N; K] _).
  rewrite GatherD_spec with (a := 2);
    [| reflexivity | rewrite (proj2 He); reflexivity | exact Hre].
  cbn [bind]. rewrite (proj2 He).
  set (neighbor_xyz := build [B; 3; N; K] _).
  rewrite tmap2_same with (sh := [B; 3; N; K]) by reflexivity. cbn [bind].
  set (relative_xyz := build [B; 3; N; K] _).
  destruct (@ReduceSum_channels_ok (P.Square relative_xyz) (-3) B 3 N K)
    as (sq & Esq & Hsq); try reflexivity.
  step Esq.
  cbn [P.Concat P.Concat_from].
  destruct (@Concat2_channels_ok (-3) (P.Sqrt sq) relative_xyz B 1 3 N K)
    as (c1 & Ec1 & Hc1); try reflexivity; try apply Hsq.
  step Ec1.
  destruct (@Concat2_channels_ok (-3) c1 xyz_tile B (1 + 3) 3 N K)
    as (c2 & Ec2 & Hc2); try reflexivity; try apply Hc1.
  step Ec2.
  destruct (@Concat2_channels_ok (-3) c2 neighbor_xyz B (1 + 3 + 3) 3 N K)
    as (c3 & Ec3 & Hc3); try reflexivity; try apply Hc2.
  step Ec3.
  destruct (@SharedMLP_shape 10 out_channel false true (Some 0.2%R) bias p c3 B N K)
    as (f_xyz & Ex & Hx); [apply Hc3 | side | side |].
  step Ex.
  rewrite Tile_last with (B := B) (C := out_channel) (N := N) (K := K) by (first [exact Sf | side]).
  cbn [bind].
  rewrite (proj2 Hx). cbn [nth_error bind].
  destruct (@extended_idx_ok idx B N K out_channel N Hi Hr HN)
    as (i1' & e' & E1' & E2' & He' & Hre'); [side .. |].
  rewrite E1 in E1'. injection E1' as <-.
  step E2'.
  rewrite GatherD_spec with (a := 2);
    [| reflexivity | rewrite (proj2 He'); reflexivity | exact Hre'].
  cbn [bind]. rewrite (proj2 He').
  destruct (@Concat2_channels_ok (-3) f_xyz
              (build [B; out_channel; N; K]
                 (fun idx0 => tget (build [B; out_channel; N; K]
                                      (fun idx1 => tget features (replace_at 3 0 idx1)))
                                   (replace_at 2 (Z.to_nat (tget e' idx0)) idx0)))
              B out_channel out_channel N K)
    as (fc & Efc & Hfc); try reflexivity; try apply Hx.
  step Efc.
  exists f_xyz, fc. auto.
Qed.

Lemma LSE_plain_ok (in_channel out_channel : nat) (bias : bool) (p : mlp_params)
    (coords features : tensor R) (idx : tensor Z) (B N K : nat) :
  has_shape coords [B; in_channel; N; K] -> has_shape features [B; out_channel; N; 1] ->
  has_shape idx [B; N; K] -> Forall (in_range N) (data idx) -> 0 < N ->
  0 < B -> 0 < K -> 0 < out_channel ->
  exists f_concat,
    LocalSpatialEncoding.construct
      (LocalSpatialEncoding.init in_channel out_channel false bias p) coords features idx
    = Some (LocalSpatialEncoding.Single f_concat)
    /\ has_shape f_concat [B; out_channel + out_channel; N; K].
Proof.
  intros [Wc Sc] [Wf Sf] Hi Hr HN HB HK Hoc.
  unfold LocalSpatialEncoding.construct, LocalSpatialEncoding.init.
  cbn [LocalSpatialEncoding.use_pos_encoding LocalSpatialEncoding.mlp].
  rewrite (proj2 Hi). change (py_nth [B; N; K] (-1)) with (Some K). cbn [bind].
  destruct (@SharedMLP_shape in_channel out_channel false true (Some 0.2%R) bias p coords B N K)
    as (f_xyz & Ex & Hx); [exact Sc | side | side |].
  step Ex.
  rewrite Tile_last with (B := B) (C := out_channel) (N := N) (K := K) by (first [exact Sf | side]).
  cbn [bind].
  destruct (@extended_idx_ok idx B N K out_channel N Hi Hr HN)
    as (i1 & e & E1 & E2 & He & Hre); [side .. |].
  step E1.
  rewrite (proj2 Hx). cbn [nth_error bind].
  step E2.
  rewrite GatherD_spec with (a := 2);
    [| reflexivity | rewrite (proj2 He); reflexivity | exact Hre].
  cbn [bind]. rewrite (proj2 He).
  match goal with
  | |- context [P.Concat (-3) [f_xyz; ?g]] =>
      destruct (@Concat_pair_ok (-3) f_xyz g B out_channel out_channel N K)
        as (fc & Efc & Hfc); try reflexivity; try apply Hx
  end.
  step Efc.
  exists fc. auto.
Qed.

Lemma AttentivePooling_ok (d_in d_out : nat) (bias : bool) (p : pool_params)
    (x : tensor R) (B N K : nat) :
  shape x = [B; d_in; N; K] -> 0 < N ->
  exists out,
    AttentivePooling.construct (AttentivePooling.init d_in d_out bias p) x = Some out
    /\ has_shape out [B; d_out; N; 1].
Proof.
  intros E HN.
  destruct (@AttentivePooling_spec d_in d_out bias p x B N K E HN)
    as (s & f & out & _ & _ & _ & _ & _ & Ec & Eo & Ho).
  exists out. split; [now rewrite Ec | exact Ho].
Qed.

Lemma LFA_ok (d_in d_out : nat) (bias : bool) (p : lfa_params)
    (coords features : tensor R) (idx : tensor Z) (B N K : nat) :
  d_out = d_out / 2 + d_out / 2 ->
  has_shape coords [B; N; 3] -> has_shape features [B; d_in; N; 1] ->
  has_shape idx [B; N; K] -> Forall (in_range N) (data idx) -> 0 < N ->
  0 < B -> 0 < K -> 0 < d_out ->
  exists out,
    LocalFeatureAggregation.construct (LocalFeatureAggregation.init d_in d_out bias p)
                                      coords features idx = Some out
    /\ has_shape out [B; 2 * d_out; N; 1].
Proof.
  intros Hd Hc Hf Hi Hr HN HB HK Hdo.
  assert (Hh : 0 < d_out / 2) by lia.
  unfold LocalFeatureAggregation.construct, LocalFeatureAggregation.init.
  cbn [LocalFeatureAggregation.mlp1 LocalFeatureAggregation.mlp2
       LocalFeatureAggregation.shortcut LocalFeatureAggregation.lse1
       LocalFeatureAggregation.lse2 LocalFeatureAggregation.pool1
       LocalFeatureAggregation.pool2 LocalFeatureAggregation.lrelu].
  set (h := d_out / 2) in *.
  destruct (@SharedMLP_shape d_in h false true (Some 0.2%R) bias (mlp1_p p) features B N 1)
    as (f_pc & E1 & H1); [apply Hf | side | side |].
  step E1.
  destruct (@LSE_pos_ok h bias (lse1_p p) coords f_pc idx B N K Hc H1 Hi Hr HN)
    as (f_xyz & f_concat & E2 & Hx & Hcat); [side .. |].
  step E2.
  rewrite <- Hd in Hcat.
  destruct (@AttentivePooling_ok d_out h bias (pool1_p p) f_concat B N K (proj2 Hcat))
    as (agg1 & E3 & H3); [side .. |].
  step E3.
  destruct (@LSE_plain_ok h h bias (lse2_p p) f_xyz agg1 idx B N K Hx H3 Hi Hr HN)
    as (f_concat2 & E4 & Hcat2); [side .. |].
  step E4.
  rewrite <- Hd in Hcat2.
  destruct (@AttentivePooling_ok d_out d_out bias (pool2_p p) f_concat2 B N K (proj2 Hcat2))
    as (agg2 & E5 & H5); [side .. |].
  step E5.
  destruct (@SharedMLP_shape d_out (2 * d_out) false true None bias (mlp2_p p) agg2 B N 1)
    as (a & E6 & H6); [apply H5 | side | side |].
  step E6.
  destruct (@SharedMLP_shape d_in (2 * d_out) false true None bias (shortcut_p p) features B N 1)
    as (b & E7 & H7); [apply Hf | side | side |].
  step E7.
  rewrite tmap2_same with (sh := [B; 2 * d_out; N; 1]); [| apply H6 | apply H7].
  cbn [bind]. eexists. split; [reflexivity|].
  apply has_shape_tmap. apply has_shape_build.
Qed.

(** ** The stem, the head and the supervision branches *)

Lemma stem_ok (d_in num_classes : nat) (bias : bool) (p : net_params)
    (feature : tensor R) (B N : nat) :
  has_shape feature [B; N; d_in] ->
  exists f0, RandLANet.stem (RandLANet.init d_in num_classes bias p) feature = Some f0
             /\ has_shape f0 [B; 8; N; 1].
Proof.
  intros [W S]. unfold RandLANet.stem, RandLANet.init.
  cbn [RandLANet.fc_start RandLANet.bn_start].
  unfold nn.Dense_construct.
  rewrite guard_true by (unfold rank; rewrite S; cbn; now rewrite Nat.eqb_refl).
  cbn [bind nn.dense_in nn.dense_out nn.dense_weight nn.dense_bias].
  unfold rank at 1. rewrite S. cbn [length Nat.sub].
  pose proof (has_shape_linear_on 2 d_in 8 (fc_start_w p) (Some (fc_start_b p)) feature) as Hl.
  rewrite S in Hl. cbn [replace_at firstn skipn app] in Hl.
  set (y := nn.linear_on 2 d_in 8 (fc_start_w p) (Some (fc_start_b p)) feature) in *.
  rewrite swapaxes_last2_rank3 with (B := B) (C := N) (N := 8) by apply Hl.
  cbn [bind].
  rewrite expand_dims_spec with (a := 3) by reflexivity. cbn [bind].
  rewrite shape_build. cbn [insert_at firstn skipn app].
  match goal with
  | |- context [nn.BatchNorm2d_construct ?bn ?x] =>
      destruct (@BatchNorm2d_shape bn x B N 1) as (z & Ez & Hz); [reflexivity|]
  end.
  step Ez. eexists. split; [reflexivity|].
  apply has_shape_tmap. exact Hz.
Qed.

Lemma fc_end_ok (d_in num_classes : nat) (bias : bool) (p : net_params)
    (x : tensor R) (B N : nat) :
  shape x = [B; 32; N; 1] -> 0 < N ->
  exists out, RandLANet.fc_end (RandLANet.init d_in num_classes bias p) x = Some out
              /\ has_shape out [B; num_classes; N; 1].
Proof.
  intros S HN. unfold RandLANet.fc_end, RandLANet.init.
  cbn [RandLANet.fc_end_0 RandLANet.fc_end_1 RandLANet.fc_end_3 RandLANet.fc_end_dropout].
  destruct (@SharedMLP_shape 32 64 false true (Some 0.2%R) bias (fc_end_p p 0) x B N 1 S)
    as (a & Ea & Ha); [side | side |].
  step Ea.
  destruct (@SharedMLP_shape 64 32 false true (Some 0.2%R) bias (fc_end_p p 1) a B N 1
              (proj2 Ha)) as (b & Eb & Hb); [side | side |].
  step Eb.
  apply SharedMLP_shape; [unfold nn.Dropout; rewrite shape_build; apply Hb | side | side].
Qed.

Lemma to_supervised_ok (x : tensor R) (B N : nat) :
  shape x = [B; 13; N; 1] ->
  exists out, RandLANet.to_supervised x = Some out /\ has_shape out [B; N; 13].
Proof.
  intros S. unfold RandLANet.to_supervised.
  rewrite transpose_0231 with (s0 := B) (s1 := 13) (s2 := N) (s3 := 1) by exact S.
  cbn [bind]. unfold P.Squeeze.
  rewrite squeeze_spec with (a := 2) by reflexivity.
  rewrite shape_build. cbn [remove_at firstn skipn app].
  eexists. split; [reflexivity|].
  apply has_shape_same_data with (sh := [B; N; 1; 13]); [apply has_shape_build | cbn; lia].
Qed.

Lemma squeeze_last_ok (x : tensor R) (B C N : nat) :
  has_shape x [B; C; N; 1] ->
  exists out, squeeze (-1) x = Some out /\ has_shape out [B; C; N].
Proof.
  intros [W S].
  rewrite squeeze_spec with (a := 3);
    [| unfold rank; rewrite S; reflexivity | rewrite S; reflexivity].
  rewrite S. cbn [remove_at firstn skipn app].
  eexists. split; [reflexivity|].
  apply has_shape_same_data with (sh := [B; C; N; 1]); [now split | cbn; lia].
Qed.

(** ** The encoder and the decoder, stage by stage *)

Lemma encoder_body_ok (self : RandLANet.t) (xyz : list (tensor R))
    (neighbor_idx sub_idx : list (tensor Z)) (i : nat) (st : RandLANet.encoder_state)
    (d_in d_out : nat) (bias : bool) (pp : lfa_params)
    (x : tensor R) (n s u : tensor Z) (l : dtensor) (B N N' K Ks Ku : nat) :
  nth_error (RandLANet.encoder self) i
    = Some (LocalFeatureAggregation.init d_in d_out bias pp) ->
  d_out = d_out / 2 + d_out / 2 ->
  nth_error xyz i = Some x -> nth_error neighbor_idx i = Some n ->
  nth_error sub_idx i = Some s ->
  level_ok B N N' K Ks Ku x n s u ->
  0 < B -> 0 < d_out ->
  has_shape (RandLANet.enc_feature st) [B; d_in; N; 1] ->
  nth_error (RandLANet.multihot_labels st) i = Some l ->
  dwf l -> dshape l = [B; N; 13] ->
  exists e s' t,
    encoder_stage (LocalFeatureAggregation.init d_in d_out bias pp) x n s
                  (RandLANet.enc_feature st) = Some (e, s')
    /\ has_shape e [B; 2 * d_out; N; 1]
    /\ has_shape s' [B; 2 * d_out; N'; 1]
    /\ RandLANet.pool_labels l n s = Some t
    /\ has_shape t [B; N'; 13]
    /\ RandLANet.encoder_body self xyz neighbor_idx sub_idx i st
       = Some (RandLANet.mkEnc s'
                 ((if i =? 0 then RandLANet.f_stack st ++ [e] else RandLANet.f_stack st)
                  ++ [s'])
                 (RandLANet.multihot_labels st ++ [TFloat32 t])).
Proof.
  intros Ecell Hd Ex En Es Hl HB Hdo Hf El Wl Sl.
  destruct Hl as (Hx & Hn & Hrn & Hs & Hrs & Hu & Hru & HN & HN' & HK & HKs & HKu).
  destruct (@LFA_ok d_in d_out bias pp x (RandLANet.enc_feature st) n B N K
              Hd Hx Hf Hn Hrn HN) as (e & Ee & He); [side .. |].
  destruct (@random_sample_spec e s B (2 * d_out) N N' Ks He Hs Hrs HB)
    as (s' & Es' & Hs' & _); try lia.
  destruct (@pool_labels_ok l n s B N N' K Ks Wl Sl Hn Hrn Hs Hrs HB HN HN' HK HKs)
    as (t & Et & Ht).
  exists e, s', t. repeat split; try apply He; try apply Hs'; try apply Ht; try assumption.
  - unfold encoder_stage. step Ee. rewrite Es'. reflexivity.
  - unfold RandLANet.encoder_body.
    rewrite Ecell, Ex, En, Es. cbn [bind]. step Ee.
    step Es'. step El. rewrite Et. reflexivity.
Qed.

Lemma decoder_body_ok (self : RandLANet.t) (f_stack : list (tensor R))
    (interp_idx : list (tensor Z)) (j : nat) (st : RandLANet.decoder_state)
    (c_skip c_feat c_out : nat) (bias : bool) (pd ps pse : mlp_params)
    (u : tensor Z) (skip : tensor R) (B N N' Ku : nat) :
  py_nth interp_idx (- Z.of_nat j - 1) = Some u ->
  py_nth f_stack (- Z.of_nat j - 2) = Some skip ->
  nth_error (RandLANet.decoder self) j
    = Some (SharedMLP.init (c_skip + c_feat) c_out true true (Some 0.2%R) bias pd) ->
  (j < 4 -> nth_error (RandLANet.Se self) j
            = Some (SharedMLP.init c_out 10 false true None bias pse)) ->
  nth_error (RandLANet.supervise self) (j + 1)
    = Some (SharedMLP.init c_out 13 false true None bias ps) ->
  has_shape u [B; N; Ku] -> Forall (in_range N') (data u) ->
  has_shape skip [B; c_skip; N; 1] ->
  has_shape (RandLANet.dec_feature st) [B; c_feat; N'; 1] ->
  0 < B -> 0 < c_feat -> 0 < N -> 0 < Ku ->
  exists d se_list sup,
    decoder_stage (SharedMLP.init (c_skip + c_feat) c_out true true (Some 0.2%R) bias pd)
                  u skip (RandLANet.dec_feature st) = Some d
    /\ has_shape d [B; c_out; N; 1]
    /\ has_shape sup [B; N; 13]
    /\ length se_list = (if j <? 4 then S (length (RandLANet.se_features_list st))
                         else length (RandLANet.se_features_list st))
    /\ RandLANet.decoder_body self f_stack interp_idx j st
       = Some (RandLANet.mkDec d (RandLANet.f_decoder_list st ++ [d]) se_list
                               (RandLANet.supervised_features st ++ [sup])).
Proof.
  intros Eu Eskip Ecell Ese Esup Hu Hru Hskip Hf HB Hc HN HKu.
  destruct (@random_sample_spec (RandLANet.dec_feature st) u B c_feat N' N Ku
              Hf Hu Hru HB Hc HN HKu) as (up & Eup & Hup & _).
  destruct (@Concat_pair_ok 1 skip up B c_skip c_feat N 1)
    as (c & Ec & Hcc); try reflexivity; try apply Hskip; try apply Hup.
  destruct (@SharedMLP_shape (c_skip + c_feat) c_out true true (Some 0.2%R) bias pd c B N 1
              (proj2 Hcc)) as (d & Ed & Hd); [side | side |].
  destruct (@SharedMLP_shape c_out 13 false true None bias ps d B N 1 (proj2 Hd))
    as (tmp & Etmp & Htmp); [side | side |].
  destruct (@to_supervised_ok tmp B N (proj2 Htmp)) as (sup & Es & Hs).
  assert (Hstage : decoder_stage
            (SharedMLP.init (c_skip + c_feat) c_out true true (Some 0.2%R) bias pd)
            u skip (RandLANet.dec_feature st) = Some d).
  { unfold decoder_stage. step Eup. step Ec. exact Ed. }
  unfold RandLANet.decoder_body.
  step Eu. step Eup. step Eskip.
  step Ecell. step Ec. step Ed.
  destruct (j <? 4) eqn:Ej.
  - apply Nat.ltb_lt in Ej. rewrite (Ese Ej). cbn [bind].
    destruct (@SharedMLP_shape c_out 10 false true None bias pse d B N 1 (proj2 Hd))
      as (se & Ese' & Hse); [side | side |].
    step Ese'. step Esup. step Etmp.
    step Es.
    exists d, (RandLANet.se_features_list st ++ [se]), sup.
    repeat split; try apply Hd; try apply Hs; try assumption.
    rewrite length_app. simpl. lia.
  - cbn [bind]. step Esup. step Etmp.
    step Es.
    exists d, (RandLANet.se_features_list st), sup.
    repeat split; try apply Hd; try apply Hs; try assumption.
Qed.

(** ** The whole network on well-shaped inputs *)

Lemma has_shape_onehot_cast (labels : tensor Z) (B N depth : nat) :
  has_shape labels [B; N] ->
  dwf (TInt32 (P.cast_int32 (nn.OneHot depth labels)))
  /\ dshape (TInt32 (P.cast_int32 (nn.OneHot depth labels))) = [B; N; depth].
Proof.
  intros [W S]. simpl. split.
  - unfold wf, P.cast_int32, tmap; simpl. rewrite length_map.
    apply (wf_build (shape labels ++ [depth])).
  - rewrite S. reflexivity.
Qed.

Lemma RandLANet_construct_ok (d_in num_classes : nat) (bias : bool) (p : net_params)
    (feature : tensor R) (labels : tensor Z) (p0 p1 p2 p3 p4 : tensor R)
    (n0 n1 n2 n3 n4 pl0 pl1 pl2 pl3 pl4 u0 u1 u2 u3 u4 : tensor Z)
    (B : nat) (N K Ks Ku : nat -> nat) :
  0 < B ->
  has_shape feature [B; N 0; d_in] ->
  has_shape labels [B; N 0] ->
  level_ok B (N 0) (N 1) (K 0) (Ks 0) (Ku 0) p0 n0 pl0 u0 ->
  level_ok B (N 1) (N 2) (K 1) (Ks 1) (Ku 1) p1 n1 pl1 u1 ->
  level_ok B (N 2) (N 3) (K 2) (Ks 2) (Ku 2) p2 n2 pl2 u2 ->
  level_ok B (N 3) (N 4) (K 3) (Ks 3) (Ku 3) p3 n3 pl3 u3 ->
  level_ok B (N 4) (N 5) (K 4) (Ks 4) (Ku 4) p4 n4 pl4 u4 ->
  let self := RandLANet.init d_in num_classes bias p in
  let l0 := TInt32 (P.cast_int32 (nn.OneHot 13 labels)) in
  exists scores t0 t1 t2 t3 t4 supervised_features se_features_list,
    RandLANet.construct self [p0; p1; p2; p3; p4] feature [n0; n1; n2; n3; n4]
                        [pl0; pl1; pl2; pl3; pl4] [u0; u1; u2; u3; u4] labels
    = Some (scores,
            [l0; TFloat32 t0; TFloat32 t1; TFloat32 t2; TFloat32 t3; TFloat32 t4],
            supervised_features, se_features_list)
    /\ encoder_decoder self feature p0 p1 p2 p3 p4 n0 n1 n2 n3 n4
                       pl0 pl1 pl2 pl3 pl4 u0 u1 u2 u3 u4 = Some scores
    /\ has_shape scores [B; num_classes; N 0]
    /\ RandLANet.pool_labels l0 n0 pl0 = Some t0
    /\ RandLANet.pool_labels (TFloat32 t0) n1 pl1 = Some t1
    /\ RandLANet.pool_labels (TFloat32 t1) n2 pl2 = Some t2
    /\ RandLANet.pool_labels (TFloat32 t2) n3 pl3 = Some t3
    /\ RandLANet.pool_labels (TFloat32 t3) n4 pl4 = Some t4
    /\ length supervised_features = 6
    /\ length se_features_list = 4.
Proof.
  intros HB Hfeat Hlab L0 L1 L2 L3 L4 self l0.
  destruct (has_shape_onehot_cast 13 Hlab) as [Wl0 Sl0]. fold l0 in Wl0, Sl0.
  destruct (@stem_ok d_in num_classes bias p feature B (N 0) Hfeat) as (f0 & Ef0 & Hf0).
  fold self in Ef0.

  destruct (@encoder_body_ok self [p0; p1; p2; p3; p4] [n0; n1; n2; n3; n4]
              [pl0; pl1; pl2; pl3; pl4] 0
              (RandLANet.mkEnc f0 [] [l0])
              8 16 bias (encoder_p p 0) p0 n0 pl0 u0 l0
              B (N 0) (N 1) (K 0) (Ks 0) (Ku 0))
    as (e0 & s0 & t0 & Est0 & He0 & Hs0 & Et0 & Ht0 & Eb0);
    [ reflexivity | reflexivity | reflexivity | reflexivity | reflexivity | exact L0
    | exact HB | lia | exact Hf0 | reflexivity | exact Wl0 | exact Sl0 | ].
  cbn [Nat.eqb app RandLANet.f_stack RandLANet.multihot_labels RandLANet.enc_feature] in Eb0, Est0.

  destruct (@encoder_body_ok self [p0; p1; p2; p3; p4] [n0; n1; n2; n3; n4]
              [pl0; pl1; pl2; pl3; pl4] 1
              (RandLANet.mkEnc s0 [e0; s0] [l0; TFloat32 t0])
              32 64 bias (encoder_p p 1) p1 n1 pl1 u1 (TFloat32 t0)
              B (N 1) (N 2) (K 1) (Ks 1) (Ku 1))
    as (e1 & s1 & t1 & Est1 & He1 & Hs1 & Et1 & Ht1 & Eb1);
    [ reflexivity | reflexivity | reflexivity | reflexivity | reflexivity | exact L1
    | exact HB | lia | exact Hs0 | reflexivity | exact (proj1 Ht0) | exact (proj2 Ht0) | ].
  cbn [Nat.eqb app RandLANet.f_stack RandLANet.multihot_labels RandLANet.enc_feature] in Eb1, Est1.

  destruct (@encoder_body_ok self [p0; p1; p2; p3; p4] [n0; n1; n2; n3; n4]
              [pl0; pl1; pl2; pl3; pl4] 2
              (RandLANet.mkEnc s1 [e0; s0; s1] [l0; TFloat32 t0; TFloat32 t1])
              128 128 bias (encoder_p p 2) p2 n2 pl2 u2 (TFloat32 t1)
              B (N 2) (N 3) (K 2) (Ks 2) (Ku 2))
    as (e2 & s2 & t2 & Est2 & He2 & Hs2 & Et2 & Ht2 & Eb2);
    [ reflexivity | reflexivity | reflexivity | reflexivity | reflexivity | exact L2
    | exact HB | lia | exact Hs1 | reflexivity | exact (proj1 Ht1) | exact (proj2 Ht1) | ].
  cbn [Nat.eqb app RandLANet.f_stack RandLANet.multihot_labels RandLANet.enc_feature] in Eb2, Est2.

  destruct (@encoder_body_ok self [p0; p1; p2; p3; p4] [n0; n1; n2; n3; n4]
              [pl0; pl1; pl2; pl3; pl4] 3
              (RandLANet.mkEnc s2 [e0; s0; s1; s2] [l0; TFloat32 t0; TFloat32 t1; TFloat32 t2])
              256 256 bias (encoder_p p 3) p3 n3 pl3 u3 (TFloat32 t2)
              B (N 3) (N 4) (K 3) (Ks 3) (Ku 3))
    as (e3 & s3 & t3 & Est3 & He3 & Hs3 & Et3 & Ht3 & Eb3);
    [ reflexivity | reflexivity | reflexivity | reflexivity | reflexivity | exact L3
    | exact HB | lia | exact Hs2 | reflexivity | exact (proj1 Ht2) | exact (proj2 Ht2) | ].
  cbn [Nat.eqb app RandLANet.f_stack RandLANet.multihot_labels RandLANet.enc_feature] in Eb3, Est3.

  destruct (@encoder_body_ok self [p0; p1; p2; p3; p4] [n0; n1; n2; n3; n4]
              [pl0; pl1; pl2; pl3; pl4] 4
              (RandLANet.mkEnc s3 [e0; s0; s1; s2; s3] [l0; TFloat32 t0; TFloat32 t1; TFloat32 t2; TFloat32 t3])
              512 512 bias (encoder_p p 4) p4 n4 pl4 u4 (TFloat32 t3)
              B (N 4) (N 5) (K 4) (Ks 4) (Ku 4))
    as (e4 & s4 & t4 & Est4 & He4 & Hs4 & Et4 & Ht4 & Eb4);
    [ reflexivity | reflexivity | reflexivity | reflexivity | reflexivity | exact L4
    | exact HB | lia | exact Hs3 | reflexivity | exact (proj1 Ht3) | exact (proj2 Ht3) | ].
  cbn [Nat.eqb app RandLANet.f_stack RandLANet.multihot_labels RandLANet.enc_feature] in Eb4, Est4.

  assert (HN5 : 0 < N 5) by (unfold level_ok in L4; tauto).
  destruct (@SharedMLP_shape 1024 1024 false true (Some 0.2%R) true (mlp_p p) s4 B (N 5) 1
              (proj2 Hs4)) as (d0 & Ed0 & Hd0); [side | side |].
  destruct (@SharedMLP_shape 1024 13 false true None bias (supervise_p p 0) d0 B (N 5) 1
              (proj2 Hd0)) as (tmp0 & Etmp0 & Htmp0); [side | side |].
  destruct (@to_supervised_ok tmp0 B (N 5) (proj2 Htmp0)) as (sup0 & Esup0 & Hsup0).

  destruct L4 as (_ & _ & _ & _ & _ & Hu4 & Hru4 & HN4 & _ & _ & _ & HKu4).
  destruct (@decoder_body_ok self [e0; s0; s1; s2; s3; s4] [u0; u1; u2; u3; u4] 0
              (RandLANet.mkDec d0 [] [] [sup0])
              512 1024 512 bias (decoder_p p 0) (supervise_p p 1) (Se_p p 0)
              u4 s3 B (N 4) (N 5) (Ku 4))
    as (d1 & se1 & sup1 & Eds1 & Hd1 & Hsup1 & Hse1 & Edb1);
    [ reflexivity | reflexivity | reflexivity | intros _; reflexivity | reflexivity
    | exact Hu4 | exact Hru4 | exact Hs3 | exact Hd0 | exact HB | lia | exact HN4
    | exact HKu4 | ].
  cbn [RandLANet.dec_feature RandLANet.f_decoder_list RandLANet.se_features_list
       RandLANet.supervised_features app Nat.ltb Nat.leb length] in Eds1, Hse1, Edb1.

  destruct L3 as (_ & _ & _ & _ & _ & Hu3 & Hru3 & HN3 & _ & _ & _ & HKu3).
  destruct (@decoder_body_ok self [e0; s0; s1; s2; s3; s4] [u0; u1; u2; u3; u4] 1
              (RandLANet.mkDec d1 [d1] se1 [sup0; sup1])
              256 512 256 bias (decoder_p p 1) (supervise_p p 2) (Se_p p 1)
              u3 s2 B (N 3) (N 4) (Ku 3))
    as (d2 & se2 & sup2 & Eds2 & Hd2 & Hsup2 & Hse2 & Edb2);
    [ reflexivity | reflexivity | reflexivity | intros _; reflexivity | reflexivity
    | exact Hu3 | exact Hru3 | exact Hs2 | exact Hd1 | exact HB | lia | exact HN3
    | exact HKu3 | ].
  cbn [RandLANet.dec_feature RandLANet.f_decoder_list RandLANet.se_features_list
       RandLANet.supervised_features app Nat.ltb Nat.leb length] in Eds2, Hse2, Edb2.

  destruct L2 as (_ & _ & _ & _ & _ & Hu2 & Hru2 & HN2 & _ & _ & _ & HKu2).
  destruct (@decoder_body_ok self [e0; s0; s1; s2; s3; s4] [u0; u1; u2; u3; u4] 2
              (RandLANet.mkDec d2 [d1; d2] se2 [sup0; sup1; sup2])
              128 256 128 bias (decoder_p p 2) (supervise_p p 3) (Se_p p 2)
              u2 s1 B (N 2) (N 3) (Ku 2))
    as (d3 & se3 & sup3 & Eds3 & Hd3 & Hsup3 & Hse3 & Edb3);
    [ reflexivity | reflexivity | reflexivity | intros _; reflexivity | reflexivity
    | exact Hu2 | exact Hru2 | exact Hs1 | exact Hd2 | exact HB | lia | exact HN2
    | exact HKu2 | ].
  cbn [RandLANet.dec_feature RandLANet.f_decoder_list RandLANet.se_features_list
       RandLANet.supervised_features app Nat.ltb Nat.leb length] in Eds3, Hse3, Edb3.

  destruct L1 as (_ & _ & _ & _ & _ & Hu1 & Hru1 & HN1 & _ & _ & _ & HKu1).
  destruct (@decoder_body_ok self [e0; s0; s1; s2; s3; s4] [u0; u1; u2; u3; u4] 3
              (RandLANet.mkDec d3 [d1; d2; d3] se3 [sup0; sup1; sup2; sup3])
              32 128 32 bias (decoder_p p 3) (supervise_p p 4) (Se_p p 3)
              u1 s0 B (N 1) (N 2) (Ku 1))
    as (d4 & se4 & sup4 & Eds4 & Hd4 & Hsup4 & Hse4 & Edb4);
    [ reflexivity | reflexivity | reflexivity | intros _; reflexivity | reflexivity
    | exact Hu1 | exact Hru1 | exact Hs0 | exact Hd3 | exact HB | lia | exact HN1
    | exact HKu1 | ].
  cbn [RandLANet.dec_feature RandLANet.f_decoder_list RandLANet.se_features_list
       RandLANet.supervised_features app Nat.ltb Nat.leb length] in Eds4, Hse4, Edb4.

  destruct L0 as (_ & _ & _ & _ & _ & Hu0 & Hru0 & HN0 & _ & _ & _ & HKu0).
  destruct (@decoder_body_ok self [e0; s0; s1; s2; s3; s4] [u0; u1; u2; u3; u4] 4
              (RandLANet.mkDec d4 [d1; d2; d3; d4] se4 [sup0; sup1; sup2; sup3; sup4])
              32 32 32 bias (decoder_p p 4) (supervise_p p 5) (Se_p p 4)
              u0 e0 B (N 0) (N 1) (Ku 0))
    as (d5 & se5 & sup5 & Eds5 & Hd5 & Hsup5 & Hse5 & Edb5);
    [ reflexivity | reflexivity | reflexivity | intros C; exfalso; lia | reflexivity
    | exact Hu0 | exact Hru0 | exact He0 | exact Hd4 | exact HB | lia | exact HN0
    | exact HKu0 | ].
  cbn [RandLANet.dec_feature RandLANet.f_decoder_list RandLANet.se_features_list
       RandLANet.supervised_features app Nat.ltb Nat.leb length] in Eds5, Hse5, Edb5.

  destruct (@fc_end_ok d_in num_classes bias p d5 B (N 0) (proj2 Hd5)) as (sc & Esc & Hsc); [side .. |].
  fold self in Esc.
  destruct (@squeeze_last_ok sc B num_classes (N 0) Hsc) as (scores & Esq & Hscores).
  exists scores, t0, t1, t2, t3, t4, [sup0; sup1; sup2; sup3; sup4; sup5], se5.
  split; [|split; [|repeat split; try assumption; try apply Hscores]].
  - unfold RandLANet.construct. rewrite Ef0. cbn [bind seq for_each].
    fold l0.
    step Eb0. step Eb1. step Eb2.
    step Eb3. step Eb4.
    cbn [RandLANet.f_stack RandLANet.multihot_labels].
    change (py_nth [e0; s0; s1; s2; s3; s4] (-1)) with (Some s4). cbn [bind].
    change (RandLANet.mlp self)
      with (SharedMLP.init 1024 1024 false true (Some 0.2%R) true (mlp_p p)).
    step Ed0.
    change (nth_error (RandLANet.supervise self) 0)
      with (Some (SharedMLP.init 1024 13 false true None bias (supervise_p p 0))).
    cbn [bind]. step Etmp0. step Esup0.
    step Edb1. step Edb2. step Edb3.
    step Edb4. step Edb5.
    cbn [RandLANet.f_decoder_list RandLANet.supervised_features RandLANet.se_features_list].
    change (py_nth [d1; d2; d3; d4; d5] (-1)) with (Some d5). cbn [bind].
    step Esc. rewrite Esq. reflexivity.
  - unfold encoder_decoder.
    change (RandLANet.encoder self)
      with [ LocalFeatureAggregation.init 8 16 bias (encoder_p p 0);
             LocalFeatureAggregation.init 32 64 bias (encoder_p p 1);
             LocalFeatureAggregation.init 128 128 bias (encoder_p p 2);
             LocalFeatureAggregation.init 256 256 bias (encoder_p p 3);
             LocalFeatureAggregation.init 512 512 bias (encoder_p p 4) ].
    change (RandLANet.decoder self)
      with [ SharedMLP.init (512 + 1024) 512 true true (Some 0.2%R) bias (decoder_p p 0);
             SharedMLP.init (256 + 512) 256 true true (Some 0.2%R) bias (decoder_p p 1);
             SharedMLP.init (128 + 256) 128 true true (Some 0.2%R) bias (decoder_p p 2);
             SharedMLP.init (32 + 128) 32 true true (Some 0.2%R) bias (decoder_p p 3);
             SharedMLP.init (32 + 32) 32 true true (Some 0.2%R) bias (decoder_p p 4) ].
    cbv iota. step Ef0.
    step Est0. step Est1. step Est2.
    step Est3. step Est4.
    change (RandLANet.mlp self)
      with (SharedMLP.init 1024 1024 false true (Some 0.2%R) true (mlp_p p)).
    step Ed0.
    step Eds1. step Eds2. step Eds3.
    step Eds4. step Eds5.
    step Esc. exact Esq.
  - rewrite Hse5, Hse4, Hse3, Hse2, Hse1. reflexivity.
Qed.

Lemma one_point_level_ok :
  level_ok 1 1 1 1 1 1 one_point_xyz one_point_idx one_point_idx one_point_idx.
Proof.
  unfold level_ok.
  repeat split; try reflexivity; try lia;
    repeat constructor; unfold in_range; simpl; lia.
Qed.

(** C5: on well-shaped inputs [RandLANet.construct] returns, and its first
    result is what the encoder-decoder computes: five encoder stages, each a
    [LocalFeatureAggregation] followed by [random_sample] with the pooling
    indices of the stage, then five decoder stages, each [random_sample] with
    the interpolation indices (last level first), the concatenation of the
    skip feature f_stack[-j-2] along the channel axis and the decoder MLP,
    then the head; that result has shape (B, num_classes, N). *)
Theorem C5_encoder_decoder (d_in num_classes : nat) (bias : bool) (p : net_params)
    (feature : tensor R) (labels : tensor Z) (p0 p1 p2 p3 p4 : tensor R)
    (n0 n1 n2 n3 n4 pl0 pl1 pl2 pl3 pl4 u0 u1 u2 u3 u4 : tensor Z)
    (B : nat) (N K Ks Ku : nat -> nat) :
  0 < B ->
  has_shape feature [B; N 0; d_in] ->
  has_shape labels [B; N 0] ->
  level_ok B (N 0) (N 1) (K 0) (Ks 0) (Ku 0) p0 n0 pl0 u0 ->
  level_ok B (N 1) (N 2) (K 1) (Ks 1) (Ku 1) p1 n1 pl1 u1 ->
  level_ok B (N 2) (N 3) (K 2) (Ks 2) (Ku 2) p2 n2 pl2 u2 ->
  level_ok B (N 3) (N 4) (K 3) (Ks 3) (Ku 3) p3 n3 pl3 u3 ->
  level_ok B (N 4) (N 5) (K 4) (Ks 4) (Ku 4) p4 n4 pl4 u4 ->
  exists scores multihot_labels supervised_features se_features_list,
    RandLANet.construct (RandLANet.init d_in num_classes bias p)
                        [p0; p1; p2; p3; p4] feature [n0; n1; n2; n3; n4]
                        [pl0; pl1; pl2; pl3; pl4] [u0; u1; u2; u3; u4] labels
    = Some (scores, multihot_labels, supervised_features, se_features_list)
    /\ encoder_decoder (RandLANet.init d_in num_classes bias p) feature
                       p0 p1 p2 p3 p4 n0 n1 n2 n3 n4
                       pl0 pl1 pl2 pl3 pl4 u0 u1 u2 u3 u4 = Some scores
    /\ has_shape scores [B; num_classes; N 0].
Proof.
  intros HB Hf Hl L0 L1 L2 L3 L4.
  destruct (@RandLANet_construct_ok d_in num_classes bias p feature labels
              p0 p1 p2 p3 p4 n0 n1 n2 n3 n4 pl0 pl1 pl2 pl3 pl4 u0 u1 u2 u3 u4
              B N K Ks Ku HB Hf Hl L0 L1 L2 L3 L4)
    as (scores & t0 & t1 & t2 & t3 & t4 & sf & se & Ec & Ed & Hs & _).
  eexists scores, _, sf, se. split; [exact Ec|]. split; [exact Ed | exact Hs].
Qed.

Lemma C5_encoder_decoder_witness :
  exists scores multihot_labels supervised_features se_features_list,
    RandLANet.construct (RandLANet.init 1 2 true unit_net_params)
      [one_point_xyz; one_point_xyz; one_point_xyz; one_point_xyz; one_point_xyz]
      one_point_feature
      [one_point_idx; one_point_idx; one_point_idx; one_point_idx; one_point_idx]
      [one_point_idx; one_point_idx; one_point_idx; one_point_idx; one_point_idx]
      [one_point_idx; one_point_idx; one_point_idx; one_point_idx; one_point_idx]
      one_point_labels
    = Some (scores, multihot_labels, supervised_features, se_features_list)
    /\ encoder_decoder (RandLANet.init 1 2 true unit_net_params) one_point_feature
         one_point_xyz one_point_xyz one_point_xyz one_point_xyz one_point_xyz
         one_point_idx one_point_idx one_point_idx one_point_idx one_point_idx
         one_point_idx one_point_idx one_point_idx one_point_idx one_point_idx
         one_point_idx one_point_idx one_point_idx one_point_idx one_point_idx
       = Some scores
    /\ has_shape scores [1; 2; 1].
Proof.
  apply (@C5_encoder_decoder 1 2 true unit_net_params one_point_feature one_point_labels
           one_point_xyz one_point_xyz one_point_xyz one_point_xyz one_point_xyz
           one_point_idx one_point_idx one_point_idx one_point_idx one_point_idx
           one_point_idx one_point_idx one_point_idx one_point_idx one_point_idx
           one_point_idx one_point_idx one_point_idx one_point_idx one_point_idx
           1 (fun _ => 1) (fun _ => 1) (fun _ => 1) (fun _ => 1)).
  - lia.
  - split; reflexivity.
  - split; reflexivity.
  - exact one_point_level_ok.
  - exact one_point_level_ok.
  - exact one_point_level_ok.
  - exact one_point_level_ok.
  - exact one_point_level_ok.
Defined.

(** ** The sigmoid cross-entropy is non-negative *)

Lemma sigmoid_bounds (x : R) : (0 < P.sigmoid x < 1)%R.
Proof.
  unfold P.sigmoid. pose proof (exp_pos (- x)) as He.
  assert (H1 : (0 < 1 + exp (- x))%R) by lra.
  split.
  - apply Rdiv_lt_0_compat; lra.
  - apply (Rmult_lt_reg_r (1 + exp (- x))); [exact H1|].
    unfold Rdiv. rewrite Rmult_assoc, Rinv_l by lra. lra.
Qed.

Lemma ln_nonpos (x : R) : (0 < x <= 1)%R -> (ln x <= 0)%R.
Proof.
  intros [H0 [H1|H1]].
  - rewrite <- ln_1. left. now apply ln_increasing.
  - subst x. rewrite ln_1. lra.
Qed.

Lemma sigmoid_ce_nonneg (x z : R) : (0 <= z <= 1)%R -> (0 <= P.sigmoid_ce x z)%R.
Proof.
  intros Hz. unfold P.sigmoid_ce.
  pose proof (sigmoid_bounds x) as Hs.
  assert (L1 : (ln (P.sigmoid x) <= 0)%R) by (apply ln_nonpos; lra).
  assert (L2 : (ln (1 - P.sigmoid x) <= 0)%R) by (apply ln_nonpos; lra).
  nra.
Qed.

Lemma Rsum_nonneg (l : list R) : Forall (fun v => (0 <= v)%R) l -> (0 <= Rsum l)%R.
Proof. induction 1; simpl; lra. Qed.

Lemma Rmean_nonneg (l : list R) : Forall (fun v => (0 <= v)%R) l -> (0 <= Rmean l)%R.
Proof.
  intros H. unfold Rmean. destruct l as [|v l].
  - simpl. unfold Rdiv. rewrite Rinv_0. lra.
  - apply Rmult_le_pos; [now apply Rsum_nonneg|].
    left. apply Rinv_0_lt_compat. apply lt_0_INR. simpl. lia.
Qed.

Lemma Forall_zipWith {X Y W} (f : X -> Y -> W) (Q : W -> Prop) (l1 : list X) (l2 : list Y) :
  (forall x y, In x l1 -> In y l2 -> Q (f x y)) -> Forall Q (zipWith f l1 l2).
Proof.
  revert l2; induction l1 as [|x l1 IH]; intros [|y l2] H; simpl; constructor.
  - apply H; now left.
  - apply IH. intros x' y' Hx Hy. apply H; now right.
Qed.

Lemma zipWith_map_r {X Y W} (f : X -> Y -> W) (g : X -> Y) (l : list X) :
  zipWith f l (map g l) = map (fun x => f x (g x)) l.
Proof. induction l as [|x l IH]; simpl; [reflexivity | now rewrite IH]. Qed.

Lemma mean_sigmoid_ce_self_nonneg (x : tensor R) :
  (0 <= mean_sigmoid_ce x (indicator_ge0 x))%R.
Proof.
  unfold mean_sigmoid_ce, indicator_ge0; simpl. rewrite zipWith_map_r.
  apply Rmean_nonneg. apply Forall_forall. intros v Hv.
  apply in_map_iff in Hv as (u & <- & _).
  apply sigmoid_ce_nonneg; destruct (Rle_dec 0 u); lra.
Qed.

(** X1: on a list of at least four tensors, the first four of them not
    empty, [SEloss.construct] returns a loss that is non-negative, whatever
    the features are: each logit is scored against the indicator of its own
    sign. *)
Theorem SEloss_nonneg (t0 t1 t2 t3 : tensor R) (rest : list (tensor R)) :
  data t0 <> [] -> data t1 <> [] -> data t2 <> [] -> data t3 <> [] ->
  exists se_loss,
    SEloss.construct (t0 :: t1 :: t2 :: t3 :: rest) = Some se_loss
    /\ (0 <= se_loss)%R.
Proof.
  intros _ _ _ _. unfold SEloss.construct. cbn [seq for_each].
  rewrite (@SEloss_body_step _ 0 t0 None) by reflexivity. cbn [bind].
  rewrite (@SEloss_body_step _ 1 t1 _) by reflexivity. cbn [bind].
  rewrite (@SEloss_body_step _ 2 t2 _) by reflexivity. cbn [bind].
  rewrite (@SEloss_body_step _ 3 t3 _) by reflexivity. cbn [bind].
  eexists. split; [reflexivity|].
  pose proof (mean_sigmoid_ce_self_nonneg t0).
  pose proof (mean_sigmoid_ce_self_nonneg t1).
  pose proof (mean_sigmoid_ce_self_nonneg t2).
  pose proof (mean_sigmoid_ce_self_nonneg t3).
  lra.
Qed.

Lemma SEloss_nonneg_witness :
  exists se_loss,
    SEloss.construct (example_zero :: example_one :: example_zero :: example_one :: [])
    = Some se_loss
    /\ (0 <= se_loss)%R.
Proof. apply SEloss_nonneg; discriminate. Defined.

(** X2: with fewer than four tensors [SEloss.construct] raises (the index
    [se_features_list[i]] is out of range). *)
Theorem SEloss_short_list (l : list (tensor R)) :
  length l < 4 -> SEloss.construct l = None.
Proof.
  intros Hl. unfold SEloss.construct. cbn [seq for_each].
  destruct l as [|t0 [|t1 [|t2 [|t3 l]]]]; simpl in Hl; try lia.
  - reflexivity.
  - rewrite (@SEloss_body_step _ 0 t0 None) by reflexivity. reflexivity.
  - rewrite (@SEloss_body_step _ 0 t0 None) by reflexivity. cbn [bind].
    rewrite (@SEloss_body_step _ 1 t1 _) by reflexivity. reflexivity.
  - rewrite (@SEloss_body_step _ 0 t0 None) by reflexivity. cbn [bind].
    rewrite (@SEloss_body_step _ 1 t1 _) by reflexivity. cbn [bind].
    rewrite (@SEloss_body_step _ 2 t2 _) by reflexivity. reflexivity.
Qed.

Lemma SEloss_short_list_witness :
  SEloss.construct [example_zero; example_one; example_zero] = None.
Proof. apply SEloss_short_list. simpl. lia. Defined.

(** ** The weighted cross-entropy is a mean of non-negative point losses *)

Lemma exp_le_Rsum_exp (v : R) (l : list R) :
  In v l -> (exp v <= Rsum (map exp l))%R.
Proof.
  induction l as [|u l IH]; simpl; [tauto|].
  assert (H0 : (0 <= Rsum (map exp l))%R).
  { apply Rsum_nonneg. apply Forall_forall. intros w Hw.
    apply in_map_iff in Hw as (y & <- & _). left. apply exp_pos. }
  intros [->|Hin]; [lra|]. specialize (IH Hin). pose proof (exp_pos u). lra.
Qed.

Lemma softmax_row_bounds (l : list R) :
  Forall (fun p => (0 < p <= 1)%R) (nn.softmax_row l).
Proof.
  unfold nn.softmax_row. apply Forall_forall. intros p Hp.
  apply in_map_iff in Hp as (v & <- & Hv).
  pose proof (exp_pos v) as He. pose proof (exp_le_Rsum_exp _ _ Hv) as Hle.
  assert (HS : (0 < Rsum (map exp l))%R) by lra.
  split.
  - apply Rdiv_lt_0_compat; assumption.
  - apply (Rmult_le_reg_r (Rsum (map exp l))); [exact HS|].
    unfold Rdiv. rewrite Rmult_assoc, Rinv_l by lra. lra.
Qed.

Lemma Rsum_nonpos (l : list R) : Forall (fun v => (v <= 0)%R) l -> (Rsum l <= 0)%R.
Proof. induction 1; simpl; lra. Qed.

Lemma softmax_ce_row_nonneg (logit label : list R) :
  Forall (fun y => (0 <= y)%R) label -> (0 <= nn.softmax_ce_row logit label)%R.
Proof.
  intros Hy. unfold nn.softmax_ce_row.
  assert (H : (Rsum (zipWith (fun p y => (y * ln p)%R) (nn.softmax_row logit) label) <= 0)%R).
  { apply Rsum_nonpos. apply Forall_zipWith. intros p y Hp Hyy.
    pose proof (softmax_row_bounds logit) as Hb. rewrite Forall_forall in Hb, Hy.
    specialize (Hb p Hp). specialize (Hy y Hyy).
    assert (ln p <= 0)%R by (apply ln_nonpos; lra). nra. }
  lra.
Qed.

Lemma one_hot_row_nonneg (C : nat) (label : Z) :
  Forall (fun y => (0 <= y)%R) (one_hot_row C label).
Proof.
  unfold one_hot_row. apply Forall_forall. intros y Hy.
  apply in_map_iff in Hy as (c & <- & _). destruct (_ =? _)%Z; lra.
Qed.

Lemma selected_weight_nonneg (weights : tensor R) (C : nat) (label : Z) :
  Forall (fun w => (0 <= w)%R) (data weights) ->
  (0 <= selected_weight weights C label)%R.
Proof.
  intros Hw. unfold selected_weight. apply Rsum_nonneg.
  apply Forall_forall. intros v Hv. apply in_map_iff in Hv as (c & <- & _).
  assert (0 <= tget weights [c])%R.
  { apply tget_Q with (Q := fun w => (0 <= w)%R); [unfold dflt, Dflt_R; lra | exact Hw]. }
  destruct (_ =? _)%Z; nra.
Qed.

Lemma zipWith_zero_labels (ps : list R) (C : nat) :
  Rsum (zipWith (fun p y => (y * ln p)%R) ps (map (fun _ : nat => 0%R) (seq 0 C))) = 0%R.
Proof.
  generalize (seq 0 C) as l. revert ps.
  induction ps as [|p ps IH]; intros [|c l]; simpl; try reflexivity.
  rewrite IH. lra.
Qed.

Lemma point_loss_ignored (weights logits : tensor R) (labels : tensor Z) (C b n : nat) :
  ~ in_range C (tget labels [b; n]) ->
  point_loss weights logits labels C b n = 0%R.
Proof.
  intros Hl. unfold point_loss.
  assert (E : one_hot_row C (tget labels [b; n]) = map (fun _ => 0%R) (seq 0 C)).
  { unfold one_hot_row. apply map_ext_in. intros c Hc. apply in_seq in Hc.
    destruct (Z.eqb_spec (tget labels [b; n]) (Z.of_nat c)) as [E|E]; [|reflexivity].
    exfalso. apply Hl. unfold in_range. lia. }
  rewrite E. unfold nn.softmax_ce_row. rewrite zipWith_zero_labels. lra.
Qed.

Lemma point_loss_nonneg (weights logits : tensor R) (labels : tensor Z) (C b n : nat) :
  Forall (fun w => (0 <= w)%R) (data weights) ->
  (0 <= point_loss weights logits labels C b n)%R.
Proof.
  intros Hw. unfold point_loss. apply Rmult_le_pos.
  - apply softmax_ce_row_nonneg. apply one_hot_row_nonneg.
  - now apply selected_weight_nonneg.
Qed.

Lemma weighted_ce_mean_nonneg (weights logits : tensor R) (labels : tensor Z) (B C N : nat) :
  Forall (fun w => (0 <= w)%R) (data weights) ->
  (0 <= weighted_ce_mean weights logits labels B C N)%R.
Proof.
  intros Hpos. unfold weighted_ce_mean. apply Rmean_nonneg. apply Forall_forall. intros v Hv.
  apply in_flat_map in Hv as (b & _ & Hv). apply in_map_iff in Hv as (n & <- & _).
  now apply point_loss_nonneg.
Qed.

(** X3: with non-negative class weights the weighted cross-entropy of
    non-empty, well-shaped logits and labels is defined and non-negative. *)
Theorem WeightCEloss_nonneg (weights logits : tensor R) (labels : tensor Z) (B C N : nat) :
  has_shape weights [C] ->
  has_shape logits [B; C; N] ->
  has_shape labels [B; N] ->
  0 < B -> 0 < C -> 0 < N ->
  Forall (fun w => (0 <= w)%R) (data weights) ->
  exists CE_loss,
    WeightCEloss.construct (WeightCEloss.mk weights C) logits labels = Some CE_loss
    /\ (0 <= CE_loss)%R.
Proof.
  intros Hw Hl Hy HB HC HN Hpos.
  rewrite (WeightCEloss_value Hw Hl Hy HB HC HN). eexists. split; [reflexivity|].
  now apply weighted_ce_mean_nonneg.
Qed.

Lemma WeightCEloss_nonneg_witness :
  exists CE_loss,
    WeightCEloss.construct (WeightCEloss.mk example_weights 2) example_logits example_labels
    = Some CE_loss
    /\ (0 <= CE_loss)%R.
Proof.
  apply (@WeightCEloss_nonneg example_weights example_logits example_labels 1 2 1).
  - split; reflexivity.
  - split; reflexivity.
  - split; reflexivity.
  - lia.
  - lia.
  - lia.
  - simpl. constructor; [lra | constructor; [lra | constructor]].
Defined.

Lemma Rsum_zeros (l : list R) : Forall (fun v => v = 0%R) l -> Rsum l = 0%R.
Proof.
  induction l as [|v l IH]; intros H; [reflexivity|].
  inversion H as [|? ? Hv Hl]; subst. cbn [Rsum fold_right].
  specialize (IH Hl). unfold Rsum in IH. lra.
Qed.

(** X4: a label outside [0, num_classes) has an all-zero one-hot row, so it
    contributes nothing: when every label of a non-empty batch is outside the
    range the weighted cross-entropy is 0. *)
Theorem WeightCEloss_ignored_labels (weights logits : tensor R) (labels : tensor Z)
    (B C N : nat) :
  has_shape weights [C] ->
  has_shape logits [B; C; N] ->
  has_shape labels [B; N] ->
  0 < B -> 0 < C -> 0 < N ->
  Forall (fun l => ~ in_range C l) (data labels) ->
  WeightCEloss.construct (WeightCEloss.mk weights C) logits labels = Some 0%R.
Proof.
  intros Hw Hl Hy HB HC HN Hout.
  rewrite (WeightCEloss_value Hw Hl Hy HB HC HN). f_equal.
  unfold weighted_ce_mean, Rmean. rewrite Rsum_zeros; [unfold Rdiv; lra|].
  apply Forall_forall. intros v Hv.
  apply in_flat_map in Hv as (b & Hb & Hv). apply in_map_iff in Hv as (n & <- & Hn).
  apply in_seq in Hb. apply in_seq in Hn.
  apply point_loss_ignored.
  apply Forall_tget with (Q := fun l => ~ in_range C l); [apply Hy | exact Hout |].
  rewrite (proj2 Hy). simpl. lia.
Qed.

Lemma WeightCEloss_ignored_labels_witness :
  WeightCEloss.construct (WeightCEloss.mk example_weights 2) example_logits
                         example_ignored_labels = Some 0%R.
Proof.
  apply (@WeightCEloss_ignored_labels example_weights example_logits
           example_ignored_labels 1 2 1).
  - split; reflexivity.
  - split; reflexivity.
  - split; reflexivity.
  - lia.
  - lia.
  - lia.
  - simpl. constructor; [unfold in_range; simpl; lia | constructor].
Defined.

(** ** The hierarchical loss: the entries it reads, and its sign *)

(** X5: [Hloss.construct] reads only [multihot_labels[2..5]] and
    [supervised_features[0..3]]: two calls that agree on these entries give
    the same result, whatever the other entries and the lengths are. *)
Theorem Hloss_entries_used (mh mh' : list dtensor) (sf sf' : list (tensor R)) :
  (forall i, 2 <= i <= 5 -> nth_error mh i = nth_error mh' i) ->
  (forall k, k < 4 -> nth_error sf k = nth_error sf' k) ->
  Hloss.construct mh sf = Hloss.construct mh' sf'.
Proof.
  intros Hm Hs. unfold Hloss.construct.
  rewrite (Hm 2), (Hm 3), (Hm 4), (Hm 5) by lia.
  rewrite (Hs 0), (Hs 1), (Hs 2), (Hs 3) by lia.
  reflexivity.
Qed.

Lemma Hloss_entries_used_witness :
  Hloss.construct
    [TInt32 example_int_label; TFloat32 example_one; TFloat32 example_one;
     TFloat32 example_zero; TFloat32 example_one; TFloat32 example_zero]
    [example_zero; example_one; example_zero; example_one; example_zero]
  = Hloss.construct
      [TFloat32 example_zero; TInt32 example_int_label; TFloat32 example_one;
       TFloat32 example_zero; TFloat32 example_one; TFloat32 example_zero;
       TFloat32 example_one]
      [example_zero; example_one; example_zero; example_one; example_one; example_one].
Proof.
  apply Hloss_entries_used.
  - intros i Hi. do 6 (destruct i as [|i]; [try lia; reflexivity|]). lia.
  - intros k Hk. do 4 (destruct k as [|k]; [reflexivity|]). lia.
Defined.

(** X6: [Hloss.construct] raises when [multihot_labels] has fewer than six
    entries or [supervised_features] fewer than four. *)
Theorem Hloss_short_lists (mh : list dtensor) (sf : list (tensor R)) :
  length mh < 6 \/ length sf < 4 -> Hloss.construct mh sf = None.
Proof.
  intros H. unfold Hloss.construct.
  destruct (nth_error sf 0) as [s0|] eqn:E0; [|reflexivity]. cbn [bind].
  destruct (nth_error mh 5) as [m5|] eqn:E5; [|reflexivity]. cbn [bind].
  destruct (Hloss.term s0 m5) as [t0|]; [|reflexivity]. cbn [bind].
  destruct (nth_error sf 1) as [s1|] eqn:E1; [|reflexivity]. cbn [bind].
  destruct (nth_error mh 4) as [m4|] eqn:E4; [|reflexivity]. cbn [bind].
  destruct (Hloss.term s1 m4) as [t1|]; [|reflexivity]. cbn [bind].
  destruct (nth_error sf 2) as [s2|] eqn:E2; [|reflexivity]. cbn [bind].
  destruct (nth_error mh 3) as [m3|] eqn:E3; [|reflexivity]. cbn [bind].
  destruct (Hloss.term s2 m3) as [t2|]; [|reflexivity]. cbn [bind].
  destruct (nth_error sf 3) as [s3|] eqn:E3'; [|reflexivity]. cbn [bind].
  exfalso.
  assert (H5 : 5 < length mh) by (apply nth_error_Some; congruence).
  assert (H3 : 3 < length sf) by (apply nth_error_Some; congruence).
  lia.
Qed.

Lemma Hloss_short_lists_witness :
  Hloss.construct [TFloat32 example_one]
                  [example_zero; example_one; example_zero; example_one] = None.
Proof. apply Hloss_short_lists. left. simpl. lia. Defined.

Lemma mean_sigmoid_ce_nonneg (logits label : tensor R) :
  Forall (fun z => (0 <= z <= 1)%R) (data label) ->
  (0 <= mean_sigmoid_ce logits label)%R.
Proof.
  intros Hz. unfold mean_sigmoid_ce. apply Rmean_nonneg.
  apply Forall_zipWith. intros x z _ Hin.
  rewrite Forall_forall in Hz. apply sigmoid_ce_nonneg. now apply Hz.
Qed.

Lemma binary_unit (l : list R) :
  Forall binary l -> Forall (fun z => (0 <= z <= 1)%R) l.
Proof.
  intros H. eapply Forall_impl; [|exact H]. intros z [-> | ->]; lra.
Qed.

(** X7: when the four label tensors read are [float32] tensors of zeros and
    ones, of the shapes of the features they are paired with, the hierarchical
    loss is defined and non-negative. *)
Theorem Hloss_nonneg (l0 l1 : dtensor) (m2 m3 m4 m5 : tensor R)
    (s0 s1 s2 s3 : tensor R) (rest : list (tensor R)) :
  shape s0 = shape m5 -> shape s1 = shape m4 ->
  shape s2 = shape m3 -> shape s3 = shape m2 ->
  Forall binary (data m2) -> Forall binary (data m3) ->
  Forall binary (data m4) -> Forall binary (data m5) ->
  exists h_loss,
    Hloss.construct [l0; l1; TFloat32 m2; TFloat32 m3; TFloat32 m4; TFloat32 m5]
                    (s0 :: s1 :: s2 :: s3 :: rest) = Some h_loss
    /\ (0 <= h_loss)%R.
Proof.
  intros E0 E1 E2 E3 B2 B3 B4 B5.
  unfold Hloss.construct; simpl.
  rewrite (Hloss_term_float _ _ E0); simpl.
  rewrite (Hloss_term_float _ _ E1); simpl.
  rewrite (Hloss_term_float _ _ E2); simpl.
  rewrite (Hloss_term_float _ _ E3); simpl.
  eexists. split; [reflexivity|].
  pose proof (@mean_sigmoid_ce_nonneg s0 _ (binary_unit B5)).
  pose proof (@mean_sigmoid_ce_nonneg s1 _ (binary_unit B4)).
  pose proof (@mean_sigmoid_ce_nonneg s2 _ (binary_unit B3)).
  pose proof (@mean_sigmoid_ce_nonneg s3 _ (binary_unit B2)).
  lra.
Qed.

Lemma Hloss_nonneg_witness :
  exists h_loss,
    Hloss.construct
      [TInt32 example_int_label; TFloat32 example_one; TFloat32 example_one;
       TFloat32 example_zero; TFloat32 example_one; TFloat32 example_zero]
      (example_zero :: example_one :: example_zero :: example_one :: [example_zero])
    = Some h_loss
    /\ (0 <= h_loss)%R.
Proof.
  apply Hloss_nonneg; try reflexivity; simpl;
    (constructor; [first [left; reflexivity | right; reflexivity] | constructor]).
Defined.

(** ** [random_sample] and [gather_neighbour], entry by entry *)

(** X8: with one candidate per output point, as for the interpolation indices
    of the decoder, [random_sample] copies the feature of the point the index
    names: nearest-neighbour interpolation. *)
Theorem random_sample_nearest (feature : tensor R) (interp_idx : tensor Z)
    (B d N N' : nat) :
  has_shape feature [B; d; N; 1] ->
  has_shape interp_idx [B; N'; 1] ->
  Forall (in_range N) (data interp_idx) ->
  0 < B -> 0 < d -> 0 < N' ->
  exists out,
    RandLANet.random_sample feature interp_idx = Some out
    /\ has_shape out [B; d; N'; 1]
    /\ forall b c p, b < B -> c < d -> p < N' ->
         tget out [b; c; p; 0]
         = tget feature [b; c; Z.to_nat (tget interp_idx [b; p; 0]); 0].
Proof.
  intros Hf Hi Hr HB Hd HN'.
  destruct (@random_sample_spec feature interp_idx B d N N' 1 Hf Hi Hr HB Hd HN')
    as (out & E & Ho & Hv); [lia|].
  exists out. split; [exact E|]. split; [exact Ho|].
  intros b c p Hb Hc Hp. rewrite Hv by assumption. reflexivity.
Qed.

Lemma random_sample_nearest_witness :
  exists out,
    RandLANet.random_sample example_feature example_interp_idx = Some out
    /\ has_shape out [1; 1; 2; 1]
    /\ forall b c p, b < 1 -> c < 1 -> p < 2 ->
         tget out [b; c; p; 0]
         = tget example_feature [b; c; Z.to_nat (tget example_interp_idx [b; p; 0]); 0].
Proof.
  apply (random_sample_nearest (N := 3)).
  - split; reflexivity.
  - split; reflexivity.
  - repeat constructor; unfold in_range; simpl; lia.
  - lia.
  - lia.
  - lia.
Defined.

(** X9: every entry of the result of [random_sample] is the feature of one of
    the [K] candidates of its point, and no candidate has a greater feature. *)
Theorem random_sample_greatest (feature : tensor R) (pool_idx : tensor Z)
    (B d N N' K : nat) :
  has_shape feature [B; d; N; 1] ->
  has_shape pool_idx [B; N'; K] ->
  Forall (in_range N) (data pool_idx) ->
  0 < B -> 0 < d -> 0 < N' -> 0 < K ->
  exists out,
    RandLANet.random_sample feature pool_idx = Some out
    /\ forall b c p, b < B -> c < d -> p < N' ->
         (exists k, k < K
            /\ tget out [b; c; p; 0]
               = tget feature [b; c; Z.to_nat (tget pool_idx [b; p; k]); 0])
         /\ (forall k, k < K ->
               Rle (tget feature [b; c; Z.to_nat (tget pool_idx [b; p; k]); 0])
                   (tget out [b; c; p; 0])).
Proof.
  intros Hf Hi Hr HB Hd HN' HK.
  destruct (@random_sample_spec feature pool_idx B d N N' K Hf Hi Hr HB Hd HN' HK)
    as (out & E & Ho & Hv).
  exists out. split; [exact E|].
  intros b c p Hb Hc Hp. rewrite Hv by assumption.
  set (g := fun k => tget feature [b; c; Z.to_nat (tget pool_idx [b; p; k]); 0]).
  split.
  - assert (Hin : In (Rmaximum (map g (seq 0 K))) (map g (seq 0 K))).
    { apply Rmaximum_In. destruct K; [lia | discriminate]. }
    apply in_map_iff in Hin as (k & Ek & Hk). apply in_seq in Hk.
    exists k. split; [lia | rewrite <- Ek; reflexivity].
  - intros k Hk. apply Rmaximum_ub. apply in_map_iff.
    exists k. split; [reflexivity | apply in_seq; lia].
Qed.

Lemma random_sample_greatest_witness :
  exists out,
    RandLANet.random_sample example_feature example_pool_idx = Some out
    /\ forall b c p, b < 1 -> c < 1 -> p < 2 ->
         (exists k, k < 2
            /\ tget out [b; c; p; 0]
               = tget example_feature [b; c; Z.to_nat (tget example_pool_idx [b; p; k]); 0])
         /\ (forall k, k < 2 ->
               Rle (tget example_feature
                      [b; c; Z.to_nat (tget example_pool_idx [b; p; k]); 0])
                   (tget out [b; c; p; 0])).
Proof.
  apply (random_sample_greatest (N := 3)).
  - split; reflexivity.
  - split; reflexivity.
  - repeat constructor; unfold in_range; simpl; lia.
  - lia.
  - lia.
  - lia.
  - lia.
Defined.

(** X10: [random_sample] raises when the last axis of [feature] is not of
    size 1 ([feature.squeeze(-1)] refuses it). *)
Theorem random_sample_needs_unit_axis (feature : tensor R) (pool_idx : tensor Z)
    (B d N W : nat) :
  shape feature = [B; d; N; W] -> W <> 1 ->
  RandLANet.random_sample feature pool_idx = None.
Proof.
  intros S HW.
  assert (Es : squeeze (-1) feature = None).
  { unfold squeeze, rank. rewrite S. cbn [length].
    change (norm_axis 4 (-1)) with (Some 3). cbn [bind nth].
    apply Nat.eqb_neq in HW. now rewrite HW. }
  unfold RandLANet.random_sample. rewrite Es.
  repeat match goal with
         | |- bind ?m _ = None => destruct m; [cbn [bind] | reflexivity]
         end.
  reflexivity.
Qed.

Lemma random_sample_needs_unit_axis_witness :
  RandLANet.random_sample example_x example_pool_idx = None.
Proof.
  apply (@random_sample_needs_unit_axis example_x example_pool_idx 1 1 1 2).
  - reflexivity.
  - lia.
Defined.

Lemma tget_tmap_IZR (t : tensor Z) (idx : list nat) :
  tget (tmap IZR t) idx = IZR (tget t idx).
Proof.
  unfold tget, tmap; simpl. unfold dflt, Dflt_R, Dflt_Z.
  change 0%R with (IZR 0). apply map_nth.
Qed.

Lemma gather_neighbour_raw_value {A} `{Dflt A} (pc : tensor A) (idx : tensor Z) (B N K : nat) :
  has_shape pc [B; N; 13] -> has_shape idx [B; N; K] ->
  Forall (in_range N) (data idx) -> 0 < N -> 0 < B -> 0 < K ->
  exists g,
    RandLANet.gather_neighbour_raw pc idx = Some g
    /\ has_shape g [B; N; K; 13]
    /\ forall b n k c, b < B -> n < N -> k < K -> c < 13 ->
         tget g [b; n; k; c] = tget pc [b; Z.to_nat (tget idx [b; n; k]); c].
Proof.
  intros [Wp Sp] [Wi Si] Hr HN HB HK. unfold RandLANet.gather_neighbour_raw.
  rewrite expand_dims_spec with (a := 1) by (unfold rank; rewrite Si; reflexivity).
  cbn [bind]. rewrite Si. cbn [insert_at firstn skipn app].
  rewrite Tile_channel with (B := B) (N := N) (K := K) by side. cbn [bind].
  change (py_nth [B; N; K] (-1)) with (Some K). cbn [bind].
  rewrite transpose_021 with (s0 := B) (s1 := N) (s2 := 13) by exact Sp. cbn [bind].
  rewrite expand_dims_spec with (a := 3) by reflexivity. cbn [bind].
  rewrite shape_build. cbn [insert_at firstn skipn app].
  rewrite Tile_last with (B := B) (C := 13) (N := N) (K := K) by side. cbn [bind].
  rewrite GatherD_spec with (a := 2); [| reflexivity | reflexivity |].
  2:{ rewrite shape_build. cbn [nth].
      apply Forall_sel_build; [unfold in_range, dflt, Dflt_Z; lia | exact Hr]. }
  cbn [bind]. rewrite shape_build.
  rewrite transpose_0231 with (s0 := B) (s1 := 13) (s2 := N) (s3 := K) by reflexivity.
  eexists. split; [reflexivity|]. split; [apply has_shape_build|].
  intros b n k c Hb Hn Hk Hc.
  assert (Hi : in_range N (tget idx [b; n; k])).
  { apply Forall_tget; [exact Wi | exact Hr | rewrite Si; cbn; lia]. }
  unfold in_range in Hi.
  assert (Ei : tget (build [B; 13; N; K]
                 (fun idx0 => tget {| shape := [B; 1; N; K]; data := data idx |}
                                   (replace_at 1 0 idx0))) [b; c; n; k]
               = tget idx [b; n; k]).
  { rewrite tget_build by (cbn; lia). cbn [replace_at firstn skipn app].
    apply tget_same_data. rewrite Si. cbn. lia. }
  rewrite tget_build by (cbn; lia). cbn [nth].
  rewrite tget_build by (cbn; lia).
  rewrite Ei. cbn [replace_at firstn skipn app].
  rewrite tget_build by (cbn; lia). cbn [replace_at firstn skipn app].
  rewrite tget_same_data with (idx' := [b; c; Z.to_nat (tget idx [b; n; k])])
    by (unfold build; cbn; lia).
  rewrite tget_build by (cbn; lia). reflexivity.
Qed.

Lemma gather_neighbour_spec (pc : dtensor) (idx : tensor Z) (B N K : nat) :
  dwf pc -> dshape pc = [B; N; 13] -> has_shape idx [B; N; K] ->
  Forall (in_range N) (data idx) -> 0 < N -> 0 < B -> 0 < K ->
  exists g,
    RandLANet.gather_neighbour pc idx = Some g
    /\ has_shape g [B; N; K; 13]
    /\ forall b n k c, b < B -> n < N -> k < K -> c < 13 ->
         tget g [b; n; k; c]
         = tget (astype_float32 pc) [b; Z.to_nat (tget idx [b; n; k]); c].
Proof.
  intros Wp Sp Hi Hr HN HB HK. unfold RandLANet.gather_neighbour.
  destruct pc as [t|t]; simpl in Wp, Sp.
  - destruct (@gather_neighbour_raw_value Z _ t idx B N K (conj Wp Sp) Hi Hr HN)
      as (g & E & Hg & Hv); [side .. |].
    rewrite E. cbn [bind]. eexists. split; [reflexivity|].
    split; [simpl; now apply has_shape_tmap|].
    intros b n k c Hb Hn Hk Hc. simpl.
    rewrite !tget_tmap_IZR. now rewrite Hv.
  - destruct (@gather_neighbour_raw_value R _ t idx B N K (conj Wp Sp) Hi Hr HN)
      as (g & E & Hg & Hv); [side .. |].
    rewrite E. cbn [bind]. eexists. split; [reflexivity|].
    split; [exact Hg|]. intros b n k c Hb Hn Hk Hc. simpl. now apply Hv.
Qed.

(** X11: on non-empty inputs with indices in range, [gather_neighbour]
    returns a [float32] tensor of shape (B, N, K, 13)
    whose entry (b, n, k, c) is channel [c] of the [k]-th neighbour of point
    [n], for [int32] and [float32] inputs alike. *)
Theorem gather_neighbour_value (pc : dtensor) (idx : tensor Z) (B N K : nat) :
  dwf pc -> dshape pc = [B; N; 13] -> has_shape idx [B; N; K] ->
  Forall (in_range N) (data idx) -> 0 < N -> 0 < B -> 0 < K ->
  exists g,
    RandLANet.gather_neighbour pc idx = Some g
    /\ has_shape g [B; N; K; 13]
    /\ forall b n k c, b < B -> n < N -> k < K -> c < 13 ->
         tget g [b; n; k; c] = tget (astype_float32 pc) [b; neighbour_of idx b n k; c].
Proof. apply gather_neighbour_spec. Qed.

(** ** The pooled labels, entry by entry *)

Lemma ReduceMax_axis2_value (g : tensor R) (B N K C : nat) :
  has_shape g [B; N; K; C] -> 0 < K ->
  exists m, P.ReduceMax false g 2 = Some m /\ has_shape m [B; N; C]
            /\ forall b n c, b < B -> n < N -> c < C ->
                 tget m [b; n; c] = Rmaximum (map (fun k => tget g [b; n; k; c]) (seq 0 K)).
Proof.
  intros [W S] HK.
  rewrite ReduceMax_spec with (a := 2);
    [| unfold rank; rewrite S; reflexivity | rewrite S; cbn; lia].
  rewrite S. eexists. split; [reflexivity|]. split; [apply has_shape_build|].
  intros b n c Hb Hn Hc. cbn [P.reduced_shape remove_at firstn skipn app nth].
  rewrite tget_build by (cbn; lia). reflexivity.
Qed.

Lemma gather_neighbour_value_witness :
  exists g,
    RandLANet.gather_neighbour (TInt32 one_point_multihot) one_point_idx = Some g
    /\ has_shape g [1; 1; 1; 13]
    /\ forall b n k c, b < 1 -> n < 1 -> k < 1 -> c < 13 ->
         tget g [b; n; k; c]
         = tget (astype_float32 (TInt32 one_point_multihot))
                [b; neighbour_of one_point_idx b n k; c].
Proof.
  apply gather_neighbour_value.
  - reflexivity.
  - reflexivity.
  - split; reflexivity.
  - repeat constructor; unfold in_range; simpl; lia.
  - lia.
  - lia.
  - lia.
Defined.

Lemma neighbour_max_step (pc : dtensor) (idx : tensor Z) (f : nat -> nat -> nat -> R)
    (B N K : nat) :
  dwf pc -> dshape pc = [B; N; 13] -> has_shape idx [B; N; K] ->
  Forall (in_range N) (data idx) -> 0 < N -> 0 < K -> 0 < B ->
  (forall b n c, b < B -> n < N -> c < 13 -> tget (astype_float32 pc) [b; n; c] = f b n c) ->
  exists g m,
    RandLANet.gather_neighbour pc idx = Some g
    /\ P.ReduceMax false g 2 = Some m
    /\ has_shape m [B; N; 13]
    /\ forall b n c, b < B -> n < N -> c < 13 ->
         tget m [b; n; c] = neighbour_max f idx K b n c.
Proof.
  intros Wp Sp Hi Hr HN HK HB Hf.
  destruct (@gather_neighbour_spec pc idx B N K Wp Sp Hi Hr HN) as (g & Eg & Hg & Hgv); [side .. |].
  destruct (@ReduceMax_axis2_value g B N K 13 Hg HK) as (m & Em & Hm & Hmv).
  exists g, m. repeat split; try assumption; try apply Hm.
  intros b n c Hb Hn Hc. rewrite Hmv by assumption. unfold neighbour_max, neighbour_of.
  f_equal. apply map_ext_in. intros k Hk. apply in_seq in Hk.
  rewrite Hgv by (auto; lia). apply Hf; auto.
  assert (Hin : in_range N (tget idx [b; n; k])).
  { apply Forall_tget; [apply Hi | exact Hr | rewrite (proj2 Hi); cbn; lia]. }
  unfold in_range in Hin. lia.
Qed.

Lemma pool_labels_spec (label : dtensor) (neighbor_idx sub_idx : tensor Z)
    (B N N' K Ks : nat) :
  dwf label -> dshape label = [B; N; 13] ->
  has_shape neighbor_idx [B; N; K] -> Forall (in_range N) (data neighbor_idx) ->
  has_shape sub_idx [B; N'; Ks] -> Forall (in_range N) (data sub_idx) ->
  0 < B -> 0 < N -> 0 < N' -> 0 < K -> 0 < Ks ->
  exists t,
    RandLANet.pool_labels label neighbor_idx sub_idx = Some t
    /\ has_shape t [B; N'; 13]
    /\ forall b p c, b < B -> p < N' -> c < 13 ->
         tget t [b; p; c]
         = neighbour_max
             (neighbour_max
                (neighbour_max (fun b n c => tget (astype_float32 label) [b; n; c])
                               neighbor_idx K)
                neighbor_idx K)
             sub_idx Ks b p c.
Proof.
  intros Wl Sl Hn Hrn Hs Hrs HB HN HN' HK HKs. unfold RandLANet.pool_labels.
  destruct (@neighbour_max_step label neighbor_idx
              (fun b n c => tget (astype_float32 label) [b; n; c]) B N K
              Wl Sl Hn Hrn HN HK HB) as (g1 & m1 & E1 & Em1 & Hm1 & Hv1); [reflexivity|].
  rewrite E1. cbn [bind]. rewrite Em1. cbn [bind].
  destruct (@neighbour_max_step (TFloat32 m1) neighbor_idx _ B N K
              (proj1 Hm1) (proj2 Hm1) Hn Hrn HN HK HB Hv1)
    as (g2 & m2 & E2 & Em2 & Hm2 & Hv2).
  rewrite E2. cbn [bind]. rewrite Em2. cbn [bind].
  rewrite expand_dims_spec with (a := 2) by (unfold rank; rewrite (proj2 Hm2); reflexivity).
  cbn [bind]. rewrite (proj2 Hm2). cbn [insert_at firstn skipn app].
  rewrite transpose_0312 with (s0 := B) (s1 := N) (s2 := 1) (s3 := 13) by reflexivity.
  cbn [bind].
  set (x2 := build [B; 13; N; 1] _).
  assert (Hx2 : forall b c n, b < B -> c < 13 -> n < N ->
                  tget x2 [b; c; n; 0] = tget m2 [b; n; c]).
  { intros b c n Hb Hc Hn'. unfold x2. rewrite tget_build by (cbn; lia). cbn [nth].
    apply tget_same_data. rewrite (proj2 Hm2). cbn. lia. }
  destruct (@random_sample_spec x2 sub_idx B 13 N N' Ks) as (r & Er & Hr & Hrv);
    auto; try lia.
  { apply has_shape_build. }
  rewrite Er. cbn [bind].
  rewrite transpose_0231 with (s0 := B) (s1 := 13) (s2 := N') (s3 := 1) by apply Hr.
  cbn [bind]. unfold P.Squeeze.
  rewrite squeeze_spec with (a := 2) by reflexivity.
  rewrite shape_build. cbn [remove_at firstn skipn app].
  eexists. split; [reflexivity|]. split.
  { apply has_shape_same_data with (sh := [B; N'; 1; 13]);
      [apply has_shape_build | cbn; lia]. }
  intros b p c Hb Hp Hc.
  rewrite tget_same_data with (idx' := [b; p; 0; c]) by (unfold build; cbn; lia).
  rewrite tget_build by (cbn; lia). cbn [nth].
  rewrite Hrv by assumption. unfold neighbour_max at 1. unfold neighbour_of.
  f_equal. apply map_ext_in. intros k Hk. apply in_seq in Hk.
  assert (Hin : in_range N (tget sub_idx [b; p; k])).
  { apply Forall_tget; [apply Hs | exact Hrs | rewrite (proj2 Hs); cbn; lia]. }
  unfold in_range in Hin.
  rewrite Hx2 by lia. apply Hv2; lia.
Qed.

(** ** The multi-hot labels of the network *)

Lemma pool_labels_pooled (label : dtensor) (neighbor_idx sub_idx : tensor Z)
    (xyz_i : tensor R) (interp_idx_i : tensor Z) (B N N' K Ks Ku : nat) (t : tensor R) :
  dwf label -> dshape label = [B; N; 13] -> 0 < B ->
  level_ok B N N' K Ks Ku xyz_i neighbor_idx sub_idx interp_idx_i ->
  RandLANet.pool_labels label neighbor_idx sub_idx = Some t ->
  pooled_from label neighbor_idx sub_idx B N' K Ks t.
Proof.
  intros Wl Sl HB (_ & Hn & Hrn & Hs & Hrs & _ & _ & HN & HN' & HK & HKs & _) E.
  destruct (@pool_labels_spec label neighbor_idx sub_idx B N N' K Ks
              Wl Sl Hn Hrn Hs Hrs HB HN HN' HK HKs) as (t' & E' & Ht & Hv).
  rewrite E in E'. injection E' as <-. split; assumption.
Qed.

(** C9: on well-shaped inputs the list of multi-hot labels
    [RandLANet.construct] returns has six elements; the first is the one-hot
    encoding of depth 13 of the labels cast to int32, each of the others is
    the pooling of the one before it (neighbour gathering, maximum and
    [random_sample]): element i+1 has the shape (B, N_(i+1), 13) of the
    pooled level and its entry (b, p, c) is the greatest entry of channel [c]
    of element i over the candidates of the pooled point [p], their
    neighbours and the neighbours of these; every entry of every element is
    0 or 1. *)
Theorem C9_multihot_labels (d_in num_classes : nat) (bias : bool) (p : net_params)
    (feature : tensor R) (labels : tensor Z) (p0 p1 p2 p3 p4 : tensor R)
    (n0 n1 n2 n3 n4 pl0 pl1 pl2 pl3 pl4 u0 u1 u2 u3 u4 : tensor Z)
    (B : nat) (N K Ks Ku : nat -> nat) :
  0 < B ->
  has_shape feature [B; N 0; d_in] ->
  has_shape labels [B; N 0] ->
  level_ok B (N 0) (N 1) (K 0) (Ks 0) (Ku 0) p0 n0 pl0 u0 ->
  level_ok B (N 1) (N 2) (K 1) (Ks 1) (Ku 1) p1 n1 pl1 u1 ->
  level_ok B (N 2) (N 3) (K 2) (Ks 2) (Ku 2) p2 n2 pl2 u2 ->
  level_ok B (N 3) (N 4) (K 3) (Ks 3) (Ku 3) p3 n3 pl3 u3 ->
  level_ok B (N 4) (N 5) (K 4) (Ks 4) (Ku 4) p4 n4 pl4 u4 ->
  exists scores multihot_labels supervised_features se_features_list t0 t1 t2 t3 t4,
    RandLANet.construct (RandLANet.init d_in num_classes bias p)
                        [p0; p1; p2; p3; p4] feature [n0; n1; n2; n3; n4]
                        [pl0; pl1; pl2; pl3; pl4] [u0; u1; u2; u3; u4] labels
    = Some (scores, multihot_labels, supervised_features, se_features_list)
    /\ length multihot_labels = 6
    /\ multihot_labels
       = [TInt32 (P.cast_int32 (nn.OneHot 13 labels));
          TFloat32 t0; TFloat32 t1; TFloat32 t2; TFloat32 t3; TFloat32 t4]
    /\ dwf (TInt32 (P.cast_int32 (nn.OneHot 13 labels)))
    /\ dshape (TInt32 (P.cast_int32 (nn.OneHot 13 labels))) = [B; N 0; 13]
    /\ RandLANet.pool_labels (TInt32 (P.cast_int32 (nn.OneHot 13 labels))) n0 pl0 = Some t0
    /\ RandLANet.pool_labels (TFloat32 t0) n1 pl1 = Some t1
    /\ RandLANet.pool_labels (TFloat32 t1) n2 pl2 = Some t2
    /\ RandLANet.pool_labels (TFloat32 t2) n3 pl3 = Some t3
    /\ RandLANet.pool_labels (TFloat32 t3) n4 pl4 = Some t4
    /\ pooled_from (TInt32 (P.cast_int32 (nn.OneHot 13 labels))) n0 pl0
                   B (N 1) (K 0) (Ks 0) t0
    /\ pooled_from (TFloat32 t0) n1 pl1 B (N 2) (K 1) (Ks 1) t1
    /\ pooled_from (TFloat32 t1) n2 pl2 B (N 3) (K 2) (Ks 2) t2
    /\ pooled_from (TFloat32 t2) n3 pl3 B (N 4) (K 3) (Ks 3) t3
    /\ pooled_from (TFloat32 t3) n4 pl4 B (N 5) (K 4) (Ks 4) t4
    /\ Forall binary_dtensor multihot_labels.
Proof.
  intros HB Hf Hl L0 L1 L2 L3 L4.
  destruct (@RandLANet_construct_ok d_in num_classes bias p feature labels
              p0 p1 p2 p3 p4 n0 n1 n2 n3 n4 pl0 pl1 pl2 pl3 pl4 u0 u1 u2 u3 u4
              B N K Ks Ku HB Hf Hl L0 L1 L2 L3 L4)
    as (scores & t0 & t1 & t2 & t3 & t4 & sf & se & Ec & _ & _ & E0 & E1 & E2 & E3 & E4 & _).
  destruct (has_shape_onehot_cast 13 Hl) as [Wl0 Sl0].
  pose proof (pool_labels_pooled _ Wl0 Sl0 HB L0 E0) as P0.
  pose proof (pool_labels_pooled (TFloat32 t0) (proj1 (proj1 P0)) (proj2 (proj1 P0)) HB L1 E1)
    as P1.
  pose proof (pool_labels_pooled (TFloat32 t1) (proj1 (proj1 P1)) (proj2 (proj1 P1)) HB L2 E2)
    as P2.
  pose proof (pool_labels_pooled (TFloat32 t2) (proj1 (proj1 P2)) (proj2 (proj1 P2)) HB L3 E3)
    as P3.
  pose proof (pool_labels_pooled (TFloat32 t3) (proj1 (proj1 P3)) (proj2 (proj1 P3)) HB L4 E4)
    as P4.
  eexists scores, _, sf, se, t0, t1, t2, t3, t4.
  split; [exact Ec|]. split; [reflexivity|]. split; [reflexivity|].
  split; [exact Wl0|]. split; [exact Sl0|].
  repeat (split; [assumption|]).
  pose proof (onehot_cast_binary 13 labels) as B0.
  pose proof (pool_labels_binary _ _ _ E0 B0) as B1.
  pose proof (pool_labels_binary (TFloat32 t0) _ _ E1 B1) as B2.
  pose proof (pool_labels_binary (TFloat32 t1) _ _ E2 B2) as B3.
  pose proof (pool_labels_binary (TFloat32 t2) _ _ E3 B3) as B4.
  pose proof (pool_labels_binary (TFloat32 t3) _ _ E4 B4) as B5.
  repeat constructor; assumption.
Qed.

Lemma C9_multihot_labels_witness :
  exists scores multihot_labels supervised_features se_features_list t0 t1 t2 t3 t4,
    RandLANet.construct (RandLANet.init 1 2 true unit_net_params)
      [one_point_xyz; one_point_xyz; one_point_xyz; one_point_xyz; one_point_xyz]
      one_point_feature
      [one_point_idx; one_point_idx; one_point_idx; one_point_idx; one_point_idx]
      [one_point_idx; one_point_idx; one_point_idx; one_point_idx; one_point_idx]
      [one_point_idx; one_point_idx; one_point_idx; one_point_idx; one_point_idx]
      one_point_labels
    = Some (scores, multihot_labels, supervised_features, se_features_list)
    /\ length multihot_labels = 6
    /\ multihot_labels
       = [TInt32 (P.cast_int32 (nn.OneHot 13 one_point_labels));
          TFloat32 t0; TFloat32 t1; TFloat32 t2; TFloat32 t3; TFloat32 t4]
    /\ dwf (TInt32 (P.cast_int32 (nn.OneHot 13 one_point_labels)))
    /\ dshape (TInt32 (P.cast_int32 (nn.OneHot 13 one_point_labels))) = [1; 1; 13]
    /\ RandLANet.pool_labels (TInt32 (P.cast_int32 (nn.OneHot 13 one_point_labels)))
         one_point_idx one_point_idx = Some t0
    /\ RandLANet.pool_labels (TFloat32 t0) one_point_idx one_point_idx = Some t1
    /\ RandLANet.pool_labels (TFloat32 t1) one_point_idx one_point_idx = Some t2
    /\ RandLANet.pool_labels (TFloat32 t2) one_point_idx one_point_idx = Some t3
    /\ RandLANet.pool_labels (TFloat32 t3) one_point_idx one_point_idx = Some t4
    /\ pooled_from (TInt32 (P.cast_int32 (nn.OneHot 13 one_point_labels)))
                   one_point_idx one_point_idx 1 1 1 1 t0
    /\ pooled_from (TFloat32 t0) one_point_idx one_point_idx 1 1 1 1 t1
    /\ pooled_from (TFloat32 t1) one_point_idx one_point_idx 1 1 1 1 t2
    /\ pooled_from (TFloat32 t2) one_point_idx one_point_idx 1 1 1 1 t3
    /\ pooled_from (TFloat32 t3) one_point_idx one_point_idx 1 1 1 1 t4
    /\ Forall binary_dtensor multihot_labels.
Proof.
  apply (@C9_multihot_labels 1 2 true unit_net_params one_point_feature one_point_labels
           one_point_xyz one_point_xyz one_point_xyz one_point_xyz one_point_xyz
           one_point_idx one_point_idx one_point_idx one_point_idx one_point_idx
           one_point_idx one_point_idx one_point_idx one_point_idx one_point_idx
           one_point_idx one_point_idx one_point_idx one_point_idx one_point_idx
           1 (fun _ => 1) (fun _ => 1) (fun _ => 1) (fun _ => 1)).
  - lia.
  - split; reflexivity.
  - split; reflexivity.
  - exact one_point_level_ok.
  - exact one_point_level_ok.
  - exact one_point_level_ok.
  - exact one_point_level_ok.
  - exact one_point_level_ok.
Defined.

(** X12: the labels pooled by one encoder level: entry (b, p, c) is the
    greatest label of channel [c] over the candidates of the pooled point [p],
    their neighbours and the neighbours of these. *)
Theorem pool_labels_value (label : dtensor) (neighbor_idx sub_idx : tensor Z)
    (B N N' K Ks : nat) :
  dwf label -> dshape label = [B; N; 13] ->
  has_shape neighbor_idx [B; N; K] -> Forall (in_range N) (data neighbor_idx) ->
  has_shape sub_idx [B; N'; Ks] -> Forall (in_range N) (data sub_idx) ->
  0 < B -> 0 < N -> 0 < N' -> 0 < K -> 0 < Ks ->
  exists t,
    RandLANet.pool_labels label neighbor_idx sub_idx = Some t
    /\ has_shape t [B; N'; 13]
    /\ forall b p c, b < B -> p < N' -> c < 13 ->
         tget t [b; p; c]
         = neighbour_max
             (neighbour_max
                (neighbour_max (fun b n c => tget (astype_float32 label) [b; n; c])
                               neighbor_idx K)
                neighbor_idx K)
             sub_idx Ks b p c.
Proof. apply pool_labels_spec. Qed.

Lemma Rmaximum_binary (l : list R) :
  l <> [] -> Forall binary l ->
  binary (Rmaximum l) /\ (Rmaximum l = 1%R <-> In 1%R l).
Proof.
  intros Hne Hb. pose proof (Rmaximum_In Hne) as Hin.
  rewrite Forall_forall in Hb. split; [now apply Hb|]. split.
  - intros E. now rewrite <- E.
  - intros H1. pose proof (Rmaximum_ub l 1%R H1) as Hub.
    destruct (Hb _ Hin) as [E|E]; [lra | exact E].
Qed.

Lemma pool_labels_value_witness :
  exists t,
    RandLANet.pool_labels (TInt32 one_point_multihot) one_point_idx one_point_idx = Some t
    /\ has_shape t [1; 1; 13]
    /\ forall b p c, b < 1 -> p < 1 -> c < 13 ->
         tget t [b; p; c]
         = neighbour_max
             (neighbour_max
                (neighbour_max
                   (fun b n c => tget (astype_float32 (TInt32 one_point_multihot)) [b; n; c])
                   one_point_idx 1)
                one_point_idx 1)
             one_point_idx 1 b p c.
Proof.
  apply (@pool_labels_value (TInt32 one_point_multihot) one_point_idx one_point_idx
           1 1 1 1 1).
  - reflexivity.
  - reflexivity.
  - split; reflexivity.
  - repeat constructor; unfold in_range; simpl; lia.
  - split; reflexivity.
  - repeat constructor; unfold in_range; simpl; lia.
  - lia.
  - lia.
  - lia.
  - lia.
  - lia.
Defined.

Lemma neighbour_max_binary (f : nat -> nat -> nat -> R) (idx : tensor Z) (K b n c : nat) :
  0 < K -> (forall m, binary (f b m c)) ->
  binary (neighbour_max f idx K b n c)
  /\ (neighbour_max f idx K b n c = 1%R
      <-> exists k, k < K /\ f b (neighbour_of idx b n k) c = 1%R).
Proof.
  intros HK Hf. unfold neighbour_max.
  destruct (@Rmaximum_binary
              (map (fun k => f b (neighbour_of idx b n k) c) (seq 0 K)))
    as [Hb Hiff].
  - destruct K; [lia | discriminate].
  - apply Forall_forall. intros v Hv. apply in_map_iff in Hv as (k & <- & _). apply Hf.
  - split; [exact Hb|]. rewrite Hiff, in_map_iff. split.
    + intros (k & E & Hk). apply in_seq in Hk. exists k. split; [lia | exact E].
    + intros (k & Hk & E). exists k. split; [exact E | apply in_seq; lia].
Qed.

Lemma astype_float32_binary (label : dtensor) (idx : list nat) :
  binary_dtensor label -> binary (tget (astype_float32 label) idx).
Proof.
  intros Hb. apply tget_Q; [now left|].
  destruct label as [t|t]; simpl in *; [|exact Hb].
  apply Forall_map. eapply Forall_impl; [|exact Hb].
  intros z [-> | ->]; [now left | now right].
Qed.

(** X13: on multi-hot labels one pooling is a union: the pooled label of class
    [c] at point [p] is 0 or 1, and it is 1 exactly when some point reached
    from a candidate of [p] by two neighbour steps has class [c]. *)
Theorem pool_labels_union (label : dtensor) (neighbor_idx sub_idx : tensor Z)
    (B N N' K Ks : nat) :
  dwf label -> dshape label = [B; N; 13] -> binary_dtensor label ->
  has_shape neighbor_idx [B; N; K] -> Forall (in_range N) (data neighbor_idx) ->
  has_shape sub_idx [B; N'; Ks] -> Forall (in_range N) (data sub_idx) ->
  0 < B -> 0 < N -> 0 < N' -> 0 < K -> 0 < Ks ->
  exists t,
    RandLANet.pool_labels label neighbor_idx sub_idx = Some t
    /\ forall b p c, b < B -> p < N' -> c < 13 ->
         (tget t [b; p; c] = 0%R \/ tget t [b; p; c] = 1%R)
         /\ (tget t [b; p; c] = 1%R
             <-> exists k k1 k2, k < Ks /\ k1 < K /\ k2 < K
                   /\ tget (astype_float32 label)
                        [b;
                         neighbour_of neighbor_idx b
                           (neighbour_of neighbor_idx b (neighbour_of sub_idx b p k) k1) k2;
                         c] = 1%R).
Proof.
  intros Wl Sl Hbin Hn Hrn Hs Hrs HB HN HN' HK HKs.
  destruct (@pool_labels_spec label neighbor_idx sub_idx B N N' K Ks
              Wl Sl Hn Hrn Hs Hrs HB HN HN' HK HKs) as (t & E & _ & Hv).
  exists t. split; [exact E|].
  intros b p c Hb Hp Hc. rewrite Hv by assumption.
  set (f0 := fun b n c => tget (astype_float32 label) [b; n; c]).
  assert (H0 : forall b m c, binary (f0 b m c)).
  { intros. now apply astype_float32_binary. }
  assert (H1 : forall b m c, binary (neighbour_max f0 neighbor_idx K b m c)).
  { intros. now apply neighbour_max_binary. }
  assert (H2 : forall b m c,
             binary (neighbour_max (neighbour_max f0 neighbor_idx K) neighbor_idx K b m c)).
  { intros. now apply neighbour_max_binary. }
  destruct (@neighbour_max_binary
              (neighbour_max (neighbour_max f0 neighbor_idx K) neighbor_idx K)
              sub_idx Ks b p c HKs (fun m => H2 b m c)) as [Hb3 Hi3].
  split; [exact Hb3|]. rewrite Hi3. split.
  - intros (k & Hk & E3).
    apply (@neighbour_max_binary (neighbour_max f0 neighbor_idx K) neighbor_idx K b
             _ c HK (fun m => H1 b m c)) in E3 as (k1 & Hk1 & E2).
    apply (@neighbour_max_binary f0 neighbor_idx K b _ c HK (fun m => H0 b m c)) in E2 as (k2 & Hk2 & E1).
    exists k, k1, k2. auto.
  - intros (k & k1 & k2 & Hk & Hk1 & Hk2 & E1).
    exists k. split; [exact Hk|].
    apply (@neighbour_max_binary (neighbour_max f0 neighbor_idx K) neighbor_idx K b
             _ c HK (fun m => H1 b m c)).
    exists k1. split; [exact Hk1|].
    apply (@neighbour_max_binary f0 neighbor_idx K b _ c HK (fun m => H0 b m c)).
    exists k2. split; [exact Hk2 | exact E1].
Qed.

Lemma pool_labels_union_witness :
  exists t,
    RandLANet.pool_labels (TInt32 one_point_multihot) one_point_idx one_point_idx = Some t
    /\ forall b p c, b < 1 -> p < 1 -> c < 13 ->
         (tget t [b; p; c] = 0%R \/ tget t [b; p; c] = 1%R)
         /\ (tget t [b; p; c] = 1%R
             <-> exists k k1 k2, k < 1 /\ k1 < 1 /\ k2 < 1
                   /\ tget (astype_float32 (TInt32 one_point_multihot))
                        [b;
                         neighbour_of one_point_idx b
                           (neighbour_of one_point_idx b (neighbour_of one_point_idx b p k) k1)
                           k2;
                         c] = 1%R).
Proof.
  apply (@pool_labels_union (TInt32 one_point_multihot) one_point_idx one_point_idx
           1 1 1 1 1).
  - reflexivity.
  - reflexivity.
  - simpl. repeat (apply Forall_cons; [lia|]). apply Forall_nil.
  - split; reflexivity.
  - repeat constructor; unfold in_range; simpl; lia.
  - split; reflexivity.
  - repeat constructor; unfold in_range; simpl; lia.
  - lia.
  - lia.
  - lia.
  - lia.
  - lia.
Defined.

(** ** The supervised features are laid out point by point *)

(** X14: [P.Squeeze(2)(x.transpose(0, 2, 3, 1))] turns supervision features
    of shape (B, 13, N, 1) into shape (B, N, 13), entry (b, n, c) being
    entry (b, c, n, 0) of the input. *)
Theorem to_supervised_value (x : tensor R) (B N : nat) :
  has_shape x [B; 13; N; 1] ->
  exists out,
    RandLANet.to_supervised x = Some out
    /\ has_shape out [B; N; 13]
    /\ forall b n c, b < B -> n < N -> c < 13 -> tget out [b; n; c] = tget x [b; c; n; 0].
Proof.
  intros [W S]. unfold RandLANet.to_supervised.
  rewrite transpose_0231 with (s0 := B) (s1 := 13) (s2 := N) (s3 := 1) by exact S.
  cbn [bind]. unfold P.Squeeze.
  rewrite squeeze_spec with (a := 2) by reflexivity.
  rewrite shape_build. cbn [remove_at firstn skipn app].
  eexists. split; [reflexivity|]. split.
  { apply has_shape_same_data with (sh := [B; N; 1; 13]);
      [apply has_shape_build | cbn; lia]. }
  intros b n c Hb Hn Hc.
  rewrite tget_same_data with (idx' := [b; n; 0; c]) by (unfold build; cbn; lia).
  rewrite tget_build by (cbn; lia). reflexivity.
Qed.

Lemma to_supervised_value_witness :
  exists out,
    RandLANet.to_supervised one_point_supervised = Some out
    /\ has_shape out [1; 1; 13]
    /\ forall b n c, b < 1 -> n < 1 -> c < 13 ->
         tget out [b; n; c] = tget one_point_supervised [b; c; n; 0].
Proof. apply to_supervised_value. split; reflexivity. Defined.

(** ** Attentive pooling refuses a wrong channel count *)

Lemma scores_wrong_channels (d_in d_out : nat) (bias : bool) (p : pool_params)
    (x : tensor R) (B c N K : nat) :
  shape x = [B; c; N; K] -> c <> d_in ->
  AttentivePooling.scores (AttentivePooling.init d_in d_out bias p) x = None.
Proof.
  intros E Hc. unfold AttentivePooling.scores, AttentivePooling.score_fn,
    AttentivePooling.init.
  cbn [AttentivePooling.score_dense].
  rewrite transpose_0231 with (s0 := B) (s1 := c) (s2 := N) (s3 := K) by exact E.
  cbn [bind]. unfold nn.Dense_construct, rank. rewrite shape_build.
  cbn [length Nat.eqb negb andb last nn.dense_in].
  apply Nat.eqb_neq in Hc. rewrite Hc. reflexivity.
Qed.

(** X16: [AttentivePooling.construct] raises on an input whose channel count
    differs from [in_channels] (the dense layer of the score function refuses
    it). *)
Theorem AttentivePooling_wrong_channels (d_in d_out : nat) (bias : bool) (p : pool_params)
    (x : tensor R) (B c N K : nat) :
  shape x = [B; c; N; K] -> c <> d_in ->
  AttentivePooling.construct (AttentivePooling.init d_in d_out bias p) x = None.
Proof.
  intros E Hc. unfold AttentivePooling.construct.
  now rewrite (@scores_wrong_channels d_in d_out bias p x B c N K E Hc).
Qed.

Lemma AttentivePooling_wrong_channels_witness :
  AttentivePooling.construct (AttentivePooling.init 2 1 true unit_pool_params) example_x
  = None.
Proof.
  apply (@AttentivePooling_wrong_channels 2 1 true unit_pool_params example_x 1 1 1 2).
  - reflexivity.
  - lia.
Defined.

(** ** The inputs [SharedMLP] accepts *)

Lemma SharedMLP_input_shape (cin cout : nat) (tr bn : bool) (act : option R) (bias : bool)
    (p : mlp_params) (x out : tensor R) :
  SharedMLP.construct (SharedMLP.init cin cout tr bn act bias p) x = Some out ->
  exists B H W, shape x = [B; cin; H; W] /\ 0 < H /\ 0 < W.
Proof.
  intros E. unfold SharedMLP.construct, SharedMLP.init in E.
  cbn [SharedMLP.conv] in E. apply bind_Some in E as (y & Ey & _).
  unfold nn.Conv2d_construct in Ey. apply bind_Some in Ey as (u & Eg & _).
  unfold guard in Eg. destruct (_ && _) eqn:G; [|discriminate].
  apply andb_prop in G as [G G4]. apply andb_prop in G as [G G3].
  apply andb_prop in G as [G1 G2].
  apply Nat.eqb_eq in G1, G2. apply Nat.ltb_lt in G3, G4.
  unfold rank in G1. cbn [nn.conv_in] in G2.
  destruct (shape x) as [|B [|c [|H [|W [|]]]]]; simpl in G1; try discriminate.
  simpl in G2, G3, G4. subst c. now exists B, H, W.
Qed.

(** X17: [SharedMLP.construct] returns only on inputs of rank 4 with
    [in_channels] channels and non-empty spatial axes, and it returns on
    every such input that is not empty; the result keeps the batch and the
    two spatial axes and has [out_channels] channels. *)
Theorem SharedMLP_accepts (cin cout : nat) (tr bn : bool) (act : option R) (bias : bool)
    (p : mlp_params) (x : tensor R) :
  (forall out,
     SharedMLP.construct (SharedMLP.init cin cout tr bn act bias p) x = Some out ->
     exists B H W,
       shape x = [B; cin; H; W] /\ 0 < H /\ 0 < W /\ has_shape out [B; cout; H; W])
  /\ (forall B H W,
        shape x = [B; cin; H; W] ->
        0 < B -> 0 < cin -> 0 < H -> 0 < W ->
        exists out,
          SharedMLP.construct (SharedMLP.init cin cout tr bn act bias p) x = Some out
          /\ has_shape out [B; cout; H; W]).
Proof.
  split.
  - intros out E.
    destruct (SharedMLP_input_shape _ _ _ _ _ _ _ _ E) as (B & H & W & S & HH & HW).
    destruct (@SharedMLP_shape cin cout tr bn act bias p x B H W S HH HW) as (out' & Eo & Ho).
    rewrite E in Eo. injection Eo as <-. now exists B, H, W.
  - intros B H W S _ _ HH HW. now apply SharedMLP_shape.
Qed.

(** ** The local spatial encoding, entry by entry *)

Lemma tget_tmap_fix (f : R -> R) (t : tensor R) (idx : list nat) :
  f 0%R = 0%R -> tget (tmap f t) idx = f (tget t idx).
Proof.
  intros E. unfold tget, tmap; simpl. unfold dflt, Dflt_R.
  rewrite <- E at 1. apply map_nth.
Qed.

Lemma extended_idx_value (idx : tensor Z) (B N K c M : nat) :
  has_shape idx [B; N; K] -> Forall (in_range M) (data idx) -> 0 < M ->
  0 < B -> 0 < N -> 0 < K -> 0 < c ->
  exists idx1 e,
    expand_dims 1 idx = Some idx1
    /\ P.Tile idx1 [1; c; 1; 1] = Some e
    /\ has_shape e [B; c; N; K]
    /\ Forall (in_range M) (data e)
    /\ forall b j n k, b < B -> j < c -> n < N -> k < K ->
         tget e [b; j; n; k] = tget idx [b; n; k].
Proof.
  intros [W S] Hr HM HB HN HK Hc.
  rewrite expand_dims_spec with (a := 1) by (unfold rank; rewrite S; reflexivity).
  rewrite S. cbn [insert_at firstn skipn app].
  eexists. eexists. split; [reflexivity|].
  rewrite Tile_channel with (B := B) (N := N) (K := K) by side.
  split; [reflexivity|]. split; [apply has_shape_build|].
  split; [apply Forall_sel_build; [unfold in_range, dflt, Dflt_Z; lia | exact Hr]|].
  intros b j n k Hb Hj Hn Hk.
  rewrite tget_build by (cbn; lia). cbn [replace_at firstn skipn app].
  apply tget_same_data. rewrite S. cbn. lia.
Qed.

Lemma xyz_tile_value (coords : tensor R) (B N C K : nat) :
  shape coords = [B; N; C] ->
  0 < B -> 0 < N -> 0 < C -> 0 < K ->
  exists c1 c2 t,
    transpose [0; 2; 1] coords = Some c1
    /\ expand_dims (-1) c1 = Some c2
    /\ P.Tile c2 [1; 1; 1; K] = Some t
    /\ has_shape t [B; C; N; K]
    /\ forall b j n k, b < B -> j < C -> n < N -> k < K ->
         tget t [b; j; n; k] = tget coords [b; n; j].
Proof.
  intros S HB HN HC HK.
  rewrite transpose_021 with (s0 := B) (s1 := N) (s2 := C) by exact S.
  eexists. eexists. eexists. split; [reflexivity|].
  rewrite expand_dims_spec with (a := 3) by reflexivity.
  split; [reflexivity|].
  rewrite shape_build. cbn [insert_at firstn skipn app].
  rewrite Tile_last with (B := B) (C := C) (N := N) (K := K) by side.
  split; [reflexivity|]. split; [apply has_shape_build|].
  intros b j n k Hb Hj Hn Hk.
  rewrite tget_build by (cbn; lia). cbn [replace_at firstn skipn app].
  rewrite tget_same_data with (idx' := [b; j; n]) by (unfold build; cbn; lia).
  rewrite tget_build by (cbn; lia). reflexivity.
Qed.

Lemma Tile_last_value (t : tensor R) (B C N K : nat) :
  shape t = [B; C; N; 1] ->
  0 < B -> 0 < C -> 0 < N -> 0 < K ->
  exists out,
    P.Tile t [1; 1; 1; K] = Some out
    /\ has_shape out [B; C; N; K]
    /\ forall b c n k, b < B -> c < C -> n < N -> k < K ->
         tget out [b; c; n; k] = tget t [b; c; n; 0].
Proof.
  intros S HB HC HN HK. rewrite Tile_last with (B := B) (C := C) (N := N) (K := K) by (first [exact S | side]).
  eexists. split; [reflexivity|]. split; [apply has_shape_build|].
  intros b c n k Hb Hc Hn Hk. rewrite tget_build by (cbn; lia). reflexivity.
Qed.

Lemma GatherD_axis2_value (x : tensor R) (e : tensor Z) (B C N N' K : nat) :
  shape x = [B; C; N; K] -> has_shape e [B; C; N'; K] ->
  Forall (in_range N) (data e) ->
  exists g,
    P.GatherD x 2 e = Some g
    /\ has_shape g [B; C; N'; K]
    /\ forall b c n k, b < B -> c < C -> n < N' -> k < K ->
         tget g [b; c; n; k] = tget x [b; c; Z.to_nat (tget e [b; c; n; k]); k].
Proof.
  intros Sx [We Se] Hr.
  rewrite GatherD_spec with (a := 2);
    [| unfold rank; rewrite Sx; reflexivity
     | rewrite Se, Sx; reflexivity
     | rewrite Sx; exact Hr].
  rewrite Se. eexists. split; [reflexivity|]. split; [apply has_shape_build|].
  intros b c n k Hb Hc Hn Hk. rewrite tget_build by (cbn; lia). reflexivity.
Qed.

Lemma tmap2_same_value (f : R -> R -> R) (a b : tensor R) (B C N K : nat) :
  shape a = [B; C; N; K] -> shape b = [B; C; N; K] ->
  exists out,
    tmap2 f a b = Some out
    /\ has_shape out [B; C; N; K]
    /\ forall i c n k, i < B -> c < C -> n < N -> k < K ->
         tget out [i; c; n; k] = f (tget a [i; c; n; k]) (tget b [i; c; n; k]).
Proof.
  intros Sa Sb. rewrite tmap2_same with (sh := [B; C; N; K]) by assumption.
  eexists. split; [reflexivity|]. split; [apply has_shape_build|].
  intros i c n k Hi Hc Hn Hk. rewrite tget_build by (cbn; lia). reflexivity.
Qed.

Lemma ReduceSum_channels_value (x : tensor R) (axis : Z) (B C N K : nat) :
  norm_axis 4 axis = Some 1 -> shape x = [B; C; N; K] ->
  exists out,
    P.ReduceSum true x axis = Some out
    /\ has_shape out [B; 1; N; K]
    /\ forall b n k, b < B -> n < N -> k < K ->
         tget out [b; 0; n; k] = Rsum (map (fun c => tget x [b; c; n; k]) (seq 0 C)).
Proof.
  intros Ea E. rewrite ReduceSum_spec with (a := 1) by (unfold rank; rewrite E; exact Ea).
  rewrite E. eexists. split; [reflexivity|]. split; [apply has_shape_build|].
  intros b n k Hb Hn Hk.
  rewrite tget_build by (cbn; lia). reflexivity.
Qed.

Lemma Concat2_channels_value (axis : Z) (t1 t2 : tensor R) (B c1 c2 N K : nat) :
  norm_axis 4 axis = Some 1 ->
  shape t1 = [B; c1; N; K] -> shape t2 = [B; c2; N; K] ->
  exists out,
    P.Concat2 axis t1 t2 = Some out
    /\ has_shape out [B; c1 + c2; N; K]
    /\ (forall b c n k, b < B -> c < c1 -> n < N -> k < K ->
          tget out [b; c; n; k] = tget t1 [b; c; n; k])
    /\ (forall b c n k, b < B -> c < c2 -> n < N -> k < K ->
          tget out [b; c1 + c; n; k] = tget t2 [b; c; n; k]).
Proof.
  intros Ea E1 E2. unfold P.Concat2, rank. rewrite E1, E2. cbn [length].
  rewrite Ea. cbn [bind remove_at firstn skipn app Nat.eqb andb].
  rewrite shape_eqb_refl. cbn [guard bind nth replace_at firstn skipn app].
  eexists. split; [reflexivity|]. split; [apply has_shape_build|]. split.
  - intros b c n k Hb Hc Hn Hk. rewrite tget_build by (cbn; lia).
    cbn [nth]. apply Nat.ltb_lt in Hc. now rewrite Hc.
  - intros b c n k Hb Hc Hn Hk. rewrite tget_build by (cbn; lia).
    cbn [nth]. assert (Hge : (c1 + c <? c1) = false) by (apply Nat.ltb_ge; lia).
    rewrite Hge. cbn [replace_at firstn skipn app].
    now replace (c1 + c - c1) with c by lia.
Qed.

(** The shared end of [LocalSpatialEncoding.construct]: the features of
    the neighbours are gathered and appended to the encoded coordinates. *)
Lemma LSE_neighbours (f_xyz features : tensor R) (idx : tensor Z) (B d N K : nat) :
  has_shape f_xyz [B; d; N; K] -> has_shape features [B; d; N; 1] ->
  has_shape idx [B; N; K] -> Forall (in_range N) (data idx) -> 0 < N ->
  0 < B -> 0 < K -> 0 < d ->
  exists f_concat,
    (f_tile <- P.Tile features [1; 1; 1; K] ;;
     idx1 <- expand_dims 1 idx ;;
     c <- nth_error (shape f_xyz) 1 ;;
     extended_idx_for_feat <- P.Tile idx1 [1; c; 1; 1] ;;
     f_neighbours <- P.GatherD f_tile 2 extended_idx_for_feat ;;
     P.Concat (-3) [f_xyz; f_neighbours]) = Some f_concat
    /\ has_shape f_concat [B; d + d; N; K]
    /\ forall b c n k, b < B -> c < d -> n < N -> k < K ->
         tget f_concat [b; c; n; k] = tget f_xyz [b; c; n; k]
         /\ tget f_concat [b; d + c; n; k]
            = tget features [b; c; neighbour_of idx b n k; 0].
Proof.
  intros Hx [Wf Sf] Hi Hr HN HB HK Hd.
  destruct (@Tile_last_value features B d N K Sf) as (f_tile & Et & Ht & Vt); [side .. |].
  step Et.
  destruct (@extended_idx_value idx B N K d N Hi Hr HN) as (i1 & e & E1 & E2 & He & Hre & Ve); [side .. |].
  step E1. rewrite (proj2 Hx). cbn [nth_error bind]. step E2.
  destruct (@GatherD_axis2_value f_tile e B d N N K (proj2 Ht) He Hre) as (g & Eg & Hg & Vg); [side .. |].
  step Eg.
  cbn [P.Concat P.Concat_from].
  destruct (@Concat2_channels_value (-3) f_xyz g B d d N K eq_refl (proj2 Hx) (proj2 Hg))
    as (fc & Efc & Hfc & V1 & V2).
  step Efc. exists fc. split; [reflexivity|]. split; [exact Hfc|].
  intros b c n k Hb Hc Hn Hk. split; [now apply V1|].
  unfold neighbour_of. rewrite V2, Vg, Ve by assumption.
  assert (Hin : in_range N (tget idx [b; n; k])).
  { apply Forall_tget; [apply Hi | exact Hr | rewrite (proj2 Hi); cbn; lia]. }
  unfold in_range in Hin.
  apply Vt; try assumption. lia.
Qed.

(** X18: on non-empty inputs (at least one batch element, point, neighbour
    and output channel) and with positional encoding, the tensor that
    [LocalSpatialEncoding] feeds
    to its MLP has ten channels: the distance of the point to its neighbour,
    the three relative coordinates, the coordinates of the point and those of
    the neighbour; the second result is the encoded coordinates followed, along
    the channel axis, by the features gathered from the neighbours. *)
Theorem LSE_pos_value (out_channel : nat) (bias : bool) (p : mlp_params)
    (coords features : tensor R) (idx : tensor Z) (B N K : nat) :
  has_shape coords [B; N; 3] -> has_shape features [B; out_channel; N; 1] ->
  has_shape idx [B; N; K] -> Forall (in_range N) (data idx) -> 0 < N ->
  0 < B -> 0 < K -> 0 < out_channel ->
  exists enc f_xyz f_concat,
    LocalSpatialEncoding.construct
      (LocalSpatialEncoding.init 10 out_channel true bias p) coords features idx
    = Some (LocalSpatialEncoding.Pair f_xyz f_concat)
    /\ has_shape enc [B; 10; N; K]
    /\ SharedMLP.construct
         (LocalSpatialEncoding.mlp (LocalSpatialEncoding.init 10 out_channel true bias p)) enc
       = Some f_xyz
    /\ has_shape f_xyz [B; out_channel; N; K]
    /\ has_shape f_concat [B; out_channel + out_channel; N; K]
    /\ (forall b n k, b < B -> n < N -> k < K ->
          tget enc [b; 0; n; k]
          = sqrt (Rsum (map (fun j => (relative_coord coords idx b n k j
                                       * relative_coord coords idx b n k j)%R) (seq 0 3)))
          /\ forall j, j < 3 ->
               tget enc [b; 1 + j; n; k] = relative_coord coords idx b n k j
               /\ tget enc [b; 4 + j; n; k] = tget coords [b; n; j]
               /\ tget enc [b; 7 + j; n; k] = tget coords [b; neighbour_of idx b n k; j])
    /\ (forall b c n k, b < B -> c < out_channel -> n < N -> k < K ->
          tget f_concat [b; c; n; k] = tget f_xyz [b; c; n; k]
          /\ tget f_concat [b; out_channel + c; n; k]
             = tget features [b; c; neighbour_of idx b n k; 0]).
Proof.
  intros [Wc Sc] Hf Hi Hr HN HB HK Hoc.
  unfold LocalSpatialEncoding.construct, LocalSpatialEncoding.init.
  cbn [LocalSpatialEncoding.use_pos_encoding LocalSpatialEncoding.mlp].
  rewrite (proj2 Hi). change (py_nth [B; N; K] (-1)) with (Some K). cbn [bind].
  destruct (@extended_idx_value idx B N K 3 N Hi Hr HN) as (i1 & e & E1 & E2 & He & Hre & Ve); [side .. |].
  step E1. step E2.
  destruct (@xyz_tile_value coords B N 3 K Sc) as (c1 & c2 & xt & Ec1 & Ec2 & Ext & Hxt & Vxt); [side .. |].
  step Ec1. step Ec2. step Ext.
  destruct (@GatherD_axis2_value xt e B 3 N N K (proj2 Hxt) He Hre) as (nx & Enx & Hnx & Vnx); [side .. |].
  step Enx.
  destruct (@tmap2_same_value Rminus xt nx B 3 N K (proj2 Hxt) (proj2 Hnx))
    as (rx & Erx & Hrx & Vrx).
  step Erx.
  destruct (@ReduceSum_channels_value (P.Square rx) (-3) B 3 N K eq_refl (proj2 Hrx))
    as (sq & Esq & Hsq & Vsq).
  step Esq.
  cbn [P.Concat P.Concat_from].
  destruct (@Concat2_channels_value (-3) (P.Sqrt sq) rx B 1 3 N K eq_refl (proj2 Hsq) (proj2 Hrx))
    as (k1 & Ek1 & Hk1 & V1a & V1b).
  step Ek1.
  destruct (@Concat2_channels_value (-3) k1 xt B (1 + 3) 3 N K eq_refl (proj2 Hk1) (proj2 Hxt))
    as (k2 & Ek2 & Hk2 & V2a & V2b).
  step Ek2.
  destruct (@Concat2_channels_value (-3) k2 nx B (1 + 3 + 3) 3 N K eq_refl (proj2 Hk2) (proj2 Hnx))
    as (enc & Ek3 & Hk3 & V3a & V3b).
  step Ek3.
  destruct (@SharedMLP_shape 10 out_channel false true (Some 0.2%R) bias p enc B N K (proj2 Hk3))
    as (f_xyz & Ex & Hx); [side | side |].
  step Ex.
  destruct (@LSE_neighbours f_xyz features idx B out_channel N K Hx Hf Hi Hr HN)
    as (fc & Efc & Hfc & Vfc); [side .. |].
  cbn [P.Concat P.Concat_from] in Efc.
  exists enc, f_xyz, fc.
  split.
  { cbn [P.Concat P.Concat_from].
    destruct (P.Tile features [1; 1; 1; K]) as [ft|]; [cbn [bind] in Efc |- *|discriminate].
    rewrite E1 in Efc. cbn [bind] in Efc.
    destruct (nth_error (shape f_xyz) 1) as [c|]; [cbn [bind] in Efc |- *|discriminate].
    destruct (P.Tile i1 [1; c; 1; 1]) as [ee|]; [cbn [bind] in Efc |- *|discriminate].
    destruct (P.GatherD ft 2 ee) as [fn|]; [cbn [bind] in Efc |- *|discriminate].
    destruct (P.Concat2 (-3) f_xyz fn) as [cc|]; [cbn [bind] in Efc |- *|discriminate].
    injection Efc as ->. reflexivity. }
  split; [exact Hk3|]. split; [exact Ex|]. split; [exact Hx|]. split; [exact Hfc|].
  split; [|exact Vfc].
  intros b n k Hb Hn Hk.
  set (m := neighbour_of idx b n k). set (rel := relative_coord coords idx b n k).
  assert (Hin : in_range N (tget idx [b; n; k])).
  { apply Forall_tget; [apply Hi | exact Hr | rewrite (proj2 Hi); cbn; lia]. }
  unfold in_range in Hin.
  assert (Hm : m < N) by (unfold m, neighbour_of; lia).
  assert (Vn : forall j, j < 3 -> tget nx [b; j; n; k] = tget coords [b; m; j]).
  { intros j Hj. rewrite Vnx, Ve by assumption. now apply Vxt. }
  assert (Vr : forall j, j < 3 -> tget rx [b; j; n; k] = rel j).
  { intros j Hj. rewrite Vrx, Vn, Vxt by assumption. reflexivity. }
  split.
  - rewrite (V3a b 0 n k) by lia. rewrite (V2a b 0 n k) by lia.
    rewrite (V1a b 0 n k) by lia.
    unfold P.Sqrt. rewrite tget_tmap_fix by apply sqrt_0.
    rewrite Vsq by assumption. f_equal. f_equal.
    apply map_ext_in. intros j Hj. apply in_seq in Hj.
    unfold P.Square. rewrite tget_tmap_fix by lra.
    rewrite Vr by lia. reflexivity.
  - intros j Hj. repeat split.
    + rewrite (V3a b (1 + j) n k) by lia. rewrite (V2a b (1 + j) n k) by lia.
      rewrite (V1b b j n k) by lia. now apply Vr.
    + change (4 + j) with (1 + 3 + j).
      rewrite (V3a b (1 + 3 + j) n k) by lia. rewrite (V2b b j n k) by lia.
      now apply Vxt.
    + change (7 + j) with (1 + 3 + 3 + j).
      rewrite (V3b b j n k) by lia. now apply Vn.
Qed.

Lemma LSE_pos_value_witness :
  exists enc f_xyz f_concat,
    LocalSpatialEncoding.construct
      (LocalSpatialEncoding.init 10 1 true true unit_mlp_params)
      one_point_xyz one_point_channels one_point_idx
    = Some (LocalSpatialEncoding.Pair f_xyz f_concat)
    /\ has_shape enc [1; 10; 1; 1]
    /\ SharedMLP.construct
         (LocalSpatialEncoding.mlp (LocalSpatialEncoding.init 10 1 true true unit_mlp_params))
         enc
       = Some f_xyz
    /\ has_shape f_xyz [1; 1; 1; 1]
    /\ has_shape f_concat [1; 1 + 1; 1; 1]
    /\ (forall b n k, b < 1 -> n < 1 -> k < 1 ->
          tget enc [b; 0; n; k]
          = sqrt (Rsum (map (fun j => (relative_coord one_point_xyz one_point_idx b n k j
                                       * relative_coord one_point_xyz one_point_idx b n k j)%R)
                            (seq 0 3)))
          /\ forall j, j < 3 ->
               tget enc [b; 1 + j; n; k] = relative_coord one_point_xyz one_point_idx b n k j
               /\ tget enc [b; 4 + j; n; k] = tget one_point_xyz [b; n; j]
               /\ tget enc [b; 7 + j; n; k]
                  = tget one_point_xyz [b; neighbour_of one_point_idx b n k; j])
    /\ (forall b c n k, b < 1 -> c < 1 -> n < 1 -> k < 1 ->
          tget f_concat [b; c; n; k] = tget f_xyz [b; c; n; k]
          /\ tget f_concat [b; 1 + c; n; k]
             = tget one_point_channels [b; c; neighbour_of one_point_idx b n k; 0]).
Proof.
  apply (@LSE_pos_value 1 true unit_mlp_params one_point_xyz one_point_channels
           one_point_idx 1 1 1).
  - split; reflexivity.
  - split; reflexivity.
  - split; reflexivity.
  - repeat constructor; unfold in_range; simpl; lia.
  - lia.
  - lia.
  - lia.
  - lia.
Defined.

(** X19: on non-empty inputs and without positional encoding,
    [LocalSpatialEncoding] returns the MLP
    of [coords] followed, along the channel axis, by the features gathered from
    the neighbours. *)
Theorem LSE_plain_value (in_channel out_channel : nat) (bias : bool) (p : mlp_params)
    (coords features : tensor R) (idx : tensor Z) (B N K : nat) :
  has_shape coords [B; in_channel; N; K] -> has_shape features [B; out_channel; N; 1] ->
  has_shape idx [B; N; K] -> Forall (in_range N) (data idx) -> 0 < N ->
  0 < B -> 0 < in_channel -> 0 < K -> 0 < out_channel ->
  exists f_xyz f_concat,
    LocalSpatialEncoding.construct
      (LocalSpatialEncoding.init in_channel out_channel false bias p) coords features idx
    = Some (LocalSpatialEncoding.Single f_concat)
    /\ SharedMLP.construct
         (LocalSpatialEncoding.mlp
            (LocalSpatialEncoding.init in_channel out_channel false bias p)) coords
       = Some f_xyz
    /\ has_shape f_concat [B; out_channel + out_channel; N; K]
    /\ (forall b c n k, b < B -> c < out_channel -> n < N -> k < K ->
          tget f_concat [b; c; n; k] = tget f_xyz [b; c; n; k]
          /\ tget f_concat [b; out_channel + c; n; k]
             = tget features [b; c; neighbour_of idx b n k; 0]).
Proof.
  intros [Wc Sc] Hf Hi Hr HN HB Hic HK Hoc.
  unfold LocalSpatialEncoding.construct, LocalSpatialEncoding.init.
  cbn [LocalSpatialEncoding.use_pos_encoding LocalSpatialEncoding.mlp].
  rewrite (proj2 Hi). change (py_nth [B; N; K] (-1)) with (Some K). cbn [bind].
  destruct (@SharedMLP_shape in_channel out_channel false true (Some 0.2%R) bias p coords B N K Sc)
    as (f_xyz & Ex & Hx); [side | side |].
  step Ex.
  destruct (@LSE_neighbours f_xyz features idx B out_channel N K Hx Hf Hi Hr HN)
    as (fc & Efc & Hfc & Vfc); [side .. |].
  cbn [P.Concat P.Concat_from] in Efc.
  exists f_xyz, fc.
  split.
  { cbn [P.Concat P.Concat_from].
    destruct (P.Tile features [1; 1; 1; K]) as [ft|]; [cbn [bind] in Efc |- *|discriminate].
    destruct (expand_dims 1 idx) as [i1|]; [cbn [bind] in Efc |- *|discriminate].
    destruct (nth_error (shape f_xyz) 1) as [c|]; [cbn [bind] in Efc |- *|discriminate].
    destruct (P.Tile i1 [1; c; 1; 1]) as [ee|]; [cbn [bind] in Efc |- *|discriminate].
    destruct (P.GatherD ft 2 ee) as [fn|]; [cbn [bind] in Efc |- *|discriminate].
    destruct (P.Concat2 (-3) f_xyz fn) as [cc|]; [cbn [bind] in Efc |- *|discriminate].
    injection Efc as ->. reflexivity. }
  split; [reflexivity|]. split; [exact Hfc|]. exact Vfc.
Qed.

Lemma LSE_plain_value_witness :
  exists f_xyz f_concat,
    LocalSpatialEncoding.construct
      (LocalSpatialEncoding.init 1 1 false true unit_mlp_params)
      one_point_channels one_point_channels one_point_idx
    = Some (LocalSpatialEncoding.Single f_concat)
    /\ SharedMLP.construct
         (LocalSpatialEncoding.mlp (LocalSpatialEncoding.init 1 1 false true unit_mlp_params))
         one_point_channels
       = Some f_xyz
    /\ has_shape f_concat [1; 1 + 1; 1; 1]
    /\ (forall b c n k, b < 1 -> c < 1 -> n < 1 -> k < 1 ->
          tget f_concat [b; c; n; k] = tget f_xyz [b; c; n; k]
          /\ tget f_concat [b; 1 + c; n; k]
             = tget one_point_channels [b; c; neighbour_of one_point_idx b n k; 0]).
Proof.
  apply (@LSE_plain_value 1 1 true unit_mlp_params one_point_channels one_point_channels
           one_point_idx 1 1 1).
  - split; reflexivity.
  - split; reflexivity.
  - split; reflexivity.
  - repeat constructor; unfold in_range; simpl; lia.
  - lia.
  - lia.
  - lia.
  - lia.
  - lia.
Defined.

(** ** [LocalFeatureAggregation] needs an even output width *)

Lemma even_halves (d : nat) : Nat.even d = true -> d = d / 2 + d / 2.
Proof.
  intros H. apply Nat.even_spec in H. destruct H as [m ->].
  replace (2 * m) with (m * 2) by lia. rewrite Nat.div_mul by lia. lia.
Qed.

Lemma odd_halves (d : nat) : Nat.even d = false -> d / 2 + d / 2 <> d.
Proof.
  intros H E.
  assert (Nat.even d = true); [|congruence].
  apply Nat.even_spec. exists (d / 2). lia.
Qed.

(** X20: on well-shaped, non-empty inputs and for [d_out] at least 2,
    [LocalFeatureAggregation.construct] returns a
    tensor of shape (B, 2 * d_out, N, 1) when [d_out] is even, and raises when
    [d_out] is odd: the first attentive pooling then receives
    2 * (d_out // 2) channels where it expects [d_out]. *)
Theorem LFA_even_width (d_in d_out : nat) (bias : bool) (p : lfa_params)
    (coords features : tensor R) (idx : tensor Z) (B N K : nat) :
  has_shape coords [B; N; 3] -> has_shape features [B; d_in; N; 1] ->
  has_shape idx [B; N; K] -> Forall (in_range N) (data idx) -> 0 < N ->
  0 < B -> 0 < K -> 0 < d_in -> 2 <= d_out ->
  (Nat.even d_out = true ->
     exists out,
       LocalFeatureAggregation.construct (LocalFeatureAggregation.init d_in d_out bias p)
                                         coords features idx = Some out
       /\ has_shape out [B; 2 * d_out; N; 1])
  /\ (Nat.even d_out = false ->
       LocalFeatureAggregation.construct (LocalFeatureAggregation.init d_in d_out bias p)
                                         coords features idx = None).
Proof.
  intros Hc Hf Hi Hr HN HB HK Hdi Hdo. split.
  - intros He. apply LFA_ok with (K := K); auto using even_halves; lia.
  - intros Ho.
    unfold LocalFeatureAggregation.construct, LocalFeatureAggregation.init.
    cbn [LocalFeatureAggregation.mlp1 LocalFeatureAggregation.mlp2
         LocalFeatureAggregation.shortcut LocalFeatureAggregation.lse1
         LocalFeatureAggregation.lse2 LocalFeatureAggregation.pool1
         LocalFeatureAggregation.pool2 LocalFeatureAggregation.lrelu].
    pose proof (@odd_halves d_out Ho) as Hne.
    assert (Hh : 0 < d_out / 2) by (apply Nat.div_str_pos; lia).
    set (h := d_out / 2) in *.
    destruct (@SharedMLP_shape d_in h false true (Some 0.2%R) bias (mlp1_p p) features B N 1)
      as (f_pc & E1 & H1); [apply Hf | side | side |].
    rewrite E1; cbn [bind].
    destruct (@LSE_pos_ok h bias (lse1_p p) coords f_pc idx B N K Hc H1 Hi Hr HN)
      as (f_xyz & f_concat & E2 & Hx & Hcat); [side .. |].
    rewrite E2; cbn [bind].
    unfold AttentivePooling.construct.
    rewrite (@scores_wrong_channels d_out h bias (pool1_p p) f_concat B (h + h) N K
               (proj2 Hcat) Hne).
    reflexivity.
Qed.

Lemma LFA_even_width_witness :
  (Nat.even 2 = true ->
     exists out,
       LocalFeatureAggregation.construct
         (LocalFeatureAggregation.init 1 2 true unit_lfa_params)
         one_point_xyz one_point_channels one_point_idx = Some out
       /\ has_shape out [1; 2 * 2; 1; 1])
  /\ (Nat.even 2 = false ->
       LocalFeatureAggregation.construct
         (LocalFeatureAggregation.init 1 2 true unit_lfa_params)
         one_point_xyz one_point_channels one_point_idx = None).
Proof.
  apply (@LFA_even_width 1 2 true unit_lfa_params one_point_xyz one_point_channels
           one_point_idx 1 1 1).
  - split; reflexivity.
  - split; reflexivity.
  - split; reflexivity.
  - repeat constructor; unfold in_range; simpl; lia.
  - lia.
  - lia.
  - lia.
  - lia.
  - lia.
Defined.

(** ** The whole network: shapes of everything it returns *)

(** X21: [RandLANet.construct] raises when the last axis of the input feature
    is not of size [d_in]. *)
Theorem RandLANet_wrong_feature_width (d_in num_classes : nat) (bias : bool) (p : net_params)
    (xyz : list (tensor R)) (feature : tensor R)
    (neighbor_idx sub_idx interp_idx : list (tensor Z)) (labels : tensor Z)
    (B N d : nat) :
  shape feature = [B; N; d] -> d <> d_in ->
  RandLANet.construct (RandLANet.init d_in num_classes bias p)
                      xyz feature neighbor_idx sub_idx interp_idx labels = None.
Proof.
  intros E Hd. unfold RandLANet.construct, RandLANet.stem, RandLANet.init.
  cbn [RandLANet.fc_start]. unfold nn.Dense_construct, rank. rewrite E.
  cbn [length Nat.eqb negb andb last nn.dense_in].
  apply Nat.eqb_neq in Hd. rewrite Hd. reflexivity.
Qed.

Lemma RandLANet_wrong_feature_width_witness :
  RandLANet.construct (RandLANet.init 2 2 true unit_net_params)
    [one_point_xyz; one_point_xyz; one_point_xyz; one_point_xyz; one_point_xyz]
    one_point_feature
    [one_point_idx; one_point_idx; one_point_idx; one_point_idx; one_point_idx]
    [one_point_idx; one_point_idx; one_point_idx; one_point_idx; one_point_idx]
    [one_point_idx; one_point_idx; one_point_idx; one_point_idx; one_point_idx]
    one_point_labels = None.
Proof.
  apply (@RandLANet_wrong_feature_width 2 2 true unit_net_params
           [one_point_xyz; one_point_xyz; one_point_xyz; one_point_xyz; one_point_xyz] one_point_feature
           [one_point_idx; one_point_idx; one_point_idx; one_point_idx; one_point_idx]
           [one_point_idx; one_point_idx; one_point_idx; one_point_idx; one_point_idx]
           [one_point_idx; one_point_idx; one_point_idx; one_point_idx; one_point_idx]
           one_point_labels 1 1 1).
  - reflexivity.
  - lia.
Defined.

Lemma decoder_body_full (self : RandLANet.t) (f_stack : list (tensor R))
    (interp_idx : list (tensor Z)) (j : nat) (st : RandLANet.decoder_state)
    (c_skip c_feat c_out : nat) (bias : bool) (pd ps pse : mlp_params)
    (u : tensor Z) (skip : tensor R) (B N N' Ku : nat) :
  py_nth interp_idx (- Z.of_nat j - 1) = Some u ->
  py_nth f_stack (- Z.of_nat j - 2) = Some skip ->
  nth_error (RandLANet.decoder self) j
    = Some (SharedMLP.init (c_skip + c_feat) c_out true true (Some 0.2%R) bias pd) ->
  (j < 4 -> nth_error (RandLANet.Se self) j
            = Some (SharedMLP.init c_out 10 false true None bias pse)) ->
  nth_error (RandLANet.supervise self) (j + 1)
    = Some (SharedMLP.init c_out 13 false true None bias ps) ->
  has_shape u [B; N; Ku] -> Forall (in_range N') (data u) ->
  has_shape skip [B; c_skip; N; 1] ->
  has_shape (RandLANet.dec_feature st) [B; c_feat; N'; 1] ->
  0 < B -> 0 < c_feat -> 0 < N -> 0 < Ku ->
  exists d se sup,
    has_shape d [B; c_out; N; 1]
    /\ has_shape sup [B; N; 13]
    /\ (j < 4 -> has_shape se [B; 10; N; 1])
    /\ RandLANet.decoder_body self f_stack interp_idx j st
       = Some (RandLANet.mkDec d (RandLANet.f_decoder_list st ++ [d])
                               (if j <? 4 then RandLANet.se_features_list st ++ [se]
                                else RandLANet.se_features_list st)
                               (RandLANet.supervised_features st ++ [sup])).
Proof.
  intros Eu Eskip Ecell Ese Esup Hu Hru Hskip Hf HB Hc HN HKu.
  destruct (@random_sample_spec (RandLANet.dec_feature st) u B c_feat N' N Ku
              Hf Hu Hru HB Hc HN HKu) as (up & Eup & Hup & _).
  destruct (@Concat_pair_ok 1 skip up B c_skip c_feat N 1)
    as (c & Ec & Hcc); try reflexivity; try apply Hskip; try apply Hup.
  destruct (@SharedMLP_shape (c_skip + c_feat) c_out true true (Some 0.2%R) bias pd c B N 1
              (proj2 Hcc)) as (d & Ed & Hd); [side | side |].
  destruct (@SharedMLP_shape c_out 13 false true None bias ps d B N 1 (proj2 Hd))
    as (tmp & Etmp & Htmp); [side | side |].
  destruct (@to_supervised_ok tmp B N (proj2 Htmp)) as (sup & Es & Hs).
  unfold RandLANet.decoder_body.
  step Eu. step Eup. step Eskip.
  step Ecell. step Ec. step Ed.
  destruct (j <? 4) eqn:Ej.
  - apply Nat.ltb_lt in Ej. rewrite (Ese Ej). cbn [bind].
    destruct (@SharedMLP_shape c_out 10 false true None bias pse d B N 1 (proj2 Hd))
      as (se & Ese' & Hse); [side | side |].
    step Ese'. step Esup. step Etmp.
    step Es.
    exists d, se, sup.
    repeat split; try apply Hd; try apply Hs; try apply Hse.
  - cbn [bind]. step Esup. step Etmp.
    step Es.
    exists d, d, sup. apply Nat.ltb_ge in Ej.
    repeat split; try apply Hd; try apply Hs; try (intros; exfalso; lia).
Qed.

Lemma RandLANet_construct_full (d_in num_classes : nat) (bias : bool) (p : net_params)
    (feature : tensor R) (labels : tensor Z) (p0 p1 p2 p3 p4 : tensor R)
    (n0 n1 n2 n3 n4 pl0 pl1 pl2 pl3 pl4 u0 u1 u2 u3 u4 : tensor Z)
    (B : nat) (N K Ks Ku : nat -> nat) :
  0 < B ->
  has_shape feature [B; N 0; d_in] ->
  has_shape labels [B; N 0] ->
  level_ok B (N 0) (N 1) (K 0) (Ks 0) (Ku 0) p0 n0 pl0 u0 ->
  level_ok B (N 1) (N 2) (K 1) (Ks 1) (Ku 1) p1 n1 pl1 u1 ->
  level_ok B (N 2) (N 3) (K 2) (Ks 2) (Ku 2) p2 n2 pl2 u2 ->
  level_ok B (N 3) (N 4) (K 3) (Ks 3) (Ku 3) p3 n3 pl3 u3 ->
  level_ok B (N 4) (N 5) (K 4) (Ks 4) (Ku 4) p4 n4 pl4 u4 ->
  let self := RandLANet.init d_in num_classes bias p in
  let l0 := TInt32 (P.cast_int32 (nn.OneHot 13 labels)) in
  exists scores t0 t1 t2 t3 t4 sup0 sup1 sup2 sup3 sup4 sup5 se0 se1 se2 se3,
    RandLANet.construct self [p0; p1; p2; p3; p4] feature [n0; n1; n2; n3; n4]
                        [pl0; pl1; pl2; pl3; pl4] [u0; u1; u2; u3; u4] labels
    = Some (scores,
            [l0; TFloat32 t0; TFloat32 t1; TFloat32 t2; TFloat32 t3; TFloat32 t4],
            [sup0; sup1; sup2; sup3; sup4; sup5], [se0; se1; se2; se3])
    /\ has_shape scores [B; num_classes; N 0]
    /\ (has_shape t0 [B; N 1; 13] /\ has_shape t1 [B; N 2; 13] /\ has_shape t2 [B; N 3; 13]
        /\ has_shape t3 [B; N 4; 13] /\ has_shape t4 [B; N 5; 13])
    /\ (Forall binary (data t0) /\ Forall binary (data t1) /\ Forall binary (data t2)
        /\ Forall binary (data t3) /\ Forall binary (data t4))
    /\ (has_shape sup0 [B; N 5; 13] /\ has_shape sup1 [B; N 4; 13]
        /\ has_shape sup2 [B; N 3; 13] /\ has_shape sup3 [B; N 2; 13]
        /\ has_shape sup4 [B; N 1; 13] /\ has_shape sup5 [B; N 0; 13])
    /\ (has_shape se0 [B; 10; N 4; 1] /\ has_shape se1 [B; 10; N 3; 1]
        /\ has_shape se2 [B; 10; N 2; 1] /\ has_shape se3 [B; 10; N 1; 1]).
Proof.
  intros HB Hfeat Hlab L0 L1 L2 L3 L4 self l0.
  destruct (has_shape_onehot_cast 13 Hlab) as [Wl0 Sl0]. fold l0 in Wl0, Sl0.
  destruct (@stem_ok d_in num_classes bias p feature B (N 0) Hfeat) as (f0 & Ef0 & Hf0).
  fold self in Ef0.

  destruct (@encoder_body_ok self [p0; p1; p2; p3; p4] [n0; n1; n2; n3; n4]
              [pl0; pl1; pl2; pl3; pl4] 0
              (RandLANet.mkEnc f0 [] [l0])
              8 16 bias (encoder_p p 0) p0 n0 pl0 u0 l0
              B (N 0) (N 1) (K 0) (Ks 0) (Ku 0))
    as (e0 & s0 & t0 & Est0 & He0 & Hs0 & Et0 & Ht0 & Eb0);
    [ reflexivity | reflexivity | reflexivity | reflexivity | reflexivity | exact L0
    | exact HB | lia | exact Hf0 | reflexivity | exact Wl0 | exact Sl0 | ].
  cbn [Nat.eqb app RandLANet.f_stack RandLANet.multihot_labels RandLANet.enc_feature] in Eb0, Est0.

  destruct (@encoder_body_ok self [p0; p1; p2; p3; p4] [n0; n1; n2; n3; n4]
              [pl0; pl1; pl2; pl3; pl4] 1
              (RandLANet.mkEnc s0 [e0; s0] [l0; TFloat32 t0])
              32 64 bias (encoder_p p 1) p1 n1 pl1 u1 (TFloat32 t0)
              B (N 1) (N 2) (K 1) (Ks 1) (Ku 1))
    as (e1 & s1 & t1 & Est1 & He1 & Hs1 & Et1 & Ht1 & Eb1);
    [ reflexivity | reflexivity | reflexivity | reflexivity | reflexivity | exact L1
    | exact HB | lia | exact Hs0 | reflexivity | exact (proj1 Ht0) | exact (proj2 Ht0) | ].
  cbn [Nat.eqb app RandLANet.f_stack RandLANet.multihot_labels RandLANet.enc_feature] in Eb1, Est1.

  destruct (@encoder_body_ok self [p0; p1; p2; p3; p4] [n0; n1; n2; n3; n4]
              [pl0; pl1; pl2; pl3; pl4] 2
              (RandLANet.mkEnc s1 [e0; s0; s1] [l0; TFloat32 t0; TFloat32 t1])
              128 128 bias (encoder_p p 2) p2 n2 pl2 u2 (TFloat32 t1)
              B (N 2) (N 3) (K 2) (Ks 2) (Ku 2))
    as (e2 & s2 & t2 & Est2 & He2 & Hs2 & Et2 & Ht2 & Eb2);
    [ reflexivity | reflexivity | reflexivity | reflexivity | reflexivity | exact L2
    | exact HB | lia | exact Hs1 | reflexivity | exact (proj1 Ht1) | exact (proj2 Ht1) | ].
  cbn [Nat.eqb app RandLANet.f_stack RandLANet.multihot_labels RandLANet.enc_feature] in Eb2, Est2.

  destruct (@encoder_body_ok self [p0; p1; p2; p3; p4] [n0; n1; n2; n3; n4]
              [pl0; pl1; pl2; pl3; pl4] 3
              (RandLANet.mkEnc s2 [e0; s0; s1; s2] [l0; TFloat32 t0; TFloat32 t1; TFloat32 t2])
              256 256 bias (encoder_p p 3) p3 n3 pl3 u3 (TFloat32 t2)
              B (N 3) (N 4) (K 3) (Ks 3) (Ku 3))
    as (e3 & s3 & t3 & Est3 & He3 & Hs3 & Et3 & Ht3 & Eb3);
    [ reflexivity | reflexivity | reflexivity | reflexivity | reflexivity | exact L3
    | exact HB | lia | exact Hs2 | reflexivity | exact (proj1 Ht2) | exact (proj2 Ht2) | ].
  cbn [Nat.eqb app RandLANet.f_stack RandLANet.multihot_labels RandLANet.enc_feature] in Eb3, Est3.

  destruct (@encoder_body_ok self [p0; p1; p2; p3; p4] [n0; n1; n2; n3; n4]
              [pl0; pl1; pl2; pl3; pl4] 4
              (RandLANet.mkEnc s3 [e0; s0; s1; s2; s3] [l0; TFloat32 t0; TFloat32 t1; TFloat32 t2; TFloat32 t3])
              512 512 bias (encoder_p p 4) p4 n4 pl4 u4 (TFloat32 t3)
              B (N 4) (N 5) (K 4) (Ks 4) (Ku 4))
    as (e4 & s4 & t4 & Est4 & He4 & Hs4 & Et4 & Ht4 & Eb4);
    [ reflexivity | reflexivity | reflexivity | reflexivity | reflexivity | exact L4
    | exact HB | lia | exact Hs3 | reflexivity | exact (proj1 Ht3) | exact (proj2 Ht3) | ].
  cbn [Nat.eqb app RandLANet.f_stack RandLANet.multihot_labels RandLANet.enc_feature] in Eb4, Est4.

  assert (HN5 : 0 < N 5) by (unfold level_ok in L4; tauto).
  destruct (@SharedMLP_shape 1024 1024 false true (Some 0.2%R) true (mlp_p p) s4 B (N 5) 1
              (proj2 Hs4)) as (d0 & Ed0 & Hd0); [side | side |].
  destruct (@SharedMLP_shape 1024 13 false true None bias (supervise_p p 0) d0 B (N 5) 1
              (proj2 Hd0)) as (tmp0 & Etmp0 & Htmp0); [side | side |].
  destruct (@to_supervised_ok tmp0 B (N 5) (proj2 Htmp0)) as (sup0 & Esup0 & Hsup0).

  destruct L4 as (_ & _ & _ & _ & _ & Hu4 & Hru4 & HN4 & _ & _ & _ & HKu4).
  destruct (@decoder_body_full self [e0; s0; s1; s2; s3; s4] [u0; u1; u2; u3; u4] 0
              (RandLANet.mkDec d0 [] [] [sup0])
              512 1024 512 bias (decoder_p p 0) (supervise_p p 1) (Se_p p 0)
              u4 s3 B (N 4) (N 5) (Ku 4))
    as (d1 & se1 & sup1 & Hd1 & Hsup1 & Hse1 & Edb1);
    [ reflexivity | reflexivity | reflexivity | intros _; reflexivity | reflexivity
    | exact Hu4 | exact Hru4 | exact Hs3 | exact Hd0 | exact HB | lia | exact HN4
    | exact HKu4 | ].
  cbn [RandLANet.dec_feature RandLANet.f_decoder_list RandLANet.se_features_list
       RandLANet.supervised_features app Nat.ltb Nat.leb length] in Edb1.

  destruct L3 as (_ & _ & _ & _ & _ & Hu3 & Hru3 & HN3 & _ & _ & _ & HKu3).
  destruct (@decoder_body_full self [e0; s0; s1; s2; s3; s4] [u0; u1; u2; u3; u4] 1
              (RandLANet.mkDec d1 [d1] [se1] [sup0; sup1])
              256 512 256 bias (decoder_p p 1) (supervise_p p 2) (Se_p p 1)
              u3 s2 B (N 3) (N 4) (Ku 3))
    as (d2 & se2 & sup2 & Hd2 & Hsup2 & Hse2 & Edb2);
    [ reflexivity | reflexivity | reflexivity | intros _; reflexivity | reflexivity
    | exact Hu3 | exact Hru3 | exact Hs2 | exact Hd1 | exact HB | lia | exact HN3
    | exact HKu3 | ].
  cbn [RandLANet.dec_feature RandLANet.f_decoder_list RandLANet.se_features_list
       RandLANet.supervised_features app Nat.ltb Nat.leb length] in Edb2.

  destruct L2 as (_ & _ & _ & _ & _ & Hu2 & Hru2 & HN2 & _ & _ & _ & HKu2).
  destruct (@decoder_body_full self [e0; s0; s1; s2; s3; s4] [u0; u1; u2; u3; u4] 2
              (RandLANet.mkDec d2 [d1; d2] [se1; se2] [sup0; sup1; sup2])
              128 256 128 bias (decoder_p p 2) (supervise_p p 3) (Se_p p 2)
              u2 s1 B (N 2) (N 3) (Ku 2))
    as (d3 & se3 & sup3 & Hd3 & Hsup3 & Hse3 & Edb3);
    [ reflexivity | reflexivity | reflexivity | intros _; reflexivity | reflexivity
    | exact Hu2 | exact Hru2 | exact Hs1 | exact Hd2 | exact HB | lia | exact HN2
    | exact HKu2 | ].
  cbn [RandLANet.dec_feature RandLANet.f_decoder_list RandLANet.se_features_list
       RandLANet.supervised_features app Nat.ltb Nat.leb length] in Edb3.

  destruct L1 as (_ & _ & _ & _ & _ & Hu1 & Hru1 & HN1 & _ & _ & _ & HKu1).
  destruct (@decoder_body_full self [e0; s0; s1; s2; s3; s4] [u0; u1; u2; u3; u4] 3
              (RandLANet.mkDec d3 [d1; d2; d3] [se1; se2; se3] [sup0; sup1; sup2; sup3])
              32 128 32 bias (decoder_p p 3) (supervise_p p 4) (Se_p p 3)
              u1 s0 B (N 1) (N 2) (Ku 1))
    as (d4 & se4 & sup4 & Hd4 & Hsup4 & Hse4 & Edb4);
    [ reflexivity | reflexivity | reflexivity | intros _; reflexivity | reflexivity
    | exact Hu1 | exact Hru1 | exact Hs0 | exact Hd3 | exact HB | lia | exact HN1
    | exact HKu1 | ].
  cbn [RandLANet.dec_feature RandLANet.f_decoder_list RandLANet.se_features_list
       RandLANet.supervised_features app Nat.ltb Nat.leb length] in Edb4.

  destruct L0 as (_ & _ & _ & _ & _ & Hu0 & Hru0 & HN0 & _ & _ & _ & HKu0).
  destruct (@decoder_body_full self [e0; s0; s1; s2; s3; s4] [u0; u1; u2; u3; u4] 4
              (RandLANet.mkDec d4 [d1; d2; d3; d4] [se1; se2; se3; se4] [sup0; sup1; sup2; sup3; sup4])
              32 32 32 bias (decoder_p p 4) (supervise_p p 5) (Se_p p 4)
              u0 e0 B (N 0) (N 1) (Ku 0))
    as (d5 & se5 & sup5 & Hd5 & Hsup5 & Hse5 & Edb5);
    [ reflexivity | reflexivity | reflexivity | intros C; exfalso; lia | reflexivity
    | exact Hu0 | exact Hru0 | exact He0 | exact Hd4 | exact HB | lia | exact HN0
    | exact HKu0 | ].
  cbn [RandLANet.dec_feature RandLANet.f_decoder_list RandLANet.se_features_list
       RandLANet.supervised_features app Nat.ltb Nat.leb length] in Edb5.

  destruct (@fc_end_ok d_in num_classes bias p d5 B (N 0) (proj2 Hd5)) as (sc & Esc & Hsc); [side .. |].
  fold self in Esc.
  destruct (@squeeze_last_ok sc B num_classes (N 0) Hsc) as (scores & Esq & Hscores).
  pose proof (onehot_cast_binary 13 labels) as B0. fold l0 in B0.
  pose proof (pool_labels_binary _ _ _ Et0 B0) as B1.
  pose proof (pool_labels_binary (TFloat32 t0) _ _ Et1 B1) as B2.
  pose proof (pool_labels_binary (TFloat32 t1) _ _ Et2 B2) as B3.
  pose proof (pool_labels_binary (TFloat32 t2) _ _ Et3 B3) as B4.
  pose proof (pool_labels_binary (TFloat32 t3) _ _ Et4 B4) as B5.
  exists scores, t0, t1, t2, t3, t4, sup0, sup1, sup2, sup3, sup4, sup5, se1, se2, se3, se4.
  split; [|split; [exact Hscores|]].
  2:{ repeat split; try assumption;
    try apply Ht0; try apply Ht1; try apply Ht2; try apply Ht3; try apply Ht4;
    try apply Hsup0; try apply Hsup1; try apply Hsup2; try apply Hsup3;
    try apply Hsup4; try apply Hsup5;
    try (apply Hse1; lia); try (apply Hse2; lia);
    try (apply Hse3; lia); try (apply Hse4; lia). }
  unfold RandLANet.construct. rewrite Ef0. cbn [bind seq for_each].
  fold l0.
  step Eb0. step Eb1. step Eb2.
  step Eb3. step Eb4.
  cbn [RandLANet.f_stack RandLANet.multihot_labels].
  change (py_nth [e0; s0; s1; s2; s3; s4] (-1)) with (Some s4). cbn [bind].
  change (RandLANet.mlp self)
    with (SharedMLP.init 1024 1024 false true (Some 0.2%R) true (mlp_p p)).
  step Ed0.
  change (nth_error (RandLANet.supervise self) 0)
    with (Some (SharedMLP.init 1024 13 false true None bias (supervise_p p 0))).
  cbn [bind]. step Etmp0. step Esup0.
  step Edb1. step Edb2. step Edb3.
  step Edb4. step Edb5.
  cbn [RandLANet.f_decoder_list RandLANet.supervised_features RandLANet.se_features_list].
  change (py_nth [d1; d2; d3; d4; d5] (-1)) with (Some d5). cbn [bind].
  step Esc. rewrite Esq. reflexivity.
Qed.

(** X22: on well-shaped inputs the three lists that [RandLANet.construct]
    returns beside the scores have fixed lengths and shapes: six multi-hot
    labels of shape (B, N_i, 13) for levels 0 to 5, six supervised features of
    shape (B, N_i, 13) for levels 5 down to 0, and four self-enhancement
    features of shape (B, 10, N_i, 1) for levels 4 down to 1. *)
Theorem RandLANet_output_shapes (d_in num_classes : nat) (bias : bool) (p : net_params)
    (feature : tensor R) (labels : tensor Z) (p0 p1 p2 p3 p4 : tensor R)
    (n0 n1 n2 n3 n4 pl0 pl1 pl2 pl3 pl4 u0 u1 u2 u3 u4 : tensor Z)
    (B : nat) (N K Ks Ku : nat -> nat) :
  0 < B ->
  has_shape feature [B; N 0; d_in] ->
  has_shape labels [B; N 0] ->
  level_ok B (N 0) (N 1) (K 0) (Ks 0) (Ku 0) p0 n0 pl0 u0 ->
  level_ok B (N 1) (N 2) (K 1) (Ks 1) (Ku 1) p1 n1 pl1 u1 ->
  level_ok B (N 2) (N 3) (K 2) (Ks 2) (Ku 2) p2 n2 pl2 u2 ->
  level_ok B (N 3) (N 4) (K 3) (Ks 3) (Ku 3) p3 n3 pl3 u3 ->
  level_ok B (N 4) (N 5) (K 4) (Ks 4) (Ku 4) p4 n4 pl4 u4 ->
  exists scores multihot_labels supervised_features se_features_list,
    RandLANet.construct (RandLANet.init d_in num_classes bias p)
                        [p0; p1; p2; p3; p4] feature [n0; n1; n2; n3; n4]
                        [pl0; pl1; pl2; pl3; pl4] [u0; u1; u2; u3; u4] labels
    = Some (scores, multihot_labels, supervised_features, se_features_list)
    /\ map dshape multihot_labels = map (fun i => [B; N i; 13]) [0; 1; 2; 3; 4; 5]
    /\ map (@shape R) supervised_features = map (fun i => [B; N i; 13]) [5; 4; 3; 2; 1; 0]
    /\ map (@shape R) se_features_list = map (fun i => [B; 10; N i; 1]) [4; 3; 2; 1]
    /\ Forall dwf multihot_labels
    /\ Forall (@wf R) supervised_features
    /\ Forall (@wf R) se_features_list.
Proof.
  intros HB Hf Hl L0 L1 L2 L3 L4.
  destruct (@RandLANet_construct_full d_in num_classes bias p feature labels
              p0 p1 p2 p3 p4 n0 n1 n2 n3 n4 pl0 pl1 pl2 pl3 pl4 u0 u1 u2 u3 u4
              B N K Ks Ku HB Hf Hl L0 L1 L2 L3 L4)
    as (scores & t0 & t1 & t2 & t3 & t4 & a0 & a1 & a2 & a3 & a4 & a5 & e0 & e1 & e2 & e3
        & Ec & _ & (T0 & T1 & T2 & T3 & T4) & _
        & (A0 & A1 & A2 & A3 & A4 & A5) & (E0 & E1 & E2 & E3)).
  destruct (has_shape_onehot_cast 13 Hl) as [Wl0 Sl0].
  eexists scores, _, _, _. split; [exact Ec|].
  cbn [map]. rewrite Sl0. cbn [dshape].
  rewrite (proj2 T0), (proj2 T1), (proj2 T2), (proj2 T3), (proj2 T4).
  rewrite (proj2 A0), (proj2 A1), (proj2 A2), (proj2 A3), (proj2 A4), (proj2 A5).
  rewrite (proj2 E0), (proj2 E1), (proj2 E2), (proj2 E3).
  repeat split; repeat constructor;
    first [ exact Wl0 | apply T0 | apply T1 | apply T2 | apply T3 | apply T4
          | apply A0 | apply A1 | apply A2 | apply A3 | apply A4 | apply A5
          | apply E0 | apply E1 | apply E2 | apply E3 ].
Qed.

Lemma RandLANet_output_shapes_witness :
  exists scores multihot_labels supervised_features se_features_list,
    RandLANet.construct (RandLANet.init 1 2 true unit_net_params)
      [one_point_xyz; one_point_xyz; one_point_xyz; one_point_xyz; one_point_xyz]
      one_point_feature
      [one_point_idx; one_point_idx; one_point_idx; one_point_idx; one_point_idx]
      [one_point_idx; one_point_idx; one_point_idx; one_point_idx; one_point_idx]
      [one_point_idx; one_point_idx; one_point_idx; one_point_idx; one_point_idx]
      one_point_labels
    = Some (scores, multihot_labels, supervised_features, se_features_list)
    /\ map dshape multihot_labels = map (fun i => [1; (fun _ => 1) i; 13]) [0; 1; 2; 3; 4; 5]
    /\ map (@shape R) supervised_features
       = map (fun i => [1; (fun _ => 1) i; 13]) [5; 4; 3; 2; 1; 0]
    /\ map (@shape R) se_features_list
       = map (fun i => [1; 10; (fun _ => 1) i; 1]) [4; 3; 2; 1]
    /\ Forall dwf multihot_labels
    /\ Forall (@wf R) supervised_features
    /\ Forall (@wf R) se_features_list.
Proof.
  apply (@RandLANet_output_shapes 1 2 true unit_net_params one_point_feature one_point_labels
           one_point_xyz one_point_xyz one_point_xyz one_point_xyz one_point_xyz
           one_point_idx one_point_idx one_point_idx one_point_idx one_point_idx
           one_point_idx one_point_idx one_point_idx one_point_idx one_point_idx
           one_point_idx one_point_idx one_point_idx one_point_idx one_point_idx
           1 (fun _ => 1) (fun _ => 1) (fun _ => 1) (fun _ => 1)).
  - lia.
  - split; reflexivity.
  - split; reflexivity.
  - exact one_point_level_ok.
  - exact one_point_level_ok.
  - exact one_point_level_ok.
  - exact one_point_level_ok.
  - exact one_point_level_ok.
Defined.

(** ** The training loss is defined and non-negative *)

(** X23: [RandLAWithLoss.construct] wrapped around [RandLANet] returns a loss
    on well-shaped inputs, and with non-negative class weights this loss is
    non-negative: the shapes the network returns are the ones the three losses
    accept. *)
Theorem RandLAWithLoss_loss_nonneg (d_in num_classes : nat) (bias : bool) (p : net_params)
    (weights : tensor R) (feature : tensor R) (labels input_inds cloud_inds : tensor Z)
    (p0 p1 p2 p3 p4 : tensor R)
    (n0 n1 n2 n3 n4 pl0 pl1 pl2 pl3 pl4 u0 u1 u2 u3 u4 : tensor Z)
    (B : nat) (N K Ks Ku : nat -> nat) :
  0 < B -> 0 < num_classes ->
  has_shape weights [num_classes] ->
  Forall (fun w => (0 <= w)%R) (data weights) ->
  has_shape feature [B; N 0; d_in] ->
  has_shape labels [B; N 0] ->
  level_ok B (N 0) (N 1) (K 0) (Ks 0) (Ku 0) p0 n0 pl0 u0 ->
  level_ok B (N 1) (N 2) (K 1) (Ks 1) (Ku 1) p1 n1 pl1 u1 ->
  level_ok B (N 2) (N 3) (K 2) (Ks 2) (Ku 2) p2 n2 pl2 u2 ->
  level_ok B (N 3) (N 4) (K 3) (Ks 3) (Ku 3) p3 n3 pl3 u3 ->
  level_ok B (N 4) (N 5) (K 4) (Ks 4) (Ku 4) p4 n4 pl4 u4 ->
  exists loss,
    RandLAWithLoss.construct
      (RandLAWithLoss.init (RandLANet.construct (RandLANet.init d_in num_classes bias p))
                           weights num_classes)
      feature labels input_inds cloud_inds
      p0 p1 p2 p3 p4 n0 n1 n2 n3 n4 pl0 pl1 pl2 pl3 pl4 u0 u1 u2 u3 u4 = Some loss
    /\ (0 <= loss)%R.
Proof.
  intros HB HC Hw Hpos Hf Hl L0 L1 L2 L3 L4.
  destruct (@RandLANet_construct_full d_in num_classes bias p feature labels
              p0 p1 p2 p3 p4 n0 n1 n2 n3 n4 pl0 pl1 pl2 pl3 pl4 u0 u1 u2 u3 u4
              B N K Ks Ku HB Hf Hl L0 L1 L2 L3 L4)
    as (scores & t0 & t1 & t2 & t3 & t4 & a0 & a1 & a2 & a3 & a4 & a5 & e0 & e1 & e2 & e3
        & Ec & Hs & (T0 & T1 & T2 & T3 & T4) & (_ & B1 & B2 & B3 & B4)
        & (A0 & A1 & A2 & A3 & A4 & A5) & _).
  unfold RandLAWithLoss.construct, RandLAWithLoss.init.
  cbn [RandLAWithLoss.network RandLAWithLoss.ce_loss].
  rewrite Ec. cbn [bind].
  assert (HN0 : 0 < N 0) by (unfold level_ok in L0; tauto).
  rewrite (WeightCEloss_value Hw Hs Hl HB HC HN0). cbn [bind].
  unfold Hloss.construct. cbn [nth_error bind].
  rewrite (@Hloss_term_float a0 t4) by (rewrite (proj2 A0), (proj2 T4); reflexivity).
  cbn [bind].
  rewrite (@Hloss_term_float a1 t3) by (rewrite (proj2 A1), (proj2 T3); reflexivity).
  cbn [bind].
  rewrite (@Hloss_term_float a2 t2) by (rewrite (proj2 A2), (proj2 T2); reflexivity).
  cbn [bind].
  rewrite (@Hloss_term_float a3 t1) by (rewrite (proj2 A3), (proj2 T1); reflexivity).
  cbn [bind].
  unfold SEloss.construct. cbn [seq for_each].
  rewrite (@SEloss_body_step _ 0 e0 None) by reflexivity. cbn [bind].
  rewrite (@SEloss_body_step _ 1 e1 _) by reflexivity. cbn [bind].
  rewrite (@SEloss_body_step _ 2 e2 _) by reflexivity. cbn [bind].
  rewrite (@SEloss_body_step _ 3 e3 _) by reflexivity. cbn [bind].
  eexists. split; [reflexivity|].
  pose proof (@weighted_ce_mean_nonneg weights scores labels B num_classes (N 0) Hpos).
  pose proof (@mean_sigmoid_ce_nonneg a0 _ (binary_unit B4)).
  pose proof (@mean_sigmoid_ce_nonneg a1 _ (binary_unit B3)).
  pose proof (@mean_sigmoid_ce_nonneg a2 _ (binary_unit B2)).
  pose proof (@mean_sigmoid_ce_nonneg a3 _ (binary_unit B1)).
  pose proof (mean_sigmoid_ce_self_nonneg e0).
  pose proof (mean_sigmoid_ce_self_nonneg e1).
  pose proof (mean_sigmoid_ce_self_nonneg e2).
  pose proof (mean_sigmoid_ce_self_nonneg e3).
  lra.
Qed.

Lemma RandLAWithLoss_loss_nonneg_witness :
  exists loss,
    RandLAWithLoss.construct
      (RandLAWithLoss.init (RandLANet.construct (RandLANet.init 1 2 true unit_net_params))
                           example_weights 2)
      one_point_feature one_point_labels one_point_labels one_point_labels
      one_point_xyz one_point_xyz one_point_xyz one_point_xyz one_point_xyz
           one_point_idx one_point_idx one_point_idx one_point_idx one_point_idx
           one_point_idx one_point_idx one_point_idx one_point_idx one_point_idx
           one_point_idx one_point_idx one_point_idx one_point_idx one_point_idx = Some loss
    /\ (0 <= loss)%R.
Proof.
  apply (@RandLAWithLoss_loss_nonneg 1 2 true unit_net_params example_weights
           one_point_feature one_point_labels one_point_labels one_point_labels
           one_point_xyz one_point_xyz one_point_xyz one_point_xyz one_point_xyz
           one_point_idx one_point_idx one_point_idx one_point_idx one_point_idx
           one_point_idx one_point_idx one_point_idx one_point_idx one_point_idx
           one_point_idx one_point_idx one_point_idx one_point_idx one_point_idx
           1 (fun _ => 1) (fun _ => 1) (fun _ => 1) (fun _ => 1)).
  - lia.
  - lia.
  - split; reflexivity.
  - simpl. constructor; [lra | constructor; [lra | constructor]].
  - split; reflexivity.
  - split; reflexivity.
  - exact one_point_level_ok.
  - exact one_point_level_ok.
  - exact one_point_level_ok.
  - exact one_point_level_ok.
  - exact one_point_level_ok.
Defined.

(** ** Parameter groups, by the suffix of the name *)

Lemma substring_whole (s : String.string) : String.substring 0 (String.length s) s = s.
Proof. induction s as [|c s IH]; simpl; [reflexivity | now rewrite IH]. Qed.

Lemma substring_append_r (p s : String.string) :
  String.substring (String.length p) (String.length s) (String.append p s) = s.
Proof. induction p as [|c p IH]; simpl; [apply substring_whole | exact IH]. Qed.

Lemma length_append (p s : String.string) :
  String.length (String.append p s) = String.length p + String.length s.
Proof. induction p as [|c p IH]; simpl; [reflexivity | now rewrite IH]. Qed.

Lemma substring_split (s : String.string) (k : nat) :
  k <= String.length s ->
  s = String.append (String.substring 0 k s) (String.substring k (String.length s - k) s).
Proof.
  revert k. induction s as [|c s IH]; intros k Hk.
  - simpl in Hk. assert (k = 0) by lia. subst. reflexivity.
  - destruct k as [|k].
    + simpl. now rewrite substring_whole.
    + simpl in Hk. simpl. f_equal. apply IH. lia.
Qed.

Lemma endswith_spec (s suffix : String.string) :
  endswith s suffix = true <-> exists prefix, s = String.append prefix suffix.
Proof.
  unfold endswith. split.
  - intros H. apply andb_prop in H as [Hl He]. apply Nat.leb_le in Hl.
    apply String.eqb_eq in He.
    exists (String.substring 0 (String.length s - String.length suffix) s).
    pose proof (@substring_split s (String.length s - String.length suffix)) as Hs.
    replace (String.length s - (String.length s - String.length suffix))
      with (String.length suffix) in Hs by lia.
    rewrite He in Hs. apply Hs. lia.
  - intros [p ->]. rewrite length_append.
    replace (String.length p + String.length suffix - String.length suffix)
      with (String.length p) by lia.
    rewrite substring_append_r, String.eqb_refl, andb_true_r.
    apply Nat.leb_le. lia.
Qed.

Lemma no_decay_name_spec (x : param) :
  no_decay_name x = true
  <-> exists prefix suffix,
        In suffix no_decay_suffixes /\ name x = String.append prefix suffix.
Proof.
  unfold no_decay_name, no_decay_suffixes. rewrite !orb_true_iff, !endswith_spec. split.
  - intros [[[q E]|[q E]]|[q E]]; exists q; eexists; (split; [|exact E]); simpl; auto.
  - intros (q & suf & Hin & E). simpl in Hin.
    destruct Hin as [<-|[<-|[<-|[]]]]; eauto.
Qed.

(** X24: a parameter is in the first group of [get_param_groups] exactly when
    it is trainable and its name is some prefix followed by '.bias', '.gamma'
    or '.beta', and in the second group exactly when it is trainable and its
    name is no such string. *)
Theorem param_groups_by_suffix (trainable_params : list param) :
  exists no_decay decay,
    get_param_groups trainable_params = [mkGroup no_decay (Some 0%R); mkGroup decay None]
    /\ forall x,
         (In x no_decay
          <-> In x trainable_params
              /\ exists prefix suffix,
                   In suffix no_decay_suffixes /\ name x = String.append prefix suffix)
         /\ (In x decay
             <-> In x trainable_params
                 /\ forall prefix suffix,
                      In suffix no_decay_suffixes -> name x <> String.append prefix suffix).
Proof.
  exists (filter no_decay_name trainable_params),
         (filter (fun x => negb (no_decay_name x)) trainable_params).
  split.
  - unfold get_param_groups. rewrite fold_classify. reflexivity.
  - intros x. rewrite !filter_In, negb_true_iff, <- no_decay_name_spec. split; [tauto|].
    split.
    + intros [Hin Hf]. split; [exact Hin|]. intros q suf Hs E.
      assert (no_decay_name x = true) by (apply no_decay_name_spec; eauto). congruence.
    + intros [Hin Hn]. split; [exact Hin|].
      destruct (no_decay_name x) eqn:E; [|reflexivity].
      apply no_decay_name_spec in E as (q & suf & Hs & E). exfalso. eapply Hn; eauto.
Qed.

(** X25: [get_param_groups] treats each parameter on its own: the groups of a
    concatenated parameter list are the concatenations of the groups of its
    parts. *)
Theorem param_groups_app (l1 l2 : list param) :
  map params (get_param_groups (l1 ++ l2))
  = zipWith (@app param) (map params (get_param_groups l1)) (map params (get_param_groups l2)).
Proof.
  unfold get_param_groups. rewrite !fold_classify. cbn [app map params zipWith].
  now rewrite !filter_app.
Qed.

(** ** Worked examples *)

Example random_sample_example :
  option_map (@data R) (RandLANet.random_sample example_feature example_pool_idx)
  = Some [7; 6]%R.
Proof.
  cbv -[Rmax IZR]. f_equal.
  rewrite Rmax_right by lra. rewrite Rmax_left by lra. reflexivity.
Qed.

Example get_param_groups_example :
  map (fun g => map name (params g))
      (get_param_groups
         [mkParam "fc.weight"%string example_x; mkParam "fc.bias"%string example_x;
          mkParam "bn.gamma"%string example_x; mkParam "beta"%string example_x;
          mkParam "bn.beta"%string example_x])
  = [["fc.bias"; "bn.gamma"; "bn.beta"]; ["fc.weight"; "beta"]]%string.
Proof. reflexivity. Qed.

Example Hloss_needs_six :
  Hloss.construct [TFloat32 example_x] [example_x] = None.
Proof. reflexivity. Qed.
